(** * A line-numbered BASIC: parser and runtime

    Shallow embedding of [src/common/basic/compiler.ts] (lexer and
    recursive-descent parser) and [src/common/basic/runtime.ts] (the
    statement-at-a-time interpreter), followed by the properties proved
    about them.

    Conventions of the embedding:
    - a JavaScript [number] is a binary64 value, here a primitive [float];
    - a JavaScript string is a [string] of 8-bit code units;
    - JavaScript objects used as dictionaries ([vars], [label2pc],
      [labels]) are [gmap string _];
    - a thrown exception ends the computation with the state as it was
      mutated up to the [throw];
    - the JavaScript text that a [do__X] method returns, and that
      [new Function] turns into a closure, is kept as a small syntax tree
      ([JSCode]) and run by [exec]. *)

From Stdlib Require Import ZArith Floats String Ascii List Lia Bool DecimalString.
From stdpp Require Import gmap strings list.

Set Warnings "-register-all,-inexact-float".

Open Scope string_scope.
Open Scope Z_scope.

(** ** ECMAScript built-ins used by the sources *)

Module JS.

Abbreviation number := float.

Definition isNaN (x : number) : bool := negb (x =? x)%float.
Definition isFinite (x : number) : bool := (abs x <? infinity)%float.

(** *** Strings *)

Definition isUpperAZ (c : ascii) : bool :=
  let n := nat_of_ascii c in ((65 <=? n) && (n <=? 90))%nat.
Definition isLowerAZ (c : ascii) : bool :=
  let n := nat_of_ascii c in ((97 <=? n) && (n <=? 122))%nat.
Definition isDigit (c : ascii) : bool :=
  let n := nat_of_ascii c in ((48 <=? n) && (n <=? 57))%nat.

Definition upperChar (c : ascii) : ascii :=
  if isLowerAZ c then ascii_of_nat (nat_of_ascii c - 32) else c.

(** [String.prototype.toUpperCase] on code units below 128. *)
Fixpoint toUpperCase (s : string) : string :=
  match s with
  | EmptyString => EmptyString
  | String c r => String (upperChar c) (toUpperCase r)
  end.

Definition startsWith (s p : string) : bool := String.prefix p s.

Definition endsWith (s p : string) : bool :=
  let ls := String.length s in
  let lp := String.length p in
  ((lp <=? ls)%nat && String.eqb (String.substring (ls - lp) lp s) p).

(** [s.substr(n)]: the suffix from index [n]. *)
Definition substrFrom (n : nat) (s : string) : string :=
  String.substring n (String.length s - n) s.

Fixpoint repeatStr (s : string) (n : nat) : string :=
  match n with
  | O => EmptyString
  | S k => s +:+ repeatStr s k
  end.

Definition decZ (z : Z) : string :=
  NilZero.string_of_uint (N.to_uint (Z.to_N z)).

Definition digitVal (c : ascii) : Z := Z.of_nat (nat_of_ascii c) - 48.

Fixpoint digitsVal (acc : Z) (s : string) : Z :=
  match s with
  | EmptyString => acc
  | String c r => digitsVal (10 * acc + digitVal c) r
  end.

Fixpoint spanDigits (s : string) : string * string :=
  match s with
  | String c r =>
      if isDigit c then let '(d, t) := spanDigits r in (String c d, t)
      else (EmptyString, s)
  | EmptyString => (EmptyString, EmptyString)
  end.

(** *** Decimal to binary64, correctly rounded *)

(** [d * 10^k] rounded to nearest, ties to even.  For [k < 0] the
    quotient is computed to more than 64 bits with a sticky bit, which
    [binary_normalize] then rounds.  The two guards only cut off
    exponents whose result is already decided. *)
Definition SF_of_dec (d : Z) (k : Z) : spec_float :=
  match d with
  | Zpos _ =>
      let nd := Z.of_nat (String.length (decZ d)) in
      if 310 <? nd + k then S754_infinity false
      else if nd + k <? -330 then S754_zero false
      else if 0 <=? k then binary_normalize prec emax (d * 10 ^ k) 0 false
      else
        let den := 10 ^ (- k) in
        let s := Z.max 0 (Z.log2 den - Z.log2 d + 66) in
        let num := Z.shiftl d s in
        let q := num / den in
        let r := num mod den in
        binary_normalize prec emax (2 * q + (if r =? 0 then 0 else 1)) (- (s + 1)) false
  | _ => S754_zero false
  end.

(** *** Rounding to an integer *)

Definition SF_of_int (s : bool) (n : Z) : spec_float :=
  match n with
  | Z0 => S754_zero s
  | _ => binary_normalize prec emax (if s then - n else n) 0 s
  end.

(** Integer part and remainder of [m * 2^e] for [e < 0]. *)
Definition SFfloor (x : spec_float) : spec_float :=
  match x with
  | S754_finite s m e =>
      if 0 <=? e then x
      else
        let q := Z.shiftr (Zpos m) (- e) in
        let r := Z.land (Zpos m) (Z.ones (- e)) in
        SF_of_int s (if s then (if r =? 0 then q else q + 1) else q)
  | _ => x
  end.

Definition SFround (x : spec_float) : spec_float :=
  match x with
  | S754_finite s m e =>
      if 0 <=? e then x
      else
        let q := Z.shiftr (Zpos m) (- e) in
        let r := Z.land (Zpos m) (Z.ones (- e)) in
        let half := Z.shiftl 1 (- e - 1) in
        SF_of_int s (if s then (if half <? r then q + 1 else q)
                     else (if half <=? r then q + 1 else q))
  | _ => x
  end.

(** [Math.floor] and [Math.round]. *)
Definition Math_floor (x : number) : number := SF2Prim (SFfloor (Prim2SF x)).
Definition Math_round (x : number) : number := SF2Prim (SFround (Prim2SF x)).

(** *** [parseFloat] *)

Definition isStrWhiteSpace (c : ascii) : bool :=
  let n := nat_of_ascii c in
  ((9 <=? n) && (n <=? 13) || (n =? 32) || (n =? 160))%nat.

Fixpoint skipWhite (s : string) : string :=
  match s with
  | String c r => if isStrWhiteSpace c then skipWhite r else s
  | EmptyString => s
  end.

Definition isExpChar (c : ascii) : bool :=
  (Ascii.eqb c "e" || Ascii.eqb c "E")%char.

(** The exponent part [e[+-]?digits] at the head of [s], or [0]. *)
Definition parseExponent (s : string) : Z :=
  match s with
  | String c r =>
      if isExpChar c then
        match r with
        | String "+"%char r' =>
            let '(ds, _) := spanDigits r' in
            if String.eqb ds "" then 0 else digitsVal 0 ds
        | String "-"%char r' =>
            let '(ds, _) := spanDigits r' in
            if String.eqb ds "" then 0 else - digitsVal 0 ds
        | _ =>
            let '(ds, _) := spanDigits r in
            if String.eqb ds "" then 0 else digitsVal 0 ds
        end
      else 0
  | EmptyString => 0
  end.

(** The longest prefix of [s] that is an unsigned StrDecimalLiteral. *)
Definition parseUnsigned (s : string) : spec_float :=
  if startsWith s "Infinity" then S754_infinity false
  else
    let '(ip, r1) := spanDigits s in
    match r1 with
    | String "."%char r2 =>
        let '(fp, r3) := spanDigits r2 in
        if String.eqb ip "" && String.eqb fp "" then S754_nan
        else SF_of_dec (digitsVal 0 (ip +:+ fp))
                       (parseExponent r3 - Z.of_nat (String.length fp))
    | _ =>
        if String.eqb ip "" then S754_nan
        else SF_of_dec (digitsVal 0 ip) (parseExponent r1)
    end.

Definition parseFloat (s : string) : number :=
  match skipWhite s with
  | String "-"%char r => SF2Prim (SFopp (parseUnsigned r))
  | String "+"%char r => SF2Prim (parseUnsigned r)
  | r => SF2Prim (parseUnsigned r)
  end.

(** *** [Number.prototype.toString] and [toPrecision] *)

(** A positive rational [num / den], [den > 0]. *)
Definition ratOfSF (m : positive) (e : Z) : Z * Z :=
  if 0 <=? e then (Zpos m * 2 ^ e, 1) else (Zpos m, 2 ^ (- e)).

(** [x / 10^j] as a fraction. *)
Definition ratDivPow10 (x : Z * Z) (j : Z) : Z * Z :=
  let '(n, d) := x in
  if 0 <=? j then (n, d * 10 ^ j) else (n * 10 ^ (- j), d).

(** [x < 10^j]. *)
Definition ratLtPow10 (x : Z * Z) (j : Z) : bool :=
  let '(n, d) := ratDivPow10 x j in n <? d.

(** The [n] with [10^(n-1) <= x < 10^n], searched around an estimate. *)
Fixpoint decExponentFrom (fuel : nat) (x : Z * Z) (n : Z) : Z :=
  match fuel with
  | O => n
  | S f =>
      if negb (ratLtPow10 x n) then decExponentFrom f x (n + 1)
      else if ratLtPow10 x (n - 1) then decExponentFrom f x (n - 1)
      else n
  end.

Definition decExponent (m : positive) (e : Z) : Z :=
  decExponentFrom 8 (ratOfSF m e) ((Z.log2 (Zpos m) + e) * 30103 / 100000).

Definition sameNumber (x : spec_float) (m : positive) (e : Z) : bool :=
  match x with
  | S754_finite false m' e' => Pos.eqb m m' && (e =? e')
  | _ => false
  end.

(** The shortest digit string [s] (as an integer with [k] digits) and the
    exponent [n] with [s * 10^(n-k)] rounding to [m * 2^e], the closest
    such [s] when two qualify; [k] runs upwards from [k]. *)
Fixpoint shortestFrom (fuel : nat) (m : positive) (e : Z) (n k : Z) : Z * Z :=
  match fuel with
  | O => (0, n)
  | S f =>
      let '(tn, td) := ratDivPow10 (ratOfSF m e) (n - k) in
      let lo := tn / td in
      let hi := lo + 1 in
      let okLo := sameNumber (SF_of_dec lo (n - k)) m e in
      let okHi := sameNumber (SF_of_dec hi (n - k)) m e in
      let twice := 2 * (tn - lo * td) in
      let pick (c : Z) := if c =? 10 ^ k then (10 ^ (k - 1), n + 1) else (c, n) in
      if okLo && okHi then
        if twice <? td then pick lo
        else if td <? twice then pick hi
        else if Z.even lo then pick lo else pick hi
      else if okLo then pick lo
      else if okHi then pick hi
      else shortestFrom f m e n (k + 1)
  end.

Definition zeros (n : Z) : string := repeatStr "0" (Z.to_nat n).

Definition expSuffix (e : Z) : string :=
  "e" +:+ (if e <? 0 then "-" else "+") +:+ decZ (Z.abs e).

Definition formatShortest (ds : string) (n : Z) : string :=
  let k := Z.of_nat (String.length ds) in
  if (k <=? n) && (n <=? 21) then ds +:+ zeros (n - k)
  else if (0 <? n) && (n <=? 21) then
    String.substring 0 (Z.to_nat n) ds +:+ "." +:+ substrFrom (Z.to_nat n) ds
  else if (-6 <? n) && (n <=? 0) then "0." +:+ zeros (- n) +:+ ds
  else if k =? 1 then ds +:+ expSuffix (n - 1)
  else String.substring 0 1 ds +:+ "." +:+ substrFrom 1 ds +:+ expSuffix (n - 1).

(** [Number::toString(x, 10)]. *)
Definition Number_toString (x : number) : string :=
  match Prim2SF x with
  | S754_nan => "NaN"
  | S754_zero _ => "0"
  | S754_infinity s => if s then "-Infinity" else "Infinity"
  | S754_finite s m e =>
      let '(d, n) := shortestFrom 17 m e (decExponent m e) 1 in
      (if s then "-" else "") +:+ formatShortest (decZ d) n
  end.

(** The [p] digits [n] and exponent [e] of step 10 of [toPrecision]:
    [n * 10^(e-p+1)] closest to the value, the larger one at a tie. *)
Definition precisionDigits (m : positive) (e2 : Z) (p : Z) : Z * Z :=
  let e := decExponent m e2 - 1 in
  let '(tn, td) := ratDivPow10 (ratOfSF m e2) (e - p + 1) in
  let n := (2 * tn + td) / (2 * td) in
  if n =? 10 ^ p then (10 ^ (p - 1), e + 1) else (n, e).

Definition formatPrecision (ds : string) (e p : Z) : string :=
  if (e <? -6) || (p <=? e) then
    (if p =? 1 then ds else String.substring 0 1 ds +:+ "." +:+ substrFrom 1 ds)
    +:+ expSuffix e
  else if e =? p - 1 then ds
  else if 0 <=? e then
    String.substring 0 (Z.to_nat (e + 1)) ds +:+ "." +:+ substrFrom (Z.to_nat (e + 1)) ds
  else "0." +:+ zeros (- (e + 1)) +:+ ds.

(** [Number.prototype.toPrecision(p)]; [None] is the RangeError for a
    precision outside 1..100. *)
Definition Number_toPrecision (x : number) (p : Z) : option string :=
  match Prim2SF x with
  | S754_nan => Some "NaN"
  | S754_infinity s => Some (if s then "-Infinity" else "Infinity")
  | S754_zero _ =>
      if (p <? 1) || (100 <? p) then None
      else Some (formatPrecision (zeros p) 0 p)
  | S754_finite s m e2 =>
      if (p <? 1) || (100 <? p) then None
      else
        let '(n, e) := precisionDigits m e2 p in
        Some ((if s then "-" else "") +:+ formatPrecision (decZ n) e p)
  end.

End JS.

(** JavaScript values that reach the interpreter: [number | string] in
    the syntax tree, plus the booleans the relational primitives return
    and [undefined] for an unset variable. *)
Inductive Value :=
| VNum (n : float)
| VStr (s : string)
| VBool (b : bool)
| VUndefined.

(** ** compiler.ts: tokens and syntax trees *)

Module Compiler.

Record SourceLocation := {
  line : nat;
  start : nat;
  end_ : option nat
}.

Inductive TokenType :=
| EOL | Float1 | Float2 | Int | Remark | Ident | String_ | Relational | Operator | CatchAll.

Definition TokenType_eqb (a b : TokenType) : bool :=
  match a, b with
  | EOL, EOL | Float1, Float1 | Float2, Float2 | Int, Int | Remark, Remark
  | Ident, Ident | String_, String_ | Relational, Relational
  | Operator, Operator | CatchAll, CatchAll => true
  | _, _ => false
  end.

Inductive Expr :=
| Literal (value : Value) (loc : option SourceLocation)
| Lookup (name : string) (args : option (list Expr)) (loc : option SourceLocation)
| BinOp (op : string) (left right : Expr)
| UnOp (op : string) (expr : Expr).

(** [IndOp]: a variable, subscripted variable or call, as
    [parseVarOrIndexed] builds it. *)
Record IndOp := {
  name : string;
  args : option (list Expr);
  iloc : SourceLocation
}.

Definition exprOfIndOp (i : IndOp) : Expr := Lookup (name i) (args i) (Some (iloc i)).

Inductive Command :=
| PRINT (args : list Expr)
| LET (lexpr : IndOp) (right : Expr)
| GOTO (label : Expr)
| GOSUB (label : Expr)
| RETURN
| IF (cond : Expr)
| FOR (lexpr : IndOp) (initial target : Expr) (step : option Expr)
| NEXT (lexpr : option Expr)
| DIM (args : list IndOp)
| INPUT (prompt : Expr) (args : list IndOp)
| READ (args : list IndOp)
| DEF (lexpr : IndOp) (def : Expr)
| ONGOTO (expr : Expr) (labels : list Expr)
| DATA (datums : list Expr)
| OPTION (optname : string) (optargs : list string)
| RESTORE
| STOP
| END_
| Other (command : string).

(** A statement object: its command-specific fields and [$loc]. *)
Record Statement := {
  command : Command;
  sloc : option SourceLocation
}.

Record BASICLine := {
  label : option string;
  stmts : list Statement
}.

Record BASICOptions := {
  uppercaseOnly : bool;
  strictVarNames : bool;
  sharedArrayNamespace : bool;
  defaultArrayBase : Z;
  defaultArraySize : Z;
  maxDimensions : Z;
  stringConcat : bool;
  typeConvert : bool;
  maxArguments : Z;
  sparseArrays : bool;
  tickComments : bool;
  validKeywords : option (list string);
  validFunctions : option (list string);
  validOperators : option (list string);
  printZoneLength : Z;
  printPrecision : Z;
  checkOverflow : bool;
  defaultValues : bool;
  multipleNextVars : bool
}.

Record BASICProgram := {
  opts : BASICOptions;
  lines : list BASICLine
}.

Record Token := {
  str : string;
  type : TokenType;
  tloc : SourceLocation
}.

(** *** OPERATORS *)

Record OpInfo := { f : string; p : Z }.

Definition OPERATORS : list (string * OpInfo) :=
  [ ("OR",  {| f := "bor";  p := 7 |});
    ("AND", {| f := "band"; p := 8 |});
    ("=",   {| f := "eq";   p := 50 |});
    ("<>",  {| f := "ne";   p := 50 |});
    ("<",   {| f := "lt";   p := 50 |});
    (">",   {| f := "gt";   p := 50 |});
    ("<=",  {| f := "le";   p := 50 |});
    (">=",  {| f := "ge";   p := 50 |});
    ("+",   {| f := "add";  p := 100 |});
    ("-",   {| f := "sub";  p := 100 |});
    ("%",   {| f := "mod";  p := 140 |});
    ("\",   {| f := "idiv"; p := 150 |});
    ("*",   {| f := "mul";  p := 200 |});
    ("/",   {| f := "div";  p := 200 |});
    ("^",   {| f := "pow";  p := 300 |}) ].

Fixpoint assoc {A : Type} (k : string) (l : list (string * A)) : option A :=
  match l with
  | [] => None
  | (k', v) :: r => if String.eqb k k' then Some v else assoc k r
  end.

Definition getOperator (op : string) : option OpInfo := assoc op OPERATORS.

Definition getPrecedence (tok : Token) : Z :=
  match type tok with
  | Operator | Relational | Ident =>
      match getOperator (str tok) with
      | Some op => p op
      | None => -1
      end
  | _ => -1
  end.

(** Is the token an end-of-statement marker ([:] or end of line)? *)
Definition isEOS (tok : Token) : bool :=
  TokenType_eqb (type tok) EOL
  || (TokenType_eqb (type tok) Operator && String.eqb (str tok) ":").

Definition stripQuotes (s : string) : string :=
  String.substring 1 (String.length s - 2) s.

(** *** Dialects *)

Definition ECMA55_MINIMAL : BASICOptions := {|
  uppercaseOnly := true;
  strictVarNames := true;
  sharedArrayNamespace := true;
  defaultArrayBase := 0;
  defaultArraySize := 11;
  defaultValues := false;
  stringConcat := false;
  typeConvert := false;
  maxDimensions := 2;
  maxArguments := 255;
  sparseArrays := false;
  tickComments := false;
  validKeywords := Some
    ["BASE";"DATA";"DEF";"DIM";"END";
     "FOR";"GO";"GOSUB";"GOTO";"IF";"INPUT";"LET";"NEXT";"ON";"OPTION";"PRINT";
     "RANDOMIZE";"READ";"REM";"RESTORE";"RETURN";"STEP";"STOP";"SUB";"THEN";"TO"];
  validFunctions := Some
    ["ABS";"ATN";"COS";"EXP";"INT";"LOG";"RND";"SGN";"SIN";"SQR";"TAB";"TAN"];
  validOperators := Some ["="; "<>"; "<"; ">"; "<="; ">="; "+"; "-"; "*"; "/"; "^"];
  printZoneLength := 15;
  printPrecision := 6;
  checkOverflow := true;
  multipleNextVars := false
|}.

Definition ALTAIR_BASIC40 : BASICOptions := {|
  uppercaseOnly := true;
  strictVarNames := true;
  sharedArrayNamespace := true;
  defaultArrayBase := 0;
  defaultArraySize := 11;
  defaultValues := false;
  stringConcat := false;
  typeConvert := false;
  maxDimensions := 2;
  maxArguments := 255;
  sparseArrays := false;
  tickComments := false;
  validKeywords := None;
  validFunctions := None;
  validOperators := None;
  printZoneLength := 15;
  printPrecision := 6;
  checkOverflow := true;
  multipleNextVars := true
|}.

Definition DIALECTS : list (string * BASICOptions) :=
  [ ("DEFAULT", ALTAIR_BASIC40);
    ("ALTAIR", ALTAIR_BASIC40);
    ("ALTAIR40", ALTAIR_BASIC40);
    ("ECMA55", ECMA55_MINIMAL);
    ("MINIMAL", ECMA55_MINIMAL) ].

Definition set_defaultArrayBase (b : Z) (o : BASICOptions) : BASICOptions := {|
  uppercaseOnly := uppercaseOnly o;
  strictVarNames := strictVarNames o;
  sharedArrayNamespace := sharedArrayNamespace o;
  defaultArrayBase := b;
  defaultArraySize := defaultArraySize o;
  defaultValues := defaultValues o;
  stringConcat := stringConcat o;
  typeConvert := typeConvert o;
  maxDimensions := maxDimensions o;
  maxArguments := maxArguments o;
  sparseArrays := sparseArrays o;
  tickComments := tickComments o;
  validKeywords := validKeywords o;
  validFunctions := validFunctions o;
  validOperators := validOperators o;
  printZoneLength := printZoneLength o;
  printPrecision := printPrecision o;
  checkOverflow := checkOverflow o;
  multipleNextVars := multipleNextVars o
|}.

(** *** Lexer

    [re_toks] is one alternation, tried in order at the leftmost position
    where some alternative matches; each function below is one capture
    group and returns the lexeme and the rest of the line. *)

Definition isWordChar (c : ascii) : bool :=
  JS.isUpperAZ c || JS.isLowerAZ c || JS.isDigit c || Ascii.eqb c "_"%char.

Definition isLineTerminator (c : ascii) : bool :=
  let n := nat_of_ascii c in ((n =? 10) || (n =? 13))%nat.

Fixpoint span (f : ascii -> bool) (s : string) : string * string :=
  match s with
  | String c r =>
      if f c then let '(a, t) := span f r in (String c a, t)
      else (EmptyString, s)
  | EmptyString => (EmptyString, EmptyString)
  end.

Definition nonEmpty (s : string) : bool := negb (String.eqb s "").

(** Group 1: [[0-9.]+[E][+-]?\d+] *)
Definition lexFloat1 (s : string) : option (string * string) :=
  let '(a, r1) := span (fun c => JS.isDigit c || Ascii.eqb c "."%char) s in
  if nonEmpty a then
    match r1 with
    | String c r2 =>
        if JS.isExpChar c then
          let '(sign, r3) :=
            match r2 with
            | String "+"%char t => ("+", t)
            | String "-"%char t => ("-", t)
            | _ => ("", r2)
            end in
          let '(ds, r4) := span JS.isDigit r3 in
          if nonEmpty ds then Some (a +:+ String c sign +:+ ds, r4) else None
        else None
    | EmptyString => None
    end
  else None.

(** Group 2: [\d*[.]\d*[E0-9]*] *)
Definition lexFloat2 (s : string) : option (string * string) :=
  let '(a, r1) := span JS.isDigit s in
  match r1 with
  | String "."%char r2 =>
      let '(b, r3) := span (fun c => JS.isDigit c || JS.isExpChar c) r2 in
      Some (a +:+ "." +:+ b, r3)
  | _ => None
  end.

(** Group 3: [\d+] *)
Definition lexInt (s : string) : option (string * string) :=
  let '(a, r) := span JS.isDigit s in
  if nonEmpty a then Some (a, r) else None.

(** Group 4: [['].*] *)
Definition lexRemark (s : string) : option (string * string) :=
  match s with
  | String "'"%char r =>
      let '(a, t) := span (fun c => negb (isLineTerminator c)) r in
      Some (String "'"%char a, t)
  | _ => None
  end.

(** Group 5: [\w+[$]?] *)
Definition lexIdent (s : string) : option (string * string) :=
  let '(a, r) := span isWordChar s in
  if nonEmpty a then
    match r with
    | String "$"%char t => Some (a +:+ "$", t)
    | _ => Some (a, r)
    end
  else None.

(** Group 6: a double quote, then lazily anything up to the next double
    quote on the line. *)
Definition dquote : ascii := ascii_of_nat 34.

Definition lexString (s : string) : option (string * string) :=
  match s with
  | String q r =>
      if Ascii.eqb q dquote then
        let '(a, t) :=
          span (fun c => negb (isLineTerminator c) && negb (Ascii.eqb c dquote)) r in
        match t with
        | String q' u =>
            if Ascii.eqb q' dquote then Some (String q a +:+ String q' EmptyString, u)
            else None
        | EmptyString => None
        end
      else None
  | EmptyString => None
  end.

(** Group 7: [[<>]?[=<>]] *)
Definition isRelChar (c : ascii) : bool :=
  (Ascii.eqb c "=" || Ascii.eqb c "<" || Ascii.eqb c ">")%char.

Definition lexRelational (s : string) : option (string * string) :=
  match s with
  | String c r =>
      if (Ascii.eqb c "<" || Ascii.eqb c ">")%char then
        match r with
        | String c2 r2 =>
            if isRelChar c2 then Some (String c (String c2 EmptyString), r2)
            else Some (String c EmptyString, r)
        | EmptyString => Some (String c EmptyString, r)
        end
      else if Ascii.eqb c "="%char then Some (String c EmptyString, r)
      else None
  | EmptyString => None
  end.

(** Group 8: [[-+*/^,;:()]] *)
Definition isOperatorChar (c : ascii) : bool :=
  existsb (Ascii.eqb c) (list_ascii_of_string "-+*/^,;:()").

Definition lexOperator (s : string) : option (string * string) :=
  match s with
  | String c r => if isOperatorChar c then Some (String c EmptyString, r) else None
  | EmptyString => None
  end.

(** Group 9: [\S+] *)
Definition lexCatchAll (s : string) : option (string * string) :=
  let '(a, r) := span (fun c => negb (JS.isStrWhiteSpace c)) s in
  if nonEmpty a then Some (a, r) else None.

(** The first capture group that matches at the head of [s]. *)
Definition matchToken (s : string) : option (TokenType * string * string) :=
  let try (ty : TokenType) (r : option (string * string))
          (k : option (TokenType * string * string)) :=
    match r with
    | Some (lexeme, rest) => Some (ty, lexeme, rest)
    | None => k
    end in
  try Float1 (lexFloat1 s)
  (try Float2 (lexFloat2 s)
  (try Int (lexInt s)
  (try Remark (lexRemark s)
  (try Ident (lexIdent s)
  (try String_ (lexString s)
  (try Relational (lexRelational s)
  (try Operator (lexOperator s)
  (try CatchAll (lexCatchAll s) None)))))))).

(** The [while (m = re_toks.exec(line))] loop of [tokenize]; [fuel]
    bounds the number of positions visited and [pos] is [m.index]. *)
Fixpoint tokenizeFrom (fuel : nat) (upper : bool) (lineno pos : nat) (s : string)
  : list Token :=
  match fuel with
  | O => []
  | S fuel' =>
      match s with
      | EmptyString => []
      | String _ r =>
          match matchToken s with
          | Some (ty, lexeme, rest) =>
              let s' := if TokenType_eqb ty Ident || upper
                        then JS.toUpperCase lexeme else lexeme in
              {| str := s'; type := ty;
                 tloc := {| line := lineno; start := pos;
                            end_ := Some (pos + String.length s')%nat |} |}
              :: tokenizeFrom fuel' upper lineno (pos + String.length lexeme)%nat rest
          | None => tokenizeFrom fuel' upper lineno (S pos) r
          end
      end
  end.

(** *** Parser state

    The fields of [BASICParser].  [labels] maps a label to the line that
    declares it; the line object is referred to by its line number.
    [targets], [decls] and [refs] keep insertion order, which [for ... in]
    observes. *)

Record WorkerError := { eline : nat; msg : string }.

Record Parser := {
  popts : BASICOptions;
  errors : list WorkerError;
  listings : list (string * list (nat * nat));
  labels : gmap string nat;
  targets : list (string * SourceLocation);
  decls : list (string * SourceLocation);
  refs : list (string * SourceLocation);
  lineno : nat;
  tokens : list Token;
  eol : Token;
  curlabel : option string;
  lasttoken : option Token
}.

Definition eolToken (ln col : nat) : Token :=
  {| str := ""; type := EOL; tloc := {| line := ln; start := col; end_ := None |} |}.

(** [new BASICParser()] *)
Definition newParser : Parser := {|
  popts := ALTAIR_BASIC40;
  errors := [];
  listings := [];
  labels := ∅;
  targets := [];
  decls := [];
  refs := [];
  lineno := 0;
  tokens := [];
  eol := eolToken 0 0;
  curlabel := None;
  lasttoken := None
|}.

Definition set_popts (o : BASICOptions) (q : Parser) : Parser :=
  {| popts := o; errors := errors q; listings := listings q; labels := labels q;
     targets := targets q; decls := decls q; refs := refs q; lineno := lineno q;
     tokens := tokens q; eol := eol q; curlabel := curlabel q;
     lasttoken := lasttoken q |}.
Definition set_errors (e : list WorkerError) (q : Parser) : Parser :=
  {| popts := popts q; errors := e; listings := listings q; labels := labels q;
     targets := targets q; decls := decls q; refs := refs q; lineno := lineno q;
     tokens := tokens q; eol := eol q; curlabel := curlabel q;
     lasttoken := lasttoken q |}.
Definition set_listings (l : list (string * list (nat * nat))) (q : Parser) : Parser :=
  {| popts := popts q; errors := errors q; listings := l; labels := labels q;
     targets := targets q; decls := decls q; refs := refs q; lineno := lineno q;
     tokens := tokens q; eol := eol q; curlabel := curlabel q;
     lasttoken := lasttoken q |}.
Definition set_labels (l : gmap string nat) (q : Parser) : Parser :=
  {| popts := popts q; errors := errors q; listings := listings q; labels := l;
     targets := targets q; decls := decls q; refs := refs q; lineno := lineno q;
     tokens := tokens q; eol := eol q; curlabel := curlabel q;
     lasttoken := lasttoken q |}.
Definition set_targets (l : list (string * SourceLocation)) (q : Parser) : Parser :=
  {| popts := popts q; errors := errors q; listings := listings q; labels := labels q;
     targets := l; decls := decls q; refs := refs q; lineno := lineno q;
     tokens := tokens q; eol := eol q; curlabel := curlabel q;
     lasttoken := lasttoken q |}.
Definition set_decls (l : list (string * SourceLocation)) (q : Parser) : Parser :=
  {| popts := popts q; errors := errors q; listings := listings q; labels := labels q;
     targets := targets q; decls := l; refs := refs q; lineno := lineno q;
     tokens := tokens q; eol := eol q; curlabel := curlabel q;
     lasttoken := lasttoken q |}.
Definition set_refs (l : list (string * SourceLocation)) (q : Parser) : Parser :=
  {| popts := popts q; errors := errors q; listings := listings q; labels := labels q;
     targets := targets q; decls := decls q; refs := l; lineno := lineno q;
     tokens := tokens q; eol := eol q; curlabel := curlabel q;
     lasttoken := lasttoken q |}.
Definition set_tokenized (ln : nat) (ts : list Token) (e : Token) (q : Parser) : Parser :=
  {| popts := popts q; errors := errors q; listings := listings q; labels := labels q;
     targets := targets q; decls := decls q; refs := refs q; lineno := ln;
     tokens := ts; eol := e; curlabel := curlabel q;
     lasttoken := lasttoken q |}.
Definition set_tokens (ts : list Token) (q : Parser) : Parser :=
  {| popts := popts q; errors := errors q; listings := listings q; labels := labels q;
     targets := targets q; decls := decls q; refs := refs q; lineno := lineno q;
     tokens := ts; eol := eol q; curlabel := curlabel q;
     lasttoken := lasttoken q |}.
Definition set_curlabel (l : option string) (q : Parser) : Parser :=
  {| popts := popts q; errors := errors q; listings := listings q; labels := labels q;
     targets := targets q; decls := decls q; refs := refs q; lineno := lineno q;
     tokens := tokens q; eol := eol q; curlabel := l;
     lasttoken := lasttoken q |}.
Definition set_lasttoken (t : option Token) (q : Parser) : Parser :=
  {| popts := popts q; errors := errors q; listings := listings q; labels := labels q;
     targets := targets q; decls := decls q; refs := refs q; lineno := lineno q;
     tokens := tokens q; eol := eol q; curlabel := curlabel q;
     lasttoken := t |}.

(** [obj[k] = v] on an object whose key order is observed. *)
Fixpoint setKey {A : Type} (k : string) (v : A) (l : list (string * A))
  : list (string * A) :=
  match l with
  | [] => [(k, v)]
  | (k', v') :: r => if String.eqb k k' then (k, v) :: r else (k', v') :: setKey k v r
  end.

(** *** The parsing monad

    A method either returns, or throws a [CompileError]; in both cases
    the parser object carries the mutations made so far.  [OutOfFuel] is
    the embedding's recursion budget running out. *)

Inductive Result (A : Type) :=
| Ok (a : A) (q : Parser)
| Throw (message : string) (q : Parser)
| OutOfFuel.
Arguments Ok {A} a q.
Arguments Throw {A} message q.
Arguments OutOfFuel {A}.

Definition M (A : Type) : Type := Parser -> Result A.

Definition ret {A : Type} (a : A) : M A := fun q => Ok a q.

Definition bind {A B : Type} (m : M A) (k : A -> M B) : M B :=
  fun q =>
    match m q with
    | Ok a q' => k a q'
    | Throw e q' => Throw e q'
    | OutOfFuel => OutOfFuel
    end.

#[global] Instance M_ret : MRet M := @ret.
#[global] Instance M_bind : MBind M := fun A B k m => bind m k.

Definition get {A : Type} (proj : Parser -> A) : M A := fun q => Ok (proj q) q.
Definition modify (g : Parser -> Parser) : M unit := fun q => Ok tt (g q).
Definition when (b : bool) (m : M unit) : M unit := if b then m else ret tt.

Definition peekToken : M Token :=
  fun q => match tokens q with
           | tok :: _ => Ok tok q
           | [] => Ok (eol q) q
           end.

(** [compileError(msg, loc)]: record the error, then throw. *)
Definition compileErrorAt {A : Type} (m : string) (loc : SourceLocation) : M A :=
  fun q =>
    Throw (m +:+ " (line " +:+ JS.decZ (Z.of_nat (line loc)) +:+ ")")
          (set_errors (errors q ++ [{| eline := line loc; msg := m |}])%list q).

Definition compileError {A : Type} (m : string) : M A :=
  tok ← peekToken; compileErrorAt m (tloc tok).

Definition dialectError {A : Type} (what : string) : M A :=
  compileError ("The selected BASIC dialect doesn't support " +:+ what +:+ ".").

Definition consumeToken : M Token :=
  fun q =>
    match tokens q with
    | tok :: rest => Ok tok (set_lasttoken (Some tok) (set_tokens rest q))
    | [] => Ok (eol q) (set_lasttoken (Some (eol q)) q)
    end.

Definition quoted (s : string) : string :=
  String dquote s +:+ String dquote EmptyString.

Definition expectToken (s : string) : M Token :=
  tok ← consumeToken;
  when (negb (String.eqb s (str tok)))
       (compileError ("There should be a " +:+ quoted s +:+ " here."));;
  ret tok.

Definition pushbackToken (tok : Token) : M unit :=
  modify (fun q => set_tokens (tok :: tokens q) q).

(** [this.lasttoken.$loc] *)
Definition lastLoc : M SourceLocation :=
  fun q => match lasttoken q with
           | Some t => Ok (tloc t) q
           | None => Ok (tloc (eol q)) q
           end.

(** *** Expressions *)

Definition tabChar : string := String (ascii_of_nat 9) EmptyString.
Definition newlineChar : string := String (ascii_of_nat 10) EmptyString.

Definition parseNumber (s : string) : M float :=
  let n := JS.parseFloat s in
  when (JS.isNaN n)
       (compileError ("The number " +:+ s +:+ " is not a valid floating-point number."));;
  o ← get popts;
  when (checkOverflow o && negb (JS.isFinite n))
       (compileError ("The number " +:+ s +:+ " is too big to fit into a floating-point value."));;
  ret n.

(** [parseInt(tok.str).toString()] on the digits of an [Int] token. *)
Definition labelOfInt (s : string) : string := JS.Number_toString (JS.parseFloat s).

Definition parseLabel : M Expr :=
  tok ← consumeToken;
  match type tok with
  | Int =>
      let l := labelOfInt (str tok) in
      modify (fun q => set_targets (setKey l (tloc tok) (targets q)) q);;
      ret (Literal (VStr l) None)
  | _ => compileError "There should be a line number here."
  end.

(** [parseList(parseFunc, delim)], a do-while loop. *)
Fixpoint parseList {T : Type} (fuel : nat) (parseFunc : M (option T)) (delim : string)
  (acc : list T) : M (list T) :=
  match fuel with
  | O => fun _ => OutOfFuel
  | S n =>
      el ← parseFunc;
      let acc' := match el with Some x => (acc ++ [x])%list | None => acc end in
      sep ← consumeToken;
      if String.eqb (str sep) delim then parseList n parseFunc delim acc'
      else pushbackToken sep;; ret acc'
  end.

Definition operatorAllowed (o : BASICOptions) (op : string) : bool :=
  match validOperators o with
  | Some l => existsb (String.eqb op) l
  | None => true
  end.

Definition opName (op : string) : string :=
  match getOperator op with
  | Some i => f i
  | None => ""
  end.

(** [parsePrimary], [parseVarOrIndexed], [parseExprList], [parseExpr]
    and [parseExpr1]; the last has its two [while] loops as
    [parseExpr1] (outer) and [parseExpr1Right] (inner). *)
Fixpoint parsePrimary (fuel : nat) : M Expr :=
  match fuel with
  | O => fun _ => OutOfFuel
  | S n =>
      tok ← consumeToken;
      match type tok with
      | Int | Float1 | Float2 =>
          v ← parseNumber (str tok);
          ret (Literal (VNum v) (Some (tloc tok)))
      | String_ => ret (Literal (VStr (stripQuotes (str tok))) (Some (tloc tok)))
      | Ident =>
          if String.eqb (str tok) "NOT" then
            e ← parsePrimary n; ret (UnOp "lnot" e)
          else
            pushbackToken tok;;
            i ← parseVarOrIndexed n;
            ret (exprOfIndOp i)
      | Operator =>
          if String.eqb (str tok) "(" then
            e ← parseExpr n; expectToken ")";; ret e
          else if String.eqb (str tok) "-" then
            e ← parsePrimary n; ret (UnOp "neg" e)
          else if String.eqb (str tok) "+" then parsePrimary n
          else compileError "The expression is incomplete."
      | EOL => compileError "The expression is incomplete."
      | _ => compileError ("There was an unexpected " +:+ quoted (str tok)
                           +:+ " in this expression.")
      end
  end
with parseVarOrIndexed (fuel : nat) : M IndOp :=
  match fuel with
  | O => fun _ => OutOfFuel
  | S n =>
      tok ← consumeToken;
      match type tok with
      | Ident =>
          modify (fun q => set_refs (setKey (str tok) (tloc tok) (refs q)) q);;
          nxt ← peekToken;
          a ← (if String.eqb (str nxt) "(" then
                 expectToken "(";;
                 l ← parseExprList n;
                 expectToken ")";;
                 ret (Some l)
               else ret None);
          ret {| name := str tok; args := a; iloc := tloc tok |}
      | _ => compileError "Expected variable or array index"
      end
  end
with parseExprList (fuel : nat) : M (list Expr) :=
  match fuel with
  | O => fun _ => OutOfFuel
  | S n => parseList n (e ← parseExpr n; ret (Some e)) "," []
  end
with parseExpr (fuel : nat) : M Expr :=
  match fuel with
  | O => fun _ => OutOfFuel
  | S n => l ← parsePrimary n; parseExpr1 n l 0
  end
with parseExpr1 (fuel : nat) (left : Expr) (minPred : Z) : M Expr :=
  match fuel with
  | O => fun _ => OutOfFuel
  | S n =>
      look ← peekToken;
      if minPred <=? getPrecedence look then
        op ← consumeToken;
        o ← get popts;
        when (negb (operatorAllowed o (str op)))
             (dialectError ("the " +:+ quoted (str op) +:+ " operator"));;
        right ← parsePrimary n;
        right' ← parseExpr1Right n right (getPrecedence op);
        parseExpr1 n (BinOp (opName (str op)) left right') minPred
      else ret left
  end
with parseExpr1Right (fuel : nat) (right : Expr) (opPrec : Z) : M Expr :=
  match fuel with
  | O => fun _ => OutOfFuel
  | S n =>
      look ← peekToken;
      if opPrec <? getPrecedence look then
        right' ← parseExpr1 n right (getPrecedence look);
        parseExpr1Right n right' opPrec
      else ret right
  end.

(** *** Statements *)

Definition declare (nm : string) : M unit :=
  l ← lastLoc;
  modify (fun q => set_decls (setKey nm l (decls q)) q).

Definition parseLexprList (fuel : nat) : M (list IndOp) :=
  l ← parseList fuel (i ← parseVarOrIndexed fuel; ret (Some i)) "," [];
  foldr (fun lexpr k => declare (name lexpr);; k) (ret tt) l;;
  ret l.

Definition parseLabelList (fuel : nat) : M (list Expr) :=
  parseList fuel (l ← parseLabel; ret (Some l)) "," [].

Definition stmt__LET (fuel : nat) : M Command :=
  lexpr ← parseVarOrIndexed fuel;
  expectToken "=";;
  declare (name lexpr);;
  right ← parseExpr fuel;
  ret (LET lexpr right).

(** The [do ... while (true)] loop of [stmt__PRINT]; returns the list,
    [lastsep] and the end-of-statement token [sep] it stopped at. *)
Fixpoint printLoop (fuel efuel : nat) (l : list Expr) (lastsep : option Token)
  : M (list Expr * option Token * Token) :=
  match fuel with
  | O => fun _ => OutOfFuel
  | S n =>
      sep ← peekToken;
      if isEOS sep then ret (l, lastsep, sep)
      else if String.eqb (str sep) ";" then
        consumeToken;; printLoop n efuel l (Some sep)
      else if String.eqb (str sep) "," then
        consumeToken;;
        printLoop n efuel (l ++ [Literal (VStr tabChar) None])%list (Some sep)
      else
        e ← parseExpr efuel;
        printLoop n efuel (l ++ [e])%list None
  end.

Definition stmt__PRINT (fuel : nat) : M Command :=
  '(l, lastsep, sep) ← printLoop fuel fuel [] None;
  let suppress :=
    match lastsep with
    | Some ls => String.eqb (str ls) ";" || negb (String.eqb (str sep) ",")
    | None => false
    end in
  ret (PRINT (if suppress then l else l ++ [Literal (VStr newlineChar) None])%list).

Definition stmt__GOTO : M Command := l ← parseLabel; ret (GOTO l).
Definition stmt__GOSUB : M Command := l ← parseLabel; ret (GOSUB l).

Definition stmt__IF (fuel : nat) : M Command :=
  cond ← parseExpr fuel;
  expectToken "THEN";;
  lineno ← peekToken;
  when (TokenType_eqb (type lineno) Int)
       (pushbackToken {| type := Ident; str := "GOTO"; tloc := tloc lineno |});;
  pushbackToken {| type := Operator; str := ":"; tloc := tloc lineno |};;
  ret (IF cond).

Definition stmt__FOR (fuel : nat) : M Command :=
  lexpr ← parseVarOrIndexed fuel;
  expectToken "=";;
  init ← parseExpr fuel;
  expectToken "TO";;
  targ ← parseExpr fuel;
  nxt ← peekToken;
  st ← (if String.eqb (str nxt) "STEP" then
          consumeToken;; e ← parseExpr fuel; ret (Some e)
        else ret None);
  ret (FOR lexpr init targ st).

Definition stmt__NEXT (fuel : nat) : M Command :=
  nxt ← peekToken;
  lexpr ← (if negb (isEOS nxt) then e ← parseExpr fuel; ret (Some e) else ret None);
  ret (NEXT lexpr).

Definition stmt__DIM (fuel : nat) : M Command :=
  a ← parseLexprList fuel; ret (DIM a).

Definition stmt__INPUT (fuel : nat) : M Command :=
  prompt ← consumeToken;
  promptstr ← (if TokenType_eqb (type prompt) String_ then
                 expectToken ";";; ret (stripQuotes (str prompt))
               else pushbackToken prompt;; ret "");
  a ← parseLexprList fuel;
  ret (INPUT (Literal (VStr promptstr) (Some (tloc prompt))) a).

Definition stmt__DATA (fuel : nat) : M Command :=
  d ← parseExprList fuel; ret (DATA d).

Definition stmt__READ (fuel : nat) : M Command :=
  a ← parseLexprList fuel; ret (READ a).

Definition stmt__ON (fuel : nat) : M Command :=
  e ← parseExpr fuel;
  expectToken "GOTO";;
  l ← parseLabelList fuel;
  ret (ONGOTO e l).

Definition stmt__DEF (fuel : nat) : M Command :=
  lexpr ← parseVarOrIndexed fuel;
  when (negb (JS.startsWith (name lexpr) "FN"))
       (compileError ("Functions defined with DEF must begin with the letters "
                      +:+ quoted "FN" +:+ "."));;
  expectToken "=";;
  declare (name lexpr);;
  func ← parseExpr fuel;
  ret (DEF lexpr func).

(** [parseInt] of a token: the value of its leading digits. *)
Definition parseIntToken (s : string) : option Z :=
  let '(ds, _) := JS.spanDigits s in
  if nonEmpty ds then Some (JS.digitsVal 0 ds) else None.

Definition parseOptions (optname : string) (optargs : list string) : M unit :=
  if String.eqb optname "BASE" then
    match optargs with
    | a :: _ =>
        match parseIntToken a with
        | Some b =>
            if (b =? 0) || (b =? 1)
            then modify (fun q => set_popts (set_defaultArrayBase b (popts q)) q)
            else compileError "OPTION BASE can only be 0 or 1."
        | None => compileError "OPTION BASE can only be 0 or 1."
        end
    | [] => compileError "OPTION BASE can only be 0 or 1."
    end
  else if String.eqb optname "DIALECT" then
    let dname := match optargs with a :: _ => a | [] => "" end in
    match assoc dname DIALECTS with
    | Some dialect => modify (set_popts dialect)
    | None => compileError ("The dialect named " +:+ quoted dname
                            +:+ " is not supported by this compiler.")
    end
  else compileError ("OPTION " +:+ optname +:+ " is not supported by this compiler.").

(** Consume tokens up to and including the first end-of-statement token,
    collecting the strings before it. *)
Fixpoint optionArgs (ts : list Token) (acc : list string) : M (list string) :=
  match ts with
  | [] => tok ← consumeToken; ret acc
  | _ :: r =>
      tok ← consumeToken;
      if isEOS tok then ret acc else optionArgs r (acc ++ [str tok])%list
  end.

Definition stmt__OPTION : M Command :=
  tokname ← consumeToken;
  when (negb (TokenType_eqb (type tokname) Ident))
       (compileError "There should be a name after the OPTION statement.");;
  ts ← get tokens;
  l ← optionArgs ts [];
  parseOptions (str tokname) l;;
  ret (OPTION (str tokname) l).

(** [this['stmt__' + cmd]] *)
Definition stmtFn (cmd : string) : option (nat -> M Command) :=
  assoc cmd
    [ ("LET", stmt__LET); ("PRINT", stmt__PRINT);
      ("GOTO", fun _ => stmt__GOTO); ("GOSUB", fun _ => stmt__GOSUB);
      ("IF", stmt__IF); ("FOR", stmt__FOR); ("NEXT", stmt__NEXT);
      ("DIM", stmt__DIM); ("INPUT", stmt__INPUT); ("DATA", stmt__DATA);
      ("READ", stmt__READ); ("RESTORE", fun _ => ret RESTORE);
      ("RETURN", fun _ => ret RETURN); ("STOP", fun _ => ret STOP);
      ("END", fun _ => ret END_); ("ON", stmt__ON); ("DEF", stmt__DEF);
      ("OPTION", fun _ => stmt__OPTION) ].

Definition keywordAllowed (o : BASICOptions) (cmd : string) : bool :=
  match validKeywords o with
  | Some l => existsb (String.eqb cmd) l
  | None => true
  end.

(** [while (this.consumeToken().type != TokenType.EOL) { }] *)
Fixpoint skipRemark (ts : list Token) : M unit :=
  match ts with
  | [] => consumeToken;; ret tt
  | _ :: r =>
      tok ← consumeToken;
      if TokenType_eqb (type tok) EOL then ret tt else skipRemark r
  end.

Definition located (cmdtok : Token) (c : Command) : M (option Statement) :=
  nxt ← peekToken;
  ret (Some {| command := c;
               sloc := Some {| line := line (tloc cmdtok);
                               start := start (tloc cmdtok);
                               end_ := Some (start (tloc nxt)) |} |}).

Definition parseStatement (fuel : nat) : M (option Statement) :=
  cmdtok ← consumeToken;
  match type cmdtok with
  | Remark =>
      o ← get popts;
      when (negb (tickComments o)) (dialectError "tick remarks");;
      ret None
  | Ident =>
      if String.eqb (str cmdtok) "REM" then
        ts ← get tokens; skipRemark ts;; ret None
      else
        nxt ← peekToken;
        cmd ← (if String.eqb (str cmdtok) "GO" && String.eqb (str nxt) "TO"
               then consumeToken;; ret "GOTO"
               else if String.eqb (str cmdtok) "GO" && String.eqb (str nxt) "SUB"
               then consumeToken;; ret "GOSUB"
               else ret (str cmdtok));
        match stmtFn cmd with
        | Some fn =>
            o ← get popts;
            when (negb (keywordAllowed o cmd))
                 (dialectError ("the " +:+ cmd +:+ " keyword"));;
            c ← fn fuel;
            located cmdtok c
        | None =>
            nxt' ← peekToken;
            if String.eqb (str nxt') "=" || String.eqb (str nxt') "(" then
              pushbackToken cmdtok;;
              c ← stmt__LET fuel;
              located cmdtok c
            else compileError "There should be a command here."
        end
  | _ => compileError "There should be a command here."
  end.

Definition parseCompoundStatement (fuel : nat) : M (list Statement) :=
  l ← parseList fuel (parseStatement fuel) ":" [];
  nxt ← peekToken;
  when (negb (isEOS nxt))
       (compileErrorAt "Expected end of line or ':'" (tloc nxt));;
  ret l.

(** *** Lines and files *)

(** Returns [line.label]. *)
Definition parseOptLabel : M (option string) :=
  tok ← consumeToken;
  match type tok with
  | Int =>
      lbls ← get labels;
      when (bool_decide (is_Some (lbls !! str tok)))
           (compileError ("There's a duplicated label " +:+ quoted (str tok) +:+ "."));;
      modify (fun q => set_curlabel (Some (str tok))
                         (set_labels (<[str tok := lineno q]> (labels q)) q));;
      ret (Some (str tok))
  | _ => pushbackToken tok;; ret None
  end.

Definition parse (fuel : nat) : M BASICLine :=
  ts ← get tokens;
  match ts with
  | [] => ret {| label := None; stmts := [] |}
  | _ =>
      l ← parseOptLabel;
      s ← parseCompoundStatement fuel;
      modify (set_curlabel None);;
      ret {| label := l; stmts := s |}
  end.

Definition tokenize (ln : string) : M unit :=
  modify (fun q =>
    let n := S (lineno q) in
    set_tokenized n
      (tokenizeFrom (S (String.length ln)) (uppercaseOnly (popts q)) n 0 ln)
      (eolToken n (String.length ln)) q).

(** The [try]/[catch] of [parseLine]: a [CompileError] is swallowed, the
    line comes out empty, and the parser keeps what it recorded. *)
Definition parseLine (fuel : nat) (ln : string) : M BASICLine :=
  fun q =>
    match (tokenize ln;; parse fuel) q with
    | Ok l q' => Ok l q'
    | Throw _ q' => Ok {| label := None; stmts := [] |} q'
    | OutOfFuel => OutOfFuel
    end.

Fixpoint splitLines (cur : string) (s : string) : list string :=
  match s with
  | EmptyString => [cur]
  | String c r =>
      if (nat_of_ascii c =? 10)%nat then cur :: splitLines EmptyString r
      else splitLines (cur +:+ String c EmptyString) r
  end.

Fixpoint parseLines (fuel : nat) (lns : list string) : M (list BASICLine) :=
  match lns with
  | [] => ret []
  | ln :: r =>
      l ← parseLine fuel ln;
      ls ← parseLines fuel r;
      ret (l :: ls)
  end.

(** Own property keys in [for ... in] order: array indices ascending,
    then the other keys in insertion order. *)
Definition isArrayIndex (k : string) : bool :=
  let '(ds, r) := JS.spanDigits k in
  nonEmpty ds && String.eqb r ""
  && (String.eqb k "0" || negb (JS.startsWith k "0"))
  && (JS.digitsVal 0 k <? 4294967295).

Fixpoint insertKey {A : Type} (kv : string * A) (l : list (string * A))
  : list (string * A) :=
  match l with
  | [] => [kv]
  | kv' :: r =>
      if JS.digitsVal 0 (fst kv) <? JS.digitsVal 0 (fst kv')
      then kv :: l else kv' :: insertKey kv r
  end.

Definition keyOrder {A : Type} (l : list (string * A)) : list (string * A) :=
  (foldr insertKey [] (filter (fun kv => isArrayIndex (fst kv)) l)
   ++ filter (fun kv => negb (isArrayIndex (fst kv))) l)%list.

Definition checkLabels : M unit :=
  ts ← get targets;
  lbls ← get labels;
  foldr (fun '(targ, loc) k =>
           when (bool_decide (lbls !! targ = None))
                (compileErrorAt ("There isn't a line number " +:+ targ +:+ ".") loc);;
           k)
        (ret tt) (keyOrder ts).

Definition checkAll : M unit := checkLabels.

Fixpoint generateListing (pc idx : nat) (lns : list BASICLine) : list (nat * nat) :=
  match lns with
  | [] => []
  | l :: r => (pc, S idx) :: generateListing (pc + length (stmts l)) (S idx) r
  end.

Definition parseFile (fuel : nat) (file path : string) : M BASICProgram :=
  pgmlines ← parseLines fuel (splitLines EmptyString file);
  o ← get popts;
  checkAll;;
  modify (fun q => set_listings (setKey path (generateListing 0 0 pgmlines) (listings q)) q);;
  ret {| opts := o; lines := pgmlines |}.

End Compiler.

(** ** runtime.ts *)

Module Runtime.

Import Compiler.

(** *** Generated code

    [expr2js] and the [do__X] methods return JavaScript text; the text is
    kept here as the tree it parses to. *)

Inductive JSExpr :=
| JLit (v : Value)                                (* JSON.stringify(expr.value) *)
| JLocal (name : string)                          (* NAME, a parameter of a DEF *)
| JVar (name : string)                            (* this.vars.NAME *)
| JCall (name : string) (args : list JSExpr)      (* this.defs.NAME(args) *)
| JIndex (name : string) (order : nat) (subs : list JSExpr)
                                                  (* this.getArray(name, order)[this.ROUND(sub)]... *)
| JCheck (e : JSExpr) (name : string)             (* this.checkValue(e, name) *)
| JPrim2 (op : string) (l r : JSExpr)             (* this.op(l, r) *)
| JPrim1 (op : string) (e : JSExpr).              (* this.op(e) *)

Inductive JSStmt :=
| JPrintExpr (e : JSExpr)                         (* this.printExpr(e); *)
| JAssign (lhs : JSExpr) (name : string) (rhs : JSExpr)
                                                  (* lhs = this.assign(name, rhs); *)
| JRead (lhs : JSExpr) (name : string)            (* lhs = this.assign(name, this.nextDatum()); *)
| JStartForLoop (name : string) (init targ : JSExpr) (step : option JSExpr)
| JNextForLoop (name : option string)
| JIfNot (cond : JSExpr)                          (* if (!(cond)) { this.skipToEOL(); } *)
| JDefine (name : string) (params : list string) (body : JSExpr)
| JDimArray (name : string) (dims : list JSExpr)
| JGotoLabel (l : JSExpr)
| JGosubLabel (l : JSExpr)
| JReturnFromGosub
| JOnGotoLabel (e : JSExpr) (labels : list JSExpr)
| JSkipToEOF
| JInput (prompt : JSExpr) (nargs : nat) (setvals : list (JSExpr * string)).

(** The body handed to [new Function]; the text [undefined] and the
    empty text are both the empty list. *)
Definition JSCode := list JSStmt.

(** [basic.Statement & CompiledStatement]: a statement object and its
    [$run] slot. *)
Record CompiledStatement := {
  stmt : Statement;
  run : option JSCode
}.

Record Line := {
  llabel : option string;
  lstmts : list CompiledStatement
}.

Record Program := {
  ropts : BASICOptions;
  rlines : list Line
}.

(** A program as the parser hands it over: no statement compiled yet. *)
Definition ofParser (pgm : BASICProgram) : Program :=
  {| ropts := opts pgm;
     rlines := map (fun l => {| llabel := label l;
                                lstmts := map (fun st => {| stmt := st; run := None |})
                                              (stmts l) |})
                   (lines pgm) |}.

(** An entry of [defs]: a built-in method bound to the runtime, or the
    closure a DEF statement stored. *)
Inductive Def :=
| Builtin (name : string)
| UserFn (params : list string) (body : JSExpr).

(** The variables the [next] closure of [startForLoop] captures. *)
Record ForLoop := {
  pc : Z;
  forname : string;
  targ : Value;
  fstep : Value
}.

(** A call of [this.input(prompt, nargs)] whose promise is not settled,
    with the assignments of its [then] callback. *)
Record InputRequest := {
  prompt : Value;
  nargs : nat;
  setvals : list (JSExpr * string)
}.

(** *** Runtime state

    The fields of [BASICRuntime]; [output], [pending] and [resumes]
    record the calls of the hooks [print], [input] and [resume].
    [dataptr] is [None] while it is [undefined] or [NaN]. *)
Record Runtime := {
  program : option Program;
  allstmts : list CompiledStatement;
  line2pc : list Z;
  pc2line : gmap nat nat;
  label2lineidx : gmap string nat;
  label2pc : gmap string Z;
  datums : list Value;
  curpc : Z;
  dataptr : option nat;
  vars : gmap string Value;
  defs : gmap string Def;
  forLoops : list ForLoop;
  returnStack : list Z;
  column : Z;
  running : bool;
  exited : bool;
  output : list string;
  pending : option InputRequest;
  resumes : nat
}.

Definition set_program (v : option Program) (r : Runtime) : Runtime :=
  {| program := v;
     allstmts := allstmts r;
     line2pc := line2pc r;
     pc2line := pc2line r;
     label2lineidx := label2lineidx r;
     label2pc := label2pc r;
     datums := datums r;
     curpc := curpc r;
     dataptr := dataptr r;
     vars := vars r;
     defs := defs r;
     forLoops := forLoops r;
     returnStack := returnStack r;
     column := column r;
     running := running r;
     exited := exited r;
     output := output r;
     pending := pending r;
     resumes := resumes r |}.
Definition set_allstmts (v : list CompiledStatement) (r : Runtime) : Runtime :=
  {| program := program r;
     allstmts := v;
     line2pc := line2pc r;
     pc2line := pc2line r;
     label2lineidx := label2lineidx r;
     label2pc := label2pc r;
     datums := datums r;
     curpc := curpc r;
     dataptr := dataptr r;
     vars := vars r;
     defs := defs r;
     forLoops := forLoops r;
     returnStack := returnStack r;
     column := column r;
     running := running r;
     exited := exited r;
     output := output r;
     pending := pending r;
     resumes := resumes r |}.
Definition set_line2pc (v : list Z) (r : Runtime) : Runtime :=
  {| program := program r;
     allstmts := allstmts r;
     line2pc := v;
     pc2line := pc2line r;
     label2lineidx := label2lineidx r;
     label2pc := label2pc r;
     datums := datums r;
     curpc := curpc r;
     dataptr := dataptr r;
     vars := vars r;
     defs := defs r;
     forLoops := forLoops r;
     returnStack := returnStack r;
     column := column r;
     running := running r;
     exited := exited r;
     output := output r;
     pending := pending r;
     resumes := resumes r |}.
Definition set_pc2line (v : gmap nat nat) (r : Runtime) : Runtime :=
  {| program := program r;
     allstmts := allstmts r;
     line2pc := line2pc r;
     pc2line := v;
     label2lineidx := label2lineidx r;
     label2pc := label2pc r;
     datums := datums r;
     curpc := curpc r;
     dataptr := dataptr r;
     vars := vars r;
     defs := defs r;
     forLoops := forLoops r;
     returnStack := returnStack r;
     column := column r;
     running := running r;
     exited := exited r;
     output := output r;
     pending := pending r;
     resumes := resumes r |}.
Definition set_label2lineidx (v : gmap string nat) (r : Runtime) : Runtime :=
  {| program := program r;
     allstmts := allstmts r;
     line2pc := line2pc r;
     pc2line := pc2line r;
     label2lineidx := v;
     label2pc := label2pc r;
     datums := datums r;
     curpc := curpc r;
     dataptr := dataptr r;
     vars := vars r;
     defs := defs r;
     forLoops := forLoops r;
     returnStack := returnStack r;
     column := column r;
     running := running r;
     exited := exited r;
     output := output r;
     pending := pending r;
     resumes := resumes r |}.
Definition set_label2pc (v : gmap string Z) (r : Runtime) : Runtime :=
  {| program := program r;
     allstmts := allstmts r;
     line2pc := line2pc r;
     pc2line := pc2line r;
     label2lineidx := label2lineidx r;
     label2pc := v;
     datums := datums r;
     curpc := curpc r;
     dataptr := dataptr r;
     vars := vars r;
     defs := defs r;
     forLoops := forLoops r;
     returnStack := returnStack r;
     column := column r;
     running := running r;
     exited := exited r;
     output := output r;
     pending := pending r;
     resumes := resumes r |}.
Definition set_datums (v : list Value) (r : Runtime) : Runtime :=
  {| program := program r;
     allstmts := allstmts r;
     line2pc := line2pc r;
     pc2line := pc2line r;
     label2lineidx := label2lineidx r;
     label2pc := label2pc r;
     datums := v;
     curpc := curpc r;
     dataptr := dataptr r;
     vars := vars r;
     defs := defs r;
     forLoops := forLoops r;
     returnStack := returnStack r;
     column := column r;
     running := running r;
     exited := exited r;
     output := output r;
     pending := pending r;
     resumes := resumes r |}.
Definition set_curpc (v : Z) (r : Runtime) : Runtime :=
  {| program := program r;
     allstmts := allstmts r;
     line2pc := line2pc r;
     pc2line := pc2line r;
     label2lineidx := label2lineidx r;
     label2pc := label2pc r;
     datums := datums r;
     curpc := v;
     dataptr := dataptr r;
     vars := vars r;
     defs := defs r;
     forLoops := forLoops r;
     returnStack := returnStack r;
     column := column r;
     running := running r;
     exited := exited r;
     output := output r;
     pending := pending r;
     resumes := resumes r |}.
Definition set_dataptr (v : option nat) (r : Runtime) : Runtime :=
  {| program := program r;
     allstmts := allstmts r;
     line2pc := line2pc r;
     pc2line := pc2line r;
     label2lineidx := label2lineidx r;
     label2pc := label2pc r;
     datums := datums r;
     curpc := curpc r;
     dataptr := v;
     vars := vars r;
     defs := defs r;
     forLoops := forLoops r;
     returnStack := returnStack r;
     column := column r;
     running := running r;
     exited := exited r;
     output := output r;
     pending := pending r;
     resumes := resumes r |}.
Definition set_vars (v : gmap string Value) (r : Runtime) : Runtime :=
  {| program := program r;
     allstmts := allstmts r;
     line2pc := line2pc r;
     pc2line := pc2line r;
     label2lineidx := label2lineidx r;
     label2pc := label2pc r;
     datums := datums r;
     curpc := curpc r;
     dataptr := dataptr r;
     vars := v;
     defs := defs r;
     forLoops := forLoops r;
     returnStack := returnStack r;
     column := column r;
     running := running r;
     exited := exited r;
     output := output r;
     pending := pending r;
     resumes := resumes r |}.
Definition set_defs (v : gmap string Def) (r : Runtime) : Runtime :=
  {| program := program r;
     allstmts := allstmts r;
     line2pc := line2pc r;
     pc2line := pc2line r;
     label2lineidx := label2lineidx r;
     label2pc := label2pc r;
     datums := datums r;
     curpc := curpc r;
     dataptr := dataptr r;
     vars := vars r;
     defs := v;
     forLoops := forLoops r;
     returnStack := returnStack r;
     column := column r;
     running := running r;
     exited := exited r;
     output := output r;
     pending := pending r;
     resumes := resumes r |}.
Definition set_forLoops (v : list ForLoop) (r : Runtime) : Runtime :=
  {| program := program r;
     allstmts := allstmts r;
     line2pc := line2pc r;
     pc2line := pc2line r;
     label2lineidx := label2lineidx r;
     label2pc := label2pc r;
     datums := datums r;
     curpc := curpc r;
     dataptr := dataptr r;
     vars := vars r;
     defs := defs r;
     forLoops := v;
     returnStack := returnStack r;
     column := column r;
     running := running r;
     exited := exited r;
     output := output r;
     pending := pending r;
     resumes := resumes r |}.
Definition set_returnStack (v : list Z) (r : Runtime) : Runtime :=
  {| program := program r;
     allstmts := allstmts r;
     line2pc := line2pc r;
     pc2line := pc2line r;
     label2lineidx := label2lineidx r;
     label2pc := label2pc r;
     datums := datums r;
     curpc := curpc r;
     dataptr := dataptr r;
     vars := vars r;
     defs := defs r;
     forLoops := forLoops r;
     returnStack := v;
     column := column r;
     running := running r;
     exited := exited r;
     output := output r;
     pending := pending r;
     resumes := resumes r |}.
Definition set_column (v : Z) (r : Runtime) : Runtime :=
  {| program := program r;
     allstmts := allstmts r;
     line2pc := line2pc r;
     pc2line := pc2line r;
     label2lineidx := label2lineidx r;
     label2pc := label2pc r;
     datums := datums r;
     curpc := curpc r;
     dataptr := dataptr r;
     vars := vars r;
     defs := defs r;
     forLoops := forLoops r;
     returnStack := returnStack r;
     column := v;
     running := running r;
     exited := exited r;
     output := output r;
     pending := pending r;
     resumes := resumes r |}.
Definition set_running (v : bool) (r : Runtime) : Runtime :=
  {| program := program r;
     allstmts := allstmts r;
     line2pc := line2pc r;
     pc2line := pc2line r;
     label2lineidx := label2lineidx r;
     label2pc := label2pc r;
     datums := datums r;
     curpc := curpc r;
     dataptr := dataptr r;
     vars := vars r;
     defs := defs r;
     forLoops := forLoops r;
     returnStack := returnStack r;
     column := column r;
     running := v;
     exited := exited r;
     output := output r;
     pending := pending r;
     resumes := resumes r |}.
Definition set_exited (v : bool) (r : Runtime) : Runtime :=
  {| program := program r;
     allstmts := allstmts r;
     line2pc := line2pc r;
     pc2line := pc2line r;
     label2lineidx := label2lineidx r;
     label2pc := label2pc r;
     datums := datums r;
     curpc := curpc r;
     dataptr := dataptr r;
     vars := vars r;
     defs := defs r;
     forLoops := forLoops r;
     returnStack := returnStack r;
     column := column r;
     running := running r;
     exited := v;
     output := output r;
     pending := pending r;
     resumes := resumes r |}.
Definition set_output (v : list string) (r : Runtime) : Runtime :=
  {| program := program r;
     allstmts := allstmts r;
     line2pc := line2pc r;
     pc2line := pc2line r;
     label2lineidx := label2lineidx r;
     label2pc := label2pc r;
     datums := datums r;
     curpc := curpc r;
     dataptr := dataptr r;
     vars := vars r;
     defs := defs r;
     forLoops := forLoops r;
     returnStack := returnStack r;
     column := column r;
     running := running r;
     exited := exited r;
     output := v;
     pending := pending r;
     resumes := resumes r |}.
Definition set_pending (v : option InputRequest) (r : Runtime) : Runtime :=
  {| program := program r;
     allstmts := allstmts r;
     line2pc := line2pc r;
     pc2line := pc2line r;
     label2lineidx := label2lineidx r;
     label2pc := label2pc r;
     datums := datums r;
     curpc := curpc r;
     dataptr := dataptr r;
     vars := vars r;
     defs := defs r;
     forLoops := forLoops r;
     returnStack := returnStack r;
     column := column r;
     running := running r;
     exited := exited r;
     output := output r;
     pending := v;
     resumes := resumes r |}.
Definition set_resumes (v : nat) (r : Runtime) : Runtime :=
  {| program := program r;
     allstmts := allstmts r;
     line2pc := line2pc r;
     pc2line := pc2line r;
     label2lineidx := label2lineidx r;
     label2pc := label2pc r;
     datums := datums r;
     curpc := curpc r;
     dataptr := dataptr r;
     vars := vars r;
     defs := defs r;
     forLoops := forLoops r;
     returnStack := returnStack r;
     column := column r;
     running := running r;
     exited := exited r;
     output := output r;
     pending := pending r;
     resumes := v |}.

(** *** The interpreter monad

    A method returns, or throws: [Halt] is [throw new EmuHalt(...)],
    [Crash] any other JavaScript exception; both keep the object as
    mutated so far.  [Unmodelled] marks JavaScript behaviour outside the
    embedded fragment (arrays, calls of DEF functions, some implicit
    conversions, transcendental functions). *)

Inductive Outcome (A : Type) :=
| Done (a : A) (r : Runtime)
| Halt (message : string) (r : Runtime)
| Crash (what : string) (r : Runtime)
| Unmodelled (what : string).
Arguments Done {A} a r.
Arguments Halt {A} message r.
Arguments Crash {A} what r.
Arguments Unmodelled {A} what.

Definition R (A : Type) : Type := Runtime -> Outcome A.

Definition rret {A : Type} (a : A) : R A := fun r => Done a r.

Definition rbind {A B : Type} (m : R A) (k : A -> R B) : R B :=
  fun r =>
    match m r with
    | Done a r' => k a r'
    | Halt e r' => Halt e r'
    | Crash e r' => Crash e r'
    | Unmodelled w => Unmodelled w
    end.

#[global] Instance R_ret : MRet R := @rret.
#[global] Instance R_bind : MBind R := fun A B k m => rbind m k.

Definition read {A : Type} (proj : Runtime -> A) : R A := fun r => Done (proj r) r.
Definition update (g : Runtime -> Runtime) : R unit := fun r => Done tt (g r).
Definition crash {A : Type} (what : string) : R A := fun r => Crash what r.
Definition unmodelled {A : Type} (what : string) : R A := fun _ => Unmodelled what.

Fixpoint mapR {A B : Type} (g : A -> R B) (l : list A) : R (list B) :=
  match l with
  | [] => rret []
  | a :: t => b ← g a; bs ← mapR g t; rret (b :: bs)
  end.

(** *** JavaScript operators on values *)

Definition truthy (v : Value) : bool :=
  match v with
  | VNum n => negb ((n =? 0)%float || JS.isNaN n)
  | VStr s => nonEmpty s
  | VBool b => b
  | VUndefined => false
  end.

Definition ToString (v : Value) : string :=
  match v with
  | VNum n => JS.Number_toString n
  | VStr s => s
  | VBool b => if b then "true" else "false"
  | VUndefined => "undefined"
  end.

(** [ToNumber] of a value that is not a string. *)
Definition ToNumber (v : Value) : option float :=
  match v with
  | VNum n => Some n
  | VBool b => Some (if b then 1 else 0)%float
  | VUndefined => Some nan
  | VStr _ => None
  end.

Definition isString (v : Value) : bool :=
  match v with VStr _ => true | _ => false end.
Definition isNumber (v : Value) : bool :=
  match v with VNum _ => true | _ => false end.

(** [a + b] *)
Definition jsAdd (a b : Value) : Value :=
  match ToNumber a, ToNumber b with
  | Some x, Some y => VNum (x + y)
  | _, _ => VStr (ToString a +:+ ToString b)
  end.

(** [a < b]; [None] when a string meets a non-string. *)
Definition jsLt (a b : Value) : option bool :=
  match a, b with
  | VStr x, VStr y => Some (String.ltb x y)
  | _, _ =>
      match ToNumber a, ToNumber b with
      | Some x, Some y => Some (x <? y)%float
      | _, _ => None
      end
  end.

(** [a <= b] *)
Definition jsLe (a b : Value) : option bool :=
  match a, b with
  | VStr x, VStr y => Some (negb (String.ltb y x))
  | _, _ =>
      match ToNumber a, ToNumber b with
      | Some x, Some y => Some (x <=? y)%float
      | _, _ => None
      end
  end.

(** [a == b] *)
Definition jsEq (a b : Value) : option bool :=
  match a, b with
  | VStr x, VStr y => Some (String.eqb x y)
  | VUndefined, VUndefined => Some true
  | VUndefined, _ | _, VUndefined => Some false
  | _, _ =>
      match ToNumber a, ToNumber b with
      | Some x, Some y => Some (x =? y)%float
      | _, _ => None
      end
  end.

(** The mathematical value of a finite, integral number. *)
Definition ZofSF (x : spec_float) : Z :=
  match x with
  | S754_finite s m e =>
      let a := if 0 <=? e then Zpos m * 2 ^ e else Z.shiftr (Zpos m) (- e) in
      if s then - a else a
  | _ => 0
  end.

Definition floatOfZ (z : Z) : float := SF2Prim (binary_normalize prec emax z 0 false).

Definition ToInt32 (x : float) : Z :=
  let t := ZofSF (Prim2SF x) in
  let m := Z.rem t (2 ^ 32) in
  let m := if m <? 0 then m + 2 ^ 32 else m in
  if 2 ^ 31 <=? m then m - 2 ^ 32 else m.

(** [a % b] on numbers. *)
Definition SFrem (a b : spec_float) : spec_float :=
  match a, b with
  | S754_nan, _ | _, S754_nan => S754_nan
  | S754_infinity _, _ => S754_nan
  | _, S754_zero _ => S754_nan
  | S754_zero _, _ => a
  | _, S754_infinity _ => a
  | S754_finite sa ma ea, S754_finite _ mb eb =>
      let ez := Z.min ea eb in
      let x := Zpos ma * 2 ^ (ea - ez) in
      let y := Zpos mb * 2 ^ (eb - ez) in
      match Z.rem x y with
      | Z0 => S754_zero sa
      | z => binary_normalize prec emax (if sa then - z else z) ez sa
      end
  end.

Definition jsRem (a b : float) : float := SF2Prim (SFrem (Prim2SF a) (Prim2SF b)).

(** *** Errors *)

Fixpoint getLineDown (m : gmap nat nat) (n : nat) : option nat :=
  match m !! n with
  | Some l => Some l
  | None => match n with O => None | S k => getLineDown m k end
  end.

Definition getLineForPC (r : Runtime) (pc : Z) : option nat :=
  if pc <? 0 then None else getLineDown (pc2line r) (Z.to_nat pc).

(** The label as it appears in a template string. *)
Definition getLabelForPC (r : Runtime) (pc : Z) : string :=
  match getLineForPC r pc, program r with
  | Some lineno, Some pgm =>
      match rlines pgm !! lineno with
      | Some pgmline => match llabel pgmline with Some l => l | None => "null" end
      | None => "?"
      end
  | _, _ => "?"
  end.

Definition runtimeError {A : Type} (m : string) : R A :=
  fun r =>
    let r' := set_curpc (curpc r - 1) r in
    Halt (m +:+ " (line " +:+ getLabelForPC r' (curpc r') +:+ ")") r'.

(** *** Checks and arithmetic primitives *)

Definition isValid (obj : Value) : bool :=
  match obj with
  | VNum n => negb (JS.isNaN n)
  | VStr _ => true
  | _ => false
  end.

(** [this.program.opts] *)
Definition programOpts : R BASICOptions :=
  fun r =>
    match program r with
    | Some pgm => Done (ropts pgm) r
    | None => Crash "TypeError: this.program is undefined" r
    end.

Definition checkValue (obj : Value) (exprname : string) : R Value :=
  match obj with
  | VNum _ | VStr _ => mret obj
  | VUndefined =>
      o ← programOpts;
      if defaultValues o then mret (if JS.endsWith exprname "$" then VStr "" else VNum 0)
      else runtimeError ("I didn't find a value for " +:+ exprname)
  | VBool _ =>
      runtimeError ("I got an invalid value for " +:+ exprname +:+ ": " +:+ ToString obj)
  end.

Definition checkNum (n : float) : R float :=
  if (n =? infinity)%float then runtimeError "I computed a number too big to store."
  else if JS.isNaN n then runtimeError "I computed an invalid number."
  else mret n.

Definition checkString (v : Value) : R string :=
  match v with
  | VStr s => mret s
  | _ => runtimeError "I expected a string here."
  end.

Definition numeric2 (what : string) (g : float -> float -> float) (a b : Value)
  : R Value :=
  match ToNumber a, ToNumber b with
  | Some x, Some y => n ← checkNum (g x y); mret (VNum n)
  | _, _ => unmodelled ("ToNumber of a string in " +:+ what)
  end.

Definition add (a b : Value) : R Value :=
  match a, b with
  | VNum x, VNum y => n ← checkNum (x + y); mret (VNum n)
  | _, _ => mret (jsAdd a b)
  end.

Definition sub : Value -> Value -> R Value := numeric2 "sub" PrimFloat.sub.
Definition mul : Value -> Value -> R Value := numeric2 "mul" PrimFloat.mul.

Definition div (a b : Value) : R Value :=
  match jsEq b (VNum 0) with
  | Some true => runtimeError "I can't divide by zero."
  | Some false => numeric2 "div" PrimFloat.div a b
  | None => unmodelled "comparison of a string with 0 in div"
  end.

Definition idiv (a b : Value) : R Value :=
  match ToNumber a, ToNumber b with
  | Some x, Some y => div (VNum (JS.Math_floor x)) (VNum (JS.Math_floor y))
  | _, _ => unmodelled "Math.floor of a string in idiv"
  end.

Definition mod_ : Value -> Value -> R Value := numeric2 "mod" jsRem.

Definition pow (a b : Value) : R Value :=
  match jsEq a (VNum 0), jsLt b (VNum 0) with
  | Some true, Some true => runtimeError "I can't raise zero to a negative power."
  | _, _ => unmodelled "Math.pow"
  end.

Definition land (a b : Value) : R Value := mret (if truthy a then b else a).
Definition lor (a b : Value) : R Value := mret (if truthy a then a else b).
Definition lnot (a : Value) : R Value := mret (VNum (if truthy a then 0 else 1)).

Definition neg (a : Value) : R Value :=
  match ToNumber a with
  | Some x => mret (VNum (- x))
  | None => unmodelled "ToNumber of a string in neg"
  end.

Definition bitwise (what : string) (g : Z -> Z -> Z) (a b : Value) : R Value :=
  match ToNumber a, ToNumber b with
  | Some x, Some y => mret (VNum (floatOfZ (g (ToInt32 x) (ToInt32 y))))
  | _, _ => unmodelled ("ToInt32 of a string in " +:+ what)
  end.

Definition band : Value -> Value -> R Value := bitwise "band" Z.land.
Definition bor : Value -> Value -> R Value := bitwise "bor" Z.lor.

Definition relational (what : string) (o : option bool) : R Value :=
  match o with
  | Some b => mret (VBool b)
  | None => unmodelled ("comparison of a string with a non-string in " +:+ what)
  end.

Definition eq (a b : Value) : R Value := relational "eq" (jsEq a b).
Definition ne (a b : Value) : R Value := relational "ne" (negb <$> jsEq a b).
Definition lt (a b : Value) : R Value := relational "lt" (jsLt a b).
Definition gt (a b : Value) : R Value := relational "gt" (jsLt b a).
Definition le (a b : Value) : R Value := relational "le" (jsLe a b).
Definition ge (a b : Value) : R Value := relational "ge" (jsLe b a).

(** [this[op](a, b)] and [this[op](a)] *)
Definition prim2 (op : string) : option (Value -> Value -> R Value) :=
  assoc op
    [ ("add", add); ("sub", sub); ("mul", mul); ("div", div); ("idiv", idiv);
      ("mod", mod_); ("pow", pow); ("land", land); ("lor", lor);
      ("band", band); ("bor", bor); ("eq", eq); ("ne", ne); ("lt", lt);
      ("gt", gt); ("le", le); ("ge", ge) ].

Definition prim1 (op : string) : option (Value -> R Value) :=
  assoc op [ ("lnot", lnot); ("neg", neg) ].

(** *** Number formatting and output *)

(** The [while (numstr.length > 11)] loop of [valueToString], with
    [prec] counting down; [None] is the RangeError of [toPrecision(0)]. *)
Fixpoint reducePrecision (obj : float) (numstr : string) (prec : nat) : option string :=
  if (String.length numstr <=? 11)%nat then Some numstr
  else
    match prec with
    | O => None
    | S p' =>
        match JS.Number_toPrecision obj (Z.of_nat prec) with
        | Some s' => reducePrecision obj s' p'
        | None => None
        end
    end.

Definition dropLeadingZero (numstr : string) : string :=
  if JS.startsWith numstr "0." then JS.substrFrom 1 numstr
  else if JS.startsWith numstr "-0." then "-" +:+ JS.substrFrom 2 numstr
  else numstr.

Definition padNumber (numstr : string) : string :=
  if JS.startsWith numstr "-" then numstr +:+ " " else " " +:+ numstr +:+ " ".

(** The [typeof obj === 'number'] branch of [valueToString]. *)
Definition numberToString (obj : float) : option string :=
  match reducePrecision obj (JS.toUpperCase (JS.Number_toString obj)) 11 with
  | Some numstr => Some (padNumber (dropLeadingZero numstr))
  | None => None
  end.

Definition ROUND (arg : float) : R float := checkNum (JS.Math_round arg).

Definition maxStringLength : Z := 2 ^ 29.

Definition TAB (arg : float) : R string :=
  let arg := if (arg <? 1)%float then 1%float else arg in
  n ← ROUND arg;
  col ← read column;
  let spaces := ZofSF (Prim2SF n) - 1 - col in
  if spaces <=? 0 then mret ""
  else if maxStringLength <? spaces then crash "RangeError: Invalid string length"
  else mret (JS.repeatStr " " (Z.to_nat spaces)).

Definition valueToString (obj : Value) : R string :=
  match obj with
  | VNum n =>
      match numberToString n with
      | Some s => mret s
      | None => crash "RangeError: toPrecision() argument must be between 1 and 100"
      end
  | VStr s =>
      if String.eqb s newlineChar then update (set_column 0);; mret s
      else if String.eqb s tabChar then
        col ← read column;
        TAB (floatOfZ ((col / 15 + 1) * 15))
      else mret s
  | VBool true => mret "true"
  | VBool false => unmodelled "printing false, which is loosely equal to a newline"
  | VUndefined => mret "undefined"
  end.

Definition print (s : string) : R unit :=
  update (fun r => set_output (output r ++ [s])%list r).

Definition printExpr (obj : Value) : R unit :=
  s ← valueToString obj;
  update (fun r => set_column (column r + Z.of_nat (String.length s)) r);;
  print s.

(** *** Built-in functions *)

Definition ABS (arg : float) : R float := checkNum (abs arg).
Definition FIX (arg : float) : R float := checkNum (arg - JS.Math_floor arg)%float.
Definition INT (arg : float) : R float := checkNum (JS.Math_floor arg).
Definition SGN (arg : float) : R float :=
  mret (if arg <? 0 then -1 else if 0 <? arg then 1 else 0)%float.
Definition SQR (arg : float) : R float :=
  if (arg <? 0)%float
  then runtimeError ("I can't take the square root of a negative number ("
                     +:+ JS.Number_toString arg +:+ ").")
  else checkNum (sqrt arg).
Definition STR_ (arg : float) : R string :=
  n ← checkNum arg;
  match numberToString n with
  | Some s => mret s
  | None => crash "RangeError: toPrecision() argument must be between 1 and 100"
  end.
Definition VAL (arg : Value) : R float :=
  s ← checkString arg;
  let n := JS.parseFloat s in
  mret (if JS.isNaN n then 0%float else n).

(** The method names [getBuiltinFunctions] finds on the prototype. *)
Definition builtinNames : list string :=
  [ "ABS"; "ASC"; "ATN"; "CHR$"; "COS"; "EXP"; "FIX"; "HEX$"; "INSTR"; "INT";
    "LEFT$"; "LEN"; "LOG"; "MID$"; "RIGHT$"; "RND"; "ROUND"; "SGN"; "SIN";
    "SPACE$"; "SQR"; "STR$"; "TAB"; "TAN"; "VAL" ].

Definition getBuiltinFunctions (r : Runtime) : gmap string Def :=
  let fnames :=
    match program r with
    | Some pgm =>
        match validFunctions (ropts pgm) with
        | Some l => l
        | None => builtinNames
        end
    | None => builtinNames
    end in
  list_to_map (map (fun fn => (fn, Builtin fn)) fnames).

Definition numericArg (what : string) (g : float -> R float) (args : list Value)
  : R Value :=
  match ToNumber (default VUndefined (args !! 0%nat)) with
  | Some x => n ← g x; mret (VNum n)
  | None => unmodelled ("ToNumber of a string in " +:+ what)
  end.

(** A bound built-in applied to argument values. *)
Definition callBuiltin (name : string) (args : list Value) : R Value :=
  if String.eqb name "ABS" then numericArg name ABS args
  else if String.eqb name "FIX" then numericArg name FIX args
  else if String.eqb name "INT" then numericArg name INT args
  else if String.eqb name "ROUND" then numericArg name ROUND args
  else if String.eqb name "SGN" then numericArg name SGN args
  else if String.eqb name "SQR" then numericArg name SQR args
  else if String.eqb name "VAL" then
    n ← VAL (default VUndefined (args !! 0%nat)); mret (VNum n)
  else if String.eqb name "STR$" then
    match ToNumber (default VUndefined (args !! 0%nat)) with
    | Some x => s ← STR_ x; mret (VStr s)
    | None => unmodelled "ToNumber of a string in STR$"
    end
  else if String.eqb name "TAB" then
    match ToNumber (default VUndefined (args !! 0%nat)) with
    | Some x => s ← TAB x; mret (VStr s)
    | None => unmodelled "ToNumber of a string in TAB"
    end
  else if String.eqb name "LEN" then
    match default VUndefined (args !! 0%nat) with
    | VStr s => mret (VNum (floatOfZ (Z.of_nat (String.length s))))
    | _ => unmodelled "LEN of a non-string"
    end
  else unmodelled ("the built-in " +:+ name).

(** *** Evaluation of generated expressions *)

Fixpoint eval (e : JSExpr) : R Value :=
  match e with
  | JLit v => mret v
  | JLocal _ => unmodelled "a parameter of a DEF function"
  | JVar name => vs ← read vars; mret (default VUndefined (vs !! name))
  | JCall name args =>
      ds ← read defs;
      vals ← mapR eval args;
      match ds !! name with
      | Some (Builtin b) => callBuiltin b vals
      | Some (UserFn _ _) => unmodelled "a call of a DEF function"
      | None => crash ("TypeError: this.defs." +:+ name +:+ " is not a function")
      end
  | JIndex _ _ _ => unmodelled "array subscripts"
  | JCheck e' name => v ← eval e'; checkValue v name
  | JPrim2 op l r =>
      a ← eval l;
      b ← eval r;
      match prim2 op with
      | Some g => g a b
      | None => crash ("TypeError: this." +:+ op +:+ " is not a function")
      end
  | JPrim1 op e' =>
      a ← eval e';
      match prim1 op with
      | Some g => g a
      | None => crash ("TypeError: this." +:+ op +:+ " is not a function")
      end
  end.

(** *** expr2js *)

(** A finite number after [JSON.stringify] and back: [-0] comes back as [0]. *)
Definition jsonNumber (n : float) : float := if (n =? 0)%float then 0%float else n.

(** [JSON.stringify(expr.value)], read back as a literal. *)
Definition literal (v : Value) : R JSExpr :=
  match v with
  | VNum n =>
      if JS.isFinite n then mret (JLit (VNum (jsonNumber n)))
      else unmodelled "a literal that JSON.stringify turns into null"
  | VStr _ => mret (JLit v)
  | _ => unmodelled "a literal that is neither a number nor a string"
  end.

Fixpoint expr2js (expr : Expr) (check isconst : bool) (locals : list string)
  : R JSExpr :=
  match expr with
  | Literal v _ => literal v
  | Lookup name args _ =>
      if existsb (String.eqb name) locals then mret (JLocal name)
      else
        (if isconst then runtimeError "I expected a constant value here" else mret tt);;
        ds ← read defs;
        s ← match ds !! name, args with
            | Some _, Some a =>
                l ← mapR (fun arg => expr2js arg check isconst locals) a;
                mret (JCall name l)
            | Some _, None => mret (JCall name [])
            | None, Some a =>
                l ← mapR (fun arg => expr2js arg check isconst locals) a;
                mret (JIndex name (length a) l)
            | None, None => mret (JVar name)
            end;
        mret (if check then JCheck s name else s)
  | BinOp op l r =>
      l' ← expr2js l check isconst locals;
      r' ← expr2js r check isconst locals;
      mret (JPrim2 op l' r')
  | UnOp op e =>
      e' ← expr2js e check isconst locals;
      mret (JPrim1 op e')
  end.

(** *** Program counter and control flow *)

Definition getStatement (r : Runtime) : option CompiledStatement :=
  if curpc r <? 0 then None else allstmts r !! Z.to_nat (curpc r).

(** [!this.pc2line.get(pc)]: no line starts at [pc], or line 0 does. *)
Definition noLineAt (r : Runtime) (pc : Z) : bool :=
  if pc <? 0 then true
  else match pc2line r !! Z.to_nat pc with
       | Some (S _) => false
       | _ => true
       end.

(** The [do ... while] of [skipToEOL], at most [fuel] more increments. *)
Fixpoint skipToEOLFrom (fuel : nat) (r : Runtime) (pc : Z) : Z :=
  match fuel with
  | O => pc
  | S n =>
      if (pc <? Z.of_nat (length (allstmts r))) && noLineAt r pc
      then skipToEOLFrom n r (pc + 1)
      else pc
  end.

Definition skipToEOL : R unit :=
  update (fun r =>
    set_curpc (skipToEOLFrom (Z.to_nat (Z.of_nat (length (allstmts r)) - (curpc r + 1)))
                             r (curpc r + 1)) r).

Definition skipToEOF : R unit :=
  update (fun r => set_curpc (Z.of_nat (length (allstmts r))) r).

(** A value used as a property key. *)
Definition gotoLabel (l : Value) : R unit :=
  m ← read label2pc;
  match m !! ToString l with
  | Some pc' => if 0 <=? pc' then update (set_curpc pc')
                else runtimeError ("I tried to go to the label " +:+ quoted (ToString l)
                                   +:+ " but couldn't find it.")
  | None => runtimeError ("I tried to go to the label " +:+ quoted (ToString l)
                          +:+ " but couldn't find it.")
  end.

Definition gosubLabel (l : Value) : R unit :=
  update (fun r => set_returnStack (returnStack r ++ [curpc r])%list r);;
  gotoLabel l.

Definition returnFromGosub : R unit :=
  st ← read returnStack;
  match reverse st with
  | [] => runtimeError "I tried to RETURN, but there wasn't a corresponding GOSUB."
  | pc' :: rest =>
      update (fun r => set_curpc pc' (set_returnStack (reverse rest) r))
  end.

(** *** FOR and NEXT *)

Definition startForLoop (name : string) (init target : Value) (step : option Value)
  : R unit :=
  p ← read curpc;
  let st := match step with
            | Some v => if truthy v then v else VNum 1
            | None => VNum 1
            end in
  update (fun r =>
    set_forLoops ({| pc := p; forname := name; targ := target; fstep := st |}
                  :: forLoops r)
                 (set_vars (<[name := init]> (vars r)) r)).

(** The closure [next] of the loop [fl]. *)
Definition next (fl : ForLoop) (nextname : option string) : R unit :=
  (match nextname with
   | Some nm =>
       if nonEmpty nm && negb (String.eqb (forname fl) nm)
       then runtimeError ("I executed NEXT " +:+ quoted nm
                          +:+ ", but the last FOR was for " +:+ quoted (forname fl)
                          +:+ ".")
       else mret tt
   | None => mret tt
   end);;
  vs ← read vars;
  let v := jsAdd (default VUndefined (vs !! forname fl)) (fstep fl) in
  update (fun r => set_vars (<[forname fl := v]> (vars r)) r);;
  match (match jsLe (VNum 0) (fstep fl) with
         | Some true => jsLt (targ fl) v
         | Some false => jsLt v (targ fl)
         | None => None
         end) with
  | Some true => update (fun r => set_forLoops (tail (forLoops r)) r)
  | Some false => update (set_curpc (pc fl))
  | None => unmodelled "comparison of a string with a non-string in NEXT"
  end.

Definition nextForLoop (name : option string) : R unit :=
  fls ← read forLoops;
  match fls with
  | [] => runtimeError "I couldn't find a FOR for this NEXT."
  | fl :: _ => next fl name
  end.

(** *** Assignment *)

Definition convert (name : string) (right : Value) : Value :=
  if JS.endsWith name "$" then VStr (ToString right)
  else match right with
       | VNum _ => right
       | _ => VNum (JS.parseFloat (ToString right))
       end.

Definition convertToString (right : Value) : R Value :=
  match right with
  | VStr _ => mret right
  | _ => runtimeError ("I can't convert " +:+ ToString right +:+ " to a string.")
  end.

Definition convertToNumber (right : Value) : R Value :=
  match right with
  | VNum n => n' ← checkNum n; mret (VNum n')
  | _ => runtimeError ("I can't convert " +:+ ToString right +:+ " to a number.")
  end.

Definition assign (name : string) (right : Value) : R Value :=
  o ← programOpts;
  if typeConvert o then mret (convert name right)
  else if JS.endsWith name "$" then convertToString right
  else convertToNumber right.

(** [lhs = v] for the left-hand sides [expr2js] produces. *)
Definition store (lhs : JSExpr) (v : Value) : R unit :=
  match lhs with
  | JVar name => update (fun r => set_vars (<[name := v]> (vars r)) r)
  | JIndex _ _ _ => unmodelled "array subscripts"
  | _ => unmodelled "assignment to a call"
  end.

Definition onGotoLabel (value : Value) (labels : list Value) : R unit :=
  match ToNumber value with
  | Some x =>
      n ← ROUND x;
      let i := ZofSF (Prim2SF n) in
      if (i <? 1) || (Z.of_nat (length labels) <? i)
      then runtimeError ("I needed a number between 1 and "
                         +:+ JS.decZ (Z.of_nat (length labels))
                         +:+ ", but I got " +:+ JS.Number_toString n +:+ ".")
      else gotoLabel (default VUndefined (labels !! Z.to_nat (i - 1)))
  | None => unmodelled "ToNumber of a string in ON GOTO"
  end.

Definition nextDatum : R Value :=
  dp ← read dataptr;
  ds ← read datums;
  match dp with
  | Some i =>
      (if (length ds <=? i)%nat
       then runtimeError "I tried to READ, but ran out of data."
       else mret tt);;
      update (set_dataptr (Some (S i)));;
      mret (default VUndefined (ds !! i))
  | None => crash "TypeError: this.datums[this.dataptr++] is undefined"
  end.

(** *** Statements: the [do__X] methods *)

Definition do__PRINT (args : list Expr) : R JSCode :=
  mapR (fun arg => e ← expr2js arg true false []; mret (JPrintExpr e)) args.

Definition do__INPUT (prompt : Expr) (args : list IndOp) : R JSCode :=
  pr ← expr2js prompt true false [];
  sv ← mapR (fun arg => lexpr ← expr2js (exprOfIndOp arg) false false [];
                        mret (lexpr, name arg)) args;
  mret [JInput pr (length args) sv].

Definition do__LET (lexpr : IndOp) (right : Expr) : R JSCode :=
  l ← expr2js (exprOfIndOp lexpr) false false [];
  e ← expr2js right true false [];
  mret [JAssign l (name lexpr) e].

Definition do__FOR (lexpr : IndOp) (initial target : Expr) (step : option Expr)
  : R JSCode :=
  init ← expr2js initial true false [];
  tg ← expr2js target true false [];
  st ← match step with
       | Some e => e' ← expr2js e true false []; mret (Some e')
       | None => mret None
       end;
  mret [JStartForLoop (name lexpr) init tg st].

Definition do__NEXT (lexpr : option Expr) : R JSCode :=
  mret [JNextForLoop match lexpr with
                     | Some (Lookup nm _ _) => Some nm
                     | _ => None
                     end].

Definition do__IF (cond : Expr) : R JSCode :=
  c ← expr2js cond true false [];
  mret [JIfNot c].

Definition do__DEF (lexpr : IndOp) (def : Expr) : R JSCode :=
  ps ← mapR (fun arg =>
               match arg with
               | Lookup nm _ _ => mret nm
               | _ => runtimeError
                        "I found a DEF statement with arguments other than variable names."
               end)
            (default [] (args lexpr));
  body ← expr2js def true false ps;
  mret [JDefine (name lexpr) ps body].

Definition _DIM (dim : IndOp) : R JSStmt :=
  match args dim with
  | Some a =>
      l ← mapR (fun arg => expr2js arg true false []) a;
      mret (JDimArray (name dim) l)
  | None => crash "TypeError: dim.args is not iterable"
  end.

Definition do__DIM (args : list IndOp) : R JSCode := mapR _DIM args.

Definition do__GOTO (l : Expr) : R JSCode :=
  e ← expr2js l true false []; mret [JGotoLabel e].

Definition do__GOSUB (l : Expr) : R JSCode :=
  e ← expr2js l true false []; mret [JGosubLabel e].

Definition do__RETURN : R JSCode := mret [JReturnFromGosub].

Definition do__ONGOTO (e : Expr) (labels : list Expr) : R JSCode :=
  e' ← expr2js e true false [];
  ls ← mapR (fun arg => expr2js arg true false []) labels;
  mret [JOnGotoLabel e' ls].

(** data is preprocessed *)
Definition do__DATA : R JSCode := mret [].

Definition do__READ (args : list IndOp) : R JSCode :=
  mapR (fun arg => l ← expr2js (exprOfIndOp arg) false false [];
                   mret (JRead l (name arg))) args.

(** Sets [dataptr] when called, and returns no text. *)
Definition do__RESTORE : R JSCode :=
  update (set_dataptr (Some 0%nat));;
  mret [].

Definition do__END : R JSCode := mret [JSkipToEOF].
Definition do__STOP : R JSCode := mret [JSkipToEOF].

(** already parsed in compiler *)
Definition do__OPTION : R JSCode := mret [].

(** [this['do__' + stmt.command]] applied to the statement; [None] when
    there is no such method. *)
Definition stmtfn (c : Command) : option (R JSCode) :=
  match c with
  | PRINT a => Some (do__PRINT a)
  | LET l e => Some (do__LET l e)
  | GOTO l => Some (do__GOTO l)
  | GOSUB l => Some (do__GOSUB l)
  | RETURN => Some do__RETURN
  | IF c => Some (do__IF c)
  | FOR l i t s => Some (do__FOR l i t s)
  | NEXT l => Some (do__NEXT l)
  | DIM a => Some (do__DIM a)
  | INPUT pr a => Some (do__INPUT pr a)
  | READ a => Some (do__READ a)
  | DEF l d => Some (do__DEF l d)
  | ONGOTO e l => Some (do__ONGOTO e l)
  | DATA _ => Some do__DATA
  | OPTION _ _ => Some do__OPTION
  | RESTORE => Some do__RESTORE
  | STOP => Some do__STOP
  | END_ => Some do__END
  | Other _ => None
  end.

Definition commandName (c : Command) : string :=
  match c with
  | PRINT _ => "PRINT" | LET _ _ => "LET" | GOTO _ => "GOTO" | GOSUB _ => "GOSUB"
  | RETURN => "RETURN" | IF _ => "IF" | FOR _ _ _ _ => "FOR" | NEXT _ => "NEXT"
  | DIM _ => "DIM" | INPUT _ _ => "INPUT" | READ _ => "READ" | DEF _ _ => "DEF"
  | ONGOTO _ _ => "ONGOTO" | DATA _ => "DATA" | OPTION _ _ => "OPTION"
  | RESTORE => "RESTORE" | STOP => "STOP" | END_ => "END" | Other c' => c'
  end.

(** *** Running generated code *)

(** The [then] callback is modelled by [resolveInput] below; here the
    statement only suspends the run and leaves the request pending. *)
Definition execStmt (c : JSStmt) : R unit :=
  match c with
  | JPrintExpr e => v ← eval e; printExpr v
  | JAssign lhs nm rhs => v ← eval rhs; v' ← assign nm v; store lhs v'
  | JRead lhs nm => v ← nextDatum; v' ← assign nm v; store lhs v'
  | JStartForLoop nm init tg st =>
      i ← eval init;
      t ← eval tg;
      s ← match st with
          | Some e => v ← eval e; mret (Some v)
          | None => mret None
          end;
      startForLoop nm i t s
  | JNextForLoop nm => nextForLoop nm
  | JIfNot cond => v ← eval cond; if truthy v then mret tt else skipToEOL
  | JDefine nm ps body =>
      update (fun r => set_defs (<[nm := UserFn ps body]> (defs r)) r)
  | JDimArray _ _ => unmodelled "arrays"
  | JGotoLabel l => v ← eval l; gotoLabel v
  | JGosubLabel l => v ← eval l; gosubLabel v
  | JReturnFromGosub => returnFromGosub
  | JOnGotoLabel e ls => v ← eval e; vs ← mapR eval ls; onGotoLabel v vs
  | JSkipToEOF => skipToEOF
  | JInput pr n sv =>
      update (set_running false);;
      v ← eval pr;
      update (set_pending (Some {| prompt := v; nargs := n; setvals := sv |}))
  end.

Fixpoint exec (code : JSCode) : R unit :=
  match code with
  | [] => mret tt
  | c :: rest => execStmt c;; exec rest
  end.

(** *** step *)

(** [stmt.$run = ...] on the statement object at index [i]. *)
Definition setRun (i : nat) (code : JSCode) : R unit :=
  update (fun r =>
    set_allstmts (alter (fun st => {| stmt := stmt st; run := Some code |}) i (allstmts r)) r).

Definition compileStatement (i : nat) (st : CompiledStatement) : R JSCode :=
  match run st with
  | Some code => mret code
  | None =>
      match stmtfn (command (stmt st)) with
      | None => runtimeError ("I don't know how to "
                              +:+ quoted (commandName (command (stmt st))) +:+ ".")
      | Some g => code ← g; setRun i code;; mret code
      end
  end.

Definition executeStatement (code : JSCode) : R unit := exec code.

Definition step : R bool :=
  fun r =>
    if negb (running r) then Done false r
    else
      match getStatement r with
      | None => Done false (set_exited true (set_running false r))
      | Some st =>
          (update (fun r' => set_curpc (curpc r' + 1) r');;
           code ← compileStatement (Z.to_nat (curpc r)) st;
           executeStatement code;;
           read running) r
      end.

(** *** INPUT: the [then] callback

    [resolveInput vals] is the promise of the pending [input()] call
    being fulfilled with [vals]; a missing element is [undefined]. *)

Fixpoint setInputs (sv : list (JSExpr * string)) (vals : list string) (index : nat)
  (valid : bool) : R bool :=
  match sv with
  | [] => mret valid
  | (lexpr, nm) :: rest =>
      let raw := match vals !! index with
                 | Some s => VStr s
                 | None => VUndefined
                 end in
      let v := convert nm raw in
      store lexpr v;;
      setInputs rest vals (S index) (valid && isValid v)
  end.

Definition resume : R unit := update (fun r => set_resumes (S (resumes r)) r).

Definition resolveInput (vals : list string) : R unit :=
  pd ← read pending;
  match pd with
  | None => mret tt
  | Some req =>
      update (set_pending None);;
      valid ← setInputs (setvals req) vals 0 true;
      (if valid : bool then mret tt
       else update (fun r => set_curpc (curpc r - 1) r));;
      update (set_running true);;
      resume
  end.

(** *** load and reset *)

(** A runtime object before [load] and [reset]. *)
Definition newRuntime : Runtime := {|
  program := None;
  allstmts := [];
  line2pc := [];
  pc2line := ∅;
  label2lineidx := ∅;
  label2pc := ∅;
  datums := [];
  curpc := 0;
  dataptr := None;
  vars := ∅;
  defs := ∅;
  forLoops := [];
  returnStack := [];
  column := 0;
  running := false;
  exited := true;
  output := [];
  pending := None;
  resumes := 0
|}.

Definition dataOf (st : CompiledStatement) : list Expr :=
  match command (stmt st) with
  | DATA d => d
  | _ => []
  end.

(** The body of [program.lines.forEach((line, idx) => ...)]. *)
Definition loadLine (ln : Line) (idx : nat) : R unit :=
  update (fun r =>
    let n := length (allstmts r) in
    let r := set_curpc (Z.of_nat n + 1) r in
    let r := match llabel ln with
             | Some l => set_label2pc (<[l := Z.of_nat n]> (label2pc r))
                           (set_label2lineidx (<[l := idx]> (label2lineidx r)) r)
             | None => r
             end in
    let r := set_line2pc (line2pc r ++ [Z.of_nat n])%list r in
    let r := set_pc2line (<[n := idx]> (pc2line r)) r in
    set_allstmts (allstmts r ++ lstmts ln)%list r);;
  mapR (fun d =>
          functext ← expr2js d true true [];
          value ← eval functext;
          update (fun r => set_datums (datums r ++ [value])%list r))
       (concat (map dataOf (lstmts ln)));;
  mret tt.

Fixpoint loadLines (lns : list Line) (idx : nat) : R unit :=
  match lns with
  | [] => mret tt
  | ln :: rest => loadLine ln idx;; loadLines rest (S idx)
  end.

Definition load (pgm : Program) : R unit :=
  fun r =>
    let prevlabel :=
      match program r with
      | Some _ => getLabelForPC r (curpc r)
      | None => "undefined"
      end in
    let r := set_program (Some pgm) r in
    let r := set_label2lineidx ∅ r in
    let r := set_label2pc ∅ r in
    let r := set_allstmts [] r in
    let r := set_line2pc [] r in
    let r := set_pc2line ∅ r in
    let r := set_datums [] r in
    (loadLines (rlines pgm) 0;;
     update (fun r' =>
       set_dataptr (match dataptr r' with
                    | Some d => Some (Nat.min d (length (datums r')))
                    | None => None
                    end)
         (set_curpc (default 0 (label2pc r' !! prevlabel)) r'))) r.

Definition reset : R unit :=
  update (fun r =>
    set_curpc 0
      (set_dataptr (Some 0%nat)
        (set_vars ∅
          (set_defs (getBuiltinFunctions r)
            (set_forLoops []
              (set_returnStack []
                (set_column 0
                  (set_running true
                    (set_exited false r))))))))).

(** *** Driving a run *)

(** Parse [file], load it into a fresh runtime and reset it. *)
Definition boot (fuel : nat) (file : string) : option Runtime :=
  match parseFile fuel file "main.bas" newParser with
  | Ok pgm _ =>
      match (load (ofParser pgm);; reset) newRuntime with
      | Done _ r => Some r
      | _ => None
      end
  | _ => None
  end.

(** Call [step] until it returns [false] or throws, at most [n] times. *)
Fixpoint steps (n : nat) (r : Runtime) : Outcome bool :=
  match n with
  | O => Done true r
  | S k =>
      match step r with
      | Done true r' => steps k r'
      | o => o
      end
  end.

End Runtime.

(** * Properties

    Definitions used to state the properties, then the lemmas shared by
    several proofs, then one theorem per claim. *)

Import Compiler Runtime.

Definition nl : string := String (ascii_of_nat 10) EmptyString.

(** The file whose lines are [l]. *)
Fixpoint unlines (l : list string) : string :=
  match l with
  | [] => EmptyString
  | [s] => s
  | s :: r => s +:+ nl +:+ unlines r
  end.

(** The recursion budget given to the parser in the examples. *)
Definition budget : nat := 64.

(** The code in a statement's [$run] slot was produced by compiling that
    statement, in some state. *)
Definition compiledFrom (st : CompiledStatement) (code : JSCode) : Prop :=
  exists g r0 r1, stmtfn (command (stmt st)) = Some g /\ g r0 = Done code r1.

Definition cacheSound (st : CompiledStatement) : Prop :=
  forall code, run st = Some code -> compiledFrom st code.

(** The state after [n] calls of [step] that all returned [true]. *)
Definition afterSteps (n : nat) (r : Runtime) : option Runtime :=
  match steps n r with
  | Done true r' => Some r'
  | _ => None
  end.

(** For each statement a run executes, the program counter it was
    fetched at and the value of variable [x] at that moment. *)
Fixpoint trace (n : nat) (x : string) (r : Runtime) : list (Z * option Value) :=
  match n with
  | O => []
  | S k =>
      if running r then
        match getStatement r with
        | Some _ =>
            (curpc r, vars r !! x)
            :: match step r with
               | Done _ r' => trace k x r'
               | _ => []
               end
        | None => []
        end
      else []
  end.

(** Source locations erased, to compare the shape of two trees. *)
Fixpoint shape (e : Expr) : Expr :=
  match e with
  | Literal v _ => Literal v None
  | Lookup n a _ => Lookup n (option_map (map shape) a) None
  | BinOp o l r => BinOp o (shape l) (shape r)
  | UnOp o e' => UnOp o (shape e')
  end.

(** [parseExpr] on the tokens of [s]. *)
Definition parseExprOf (fuel : nat) (s : string) : Result Expr :=
  (tokenize s;; parseExpr fuel) newParser.

Definition num (n : float) : Expr := Literal (VNum n) None.

Definition isOperand (tok : Token) : bool :=
  match type tok with
  | Ident => negb (String.eqb (str tok) "NOT")
  | Int | Float1 | Float2 =>
      negb (JS.isNaN (JS.parseFloat (str tok))) && JS.isFinite (JS.parseFloat (str tok))
  | _ => false
  end.

Definition operandExpr (tok : Token) : Expr :=
  match type tok with
  | Ident => Lookup (str tok) None (Some (tloc tok))
  | _ => Literal (VNum (JS.parseFloat (str tok))) (Some (tloc tok))
  end.

Definition chainTokens (rest : list (Token * Token)) : list Token :=
  flat_map (fun oa => [fst oa; snd oa]) rest.

Definition foldLeft (left : Expr) (rest : list (Token * Token)) : Expr :=
  fold_left (fun l oa => BinOp (opName (str (fst oa))) l (operandExpr (snd oa))) rest left.

Definition tieAt (o : BASICOptions) (p : Z) (oa : Token * Token) : bool :=
  (getPrecedence (fst oa) =? p) && operatorAllowed o (str (fst oa)) && isOperand (snd oa).

Definition nextNotParen (q : Parser) (rest : list Token) : Prop :=
  match rest with
  | t :: _ => str t <> "("
  | [] => str (eol q) <> "("
  end.

Definition tok (ty : TokenType) (s : string) (a b : nat) : Token :=
  {| str := s; type := ty; tloc := {| line := 1; start := a; end_ := Some b |} |}.

Definition q0 : Parser :=
  match tokenize "2^3^2" newParser with Ok _ q => q | _ => newParser end.

Definition sameLabels {A : Type} (m : M A) : Prop :=
  forall q, match m q with
            | Ok _ q' | Throw _ q' => labels q' = labels q
            | OutOfFuel => True
            end.

(** The label token a line starts with, as [tokenize] sees it in state [q]. *)
Definition labelToken (q : Parser) (ln : string) : option string :=
  match tokenizeFrom (S (String.length ln)) (uppercaseOnly (popts q)) (S (lineno q)) 0 ln with
  | t :: _ => if TokenType_eqb (type t) Int then Some (str t) else None
  | [] => None
  end.

Definition emptyLine : BASICLine := {| label := None; stmts := [] |}.

Definition duplicateError (n : nat) (l : string) : WorkerError :=
  {| eline := n; msg := "There's a duplicated label " +:+ quoted l +:+ "." |}.

Definition stable (P : Runtime -> Runtime -> Prop) {A : Type} (m : R A) : Prop :=
  forall r, match m r with
            | Done _ r' | Halt _ r' | Crash _ r' => P r r'
            | Unmodelled _ => True
            end.

(** A relation that holds across every field update a statement makes,
    except those of [allstmts] and [running]. *)
Record Frame (P : Runtime -> Runtime -> Prop) : Prop := {
  f_refl : forall r, P r r;
  f_trans : forall a b c, P a b -> P b c -> P a c;
  f_curpc : forall r v, P r (set_curpc v r);
  f_dataptr : forall r v, P r (set_dataptr v r);
  f_vars : forall r v, P r (set_vars v r);
  f_defs : forall r v, P r (set_defs v r);
  f_forLoops : forall r v, P r (set_forLoops v r);
  f_returnStack : forall r v, P r (set_returnStack v r);
  f_column : forall r v, P r (set_column v r);
  f_output : forall r v, P r (set_output v r);
  f_pending : forall r v, P r (set_pending v r)
}.

(** Does the code issue an input request? *)
Definition isInput (c : JSStmt) : bool :=
  match c with
  | JInput _ _ _ => true
  | _ => false
  end.

(** The relations used below. *)
Definition keepsCode (r r' : Runtime) : Prop := allstmts r' = allstmts r.
Definition keepsRunning (r r' : Runtime) : Prop :=
  allstmts r' = allstmts r /\ running r' = running r.
Definition staysSuspended (r r' : Runtime) : Prop :=
  allstmts r' = allstmts r /\ (running r = false -> running r' = false).

Definition hasInput (code : JSCode) : bool := existsb isInput code.

Definition isINPUT (c : Command) : bool :=
  match c with
  | INPUT _ _ => true
  | _ => false
  end.


(** ** Example programs *)

(** The runtime as [boot] leaves it for [file]; the fresh runtime if the
    file does not load. *)
Definition booted (file : string) : Runtime := default newRuntime (boot budget file).

(** The state after [n] steps of [file], whatever the steps returned. *)
Definition ran (n : nat) (file : string) : option Runtime :=
  match steps n (booted file) with
  | Done _ r => Some r
  | _ => None
  end.

Definition restoreProgram : string :=
  unlines [ "10 DATA 1,2,3";
            "20 READ X";
            "30 RESTORE";
            "40 READ Y";
            "50 IF X<2 THEN 20" ].

Definition inputProgram : string := "10 INPUT A".

Definition countingProgram : string := "10 FOR I=1 TO 3 : PRINT I : NEXT I".

Definition passedProgram : string := "10 FOR I=5 TO 1 : PRINT I : NEXT I".

Definition gosubProgram : string := unlines [ "10 FOOBAR"; "20 GOSUB 10" ].

Definition duplicateProgram : string :=
  unlines [ "10 PRINT 1"; "10 PRINT 2"; "20 PRINT 3" ].

(** The code [do__INPUT] generates for a literal prompt and plain variables. *)
Definition inputCode (p : string) (args : list IndOp) : JSCode :=
  [JInput (JLit (VStr p)) (length args) (map (fun a => (JVar (name a), name a)) args)].

(** The test NEXT makes on the new value [w] of the loop variable. *)
Definition passed (s t w : float) : bool :=
  if (0 <=? s)%float then (t <? w)%float else (w <? t)%float.

(** The step a FOR statement records. *)
Definition stepOrOne (s : option float) : float :=
  match s with
  | Some x => if (x =? 0)%float || JS.isNaN x then 1%float else x
  | None => 1%float
  end.

(** The state after [n] steps of [file]; the fresh runtime if a step threw. *)
Definition stateAfter (n : nat) (file : string) : Runtime :=
  default newRuntime (ran n file).

(** ** INPUT *)

(** Element [i] of the array an input request is resolved with. *)
Definition rawInput (vals : list string) (i : nat) : Value :=
  match vals !! i with
  | Some s => VStr s
  | None => VUndefined
  end.

(** Are all the values, coerced to their variables, valid? *)
Fixpoint inputsValid (args : list IndOp) (vals : list string) (index : nat) : bool :=
  match args with
  | [] => true
  | a :: rest =>
      isValid (convert (name a) (rawInput vals index)) && inputsValid rest vals (S index)
  end.

(** The request an INPUT statement with prompt [p] leaves pending. *)
Definition inputRequest (p : string) (args : list IndOp) : InputRequest :=
  {| prompt := VStr p; nargs := length args;
     setvals := map (fun a => (JVar (name a), name a)) args |}.

(** The argument is a plain variable, not an array element or a function. *)
Definition plainVariable (r : Runtime) (a : IndOp) : Prop :=
  args a = None /\ defs r !! name a = None.

(** What resolving an input request leaves alone. *)
Definition sameButVars (r r' : Runtime) : Prop :=
  curpc r' = curpc r /\ allstmts r' = allstmts r /\ running r' = running r
  /\ pending r' = pending r /\ resumes r' = resumes r /\ defs r' = defs r
  /\ program r' = program r.

(** The tree a parse returned, locations erased. *)
Definition shapeOf (res : Result Expr) : option Expr :=
  match res with
  | Ok e _ => Some (shape e)
  | _ => None
  end.


(** The parser after the lines [lns]. *)
Definition parserAfter (lns : list string) : Parser :=
  match parseLines budget lns newParser with
  | Ok _ q => q
  | _ => newParser
  end.

(** ** Binary64 *)

(** A zero or a finite number of sign [s]. *)
Definition zeroOrFinite (s : bool) (x : spec_float) : Prop :=
  match x with
  | S754_zero s' | S754_finite s' _ _ => s' = s
  | _ => False
  end.

(** What [parseLine] returns for [ln] as the first line of a program. *)
Definition firstLine (ln : string) : BASICLine :=
  match parseLine budget ln newParser with
  | Ok l _ => l
  | _ => emptyLine
  end.

(** ** Further definitions *)

Definition jumpProgram : string := unlines [ "10 PRINT 1"; "20 GOTO 10" ].

Definition subroutineProgram : string :=
  unlines [ "10 GOSUB 30"; "20 END"; "30 RETURN" ].

Definition returnProgram : string := "10 RETURN".

Definition dataProgram : string :=
  unlines [ "10 DATA 7,8"; "20 READ A,B"; "30 READ C" ].

(** The code [do__READ] generates for plain variables. *)
Definition readCode (xs : list IndOp) : JSCode :=
  map (fun a => JRead (JVar (name a)) (name a)) xs.

(** A number [checkNum] accepts. *)
Definition storable (n : float) : bool :=
  negb (n =? infinity)%float && negb (JS.isNaN n).

(** The variables after the values [ns] are stored in [xs], in order. *)
Fixpoint storeAll (xs : list IndOp) (ns : list float) (vs : gmap string Value)
  : gmap string Value :=
  match xs, ns with
  | a :: xs', n :: ns' => storeAll xs' ns' (<[name a := VNum n]> vs)
  | _, _ => vs
  end.

(** The binary operators that compute a number. *)
Definition arithmetic : list (string * (Value -> Value -> R Value)) :=
  [ ("add", add); ("sub", sub); ("mul", mul); ("div", div); ("idiv", idiv);
    ("mod", mod_) ].

Definition letProgram : string :=
  unlines [ "10 LET A=5"; "20 LET B$=5"; "30 PRINT Z" ].

(** The literal [v] as [expr2js] writes it. *)
Definition literalValue (v : Value) : Value :=
  match v with
  | VNum n => VNum (jsonNumber n)
  | _ => v
  end.

(** A literal the parser can produce: a finite number or a string. *)
Definition parsedLiteral (v : Value) : bool :=
  match v with
  | VNum n => JS.isFinite n
  | VStr _ => true
  | _ => false
  end.

(** The code [do__LET] generates for a plain variable and a literal. *)
Definition letCode (x : IndOp) (v : Value) : JSCode :=
  [JAssign (JVar (name x)) (name x) (JLit (literalValue v))].

Definition branchProgram : string :=
  unlines [ "10 IF 0 THEN PRINT 1 : PRINT 2"; "20 PRINT 3"; "30 END"; "40 PRINT 4" ].

(** Is the command END or STOP? *)
Definition isEndOrStop (c : Command) : bool :=
  match c with
  | END_ | STOP => true
  | _ => false
  end.

(** What loading the data of a line leaves alone. *)
Definition keepsIndex (r r' : Runtime) : Prop :=
  allstmts r' = allstmts r /\ label2pc r' = label2pc r /\ program r' = program r.

(** The label table after the lines [lns], the first of them starting at
    statement [n]. *)
Fixpoint labelTable (n : nat) (lns : list Line) (m : gmap string Z) : gmap string Z :=
  match lns with
  | [] => m
  | ln :: rest =>
      labelTable (n + length (lstmts ln)) rest
        match llabel ln with
        | Some l => <[l := Z.of_nat n]> m
        | None => m
        end
  end.

(** All the statements of the lines, in order. *)
Definition flatten (lns : list Line) : list CompiledStatement :=
  concat (map lstmts lns).

(** The program the parser hands over for [file]; no line if the parser
    runs out of budget. *)
Definition programOf (file : string) : Program :=
  match parseFile budget file "main.bas" newParser with
  | Ok pgm _ => ofParser pgm
  | _ => {| ropts := popts newParser; rlines := [] |}
  end.

(** An operator the dialect allows, of precedence [p]. *)
Definition operatorAt (o : BASICOptions) (p : Z) (t : Token) : bool :=
  (getPrecedence t =? p) && operatorAllowed o (str t).

(** The state after [tokenize s] in a fresh parser. *)
Definition tokenized (s : string) : Parser :=
  match tokenize s newParser with
  | Ok _ q => q
  | _ => newParser
  end.

Definition danglingProgram : string := unlines [ "10 GOTO 30"; "20 END" ].

(** The error [checkLabels] records for the target [targ]. *)
Definition missingLine (targ : string) (loc : SourceLocation) : WorkerError :=
  {| eline := line loc; msg := "There isn't a line number " +:+ targ +:+ "." |}.

(** ** Relations the parser keeps *)

(** [m] relates the state before to the state after by [Rok] when it
    returns and by [Rthrow] when it throws. *)
Definition obeys (Rok Rthrow : Parser -> Parser -> Prop) {A : Type} (m : M A) : Prop :=
  forall q, match m q with
            | Ok _ q' => Rok q q'
            | Throw _ q' => Rthrow q q'
            | OutOfFuel => True
            end.

(** [Rok] holds across every field update the parser makes while it
    parses a line, and [Rthrow] across the recording of an error. *)
Record ParserFrame (Rok Rthrow : Parser -> Parser -> Prop) : Prop := {
  pf_refl : forall q, Rok q q;
  pf_trans : forall a b c, Rok a b -> Rok b c -> Rok a c;
  pf_throw : forall a b c, Rok a b -> Rthrow b c -> Rthrow a c;
  pf_error : forall q e, Rthrow q (set_errors (errors q ++ [e])%list q);
  pf_tokens : forall q v, Rok q (set_tokens v q);
  pf_lasttoken : forall q v, Rok q (set_lasttoken v q);
  pf_targets : forall q v, Rok q (set_targets v q);
  pf_decls : forall q v, Rok q (set_decls v q);
  pf_refs : forall q v, Rok q (set_refs v q);
  pf_popts : forall q v, Rok q (set_popts v q);
  pf_curlabel : forall q v, Rok q (set_curlabel v q);
  pf_labels : forall q v, Rok q (set_labels v q)
}.

(** No error is recorded on return, and exactly one when an error is thrown. *)
Definition sameErrors (q q' : Parser) : Prop :=
  errors q' = errors q /\ lineno q' = lineno q.
Definition oneError (q q' : Parser) : Prop :=
  (exists e, errors q' = (errors q ++ [e])%list) /\ lineno q' = lineno q.

Definition brokenProgram : string :=
  unlines [ "10 PRINT 1"; "20 FOOBAR"; "30 PRINT 3" ].

Definition strayNextProgram : string := "10 NEXT I".

Definition crossedProgram : string := "10 FOR I=1 TO 2 : NEXT J".

(** The expressions of the DATA statements of the lines, in order. *)
Definition dataOfLines (lns : list Line) : list Expr :=
  concat (map (fun ln => concat (map dataOf (lstmts ln))) lns).

(** A DATA item that is a literal the parser can produce. *)
Definition isLiteral (d : Expr) : bool :=
  match d with
  | Literal v _ => parsedLiteral v
  | _ => false
  end.

(** The datum [v] is the value of the DATA item [d]: for a literal, the
    literal as [expr2js] writes it. *)
Definition dataValue (d : Expr) (v : Value) : Prop :=
  forall lit loc, d = Literal lit loc -> v = literalValue lit.

(** What evaluating a DATA item leaves alone. *)
Definition keepsTables (r r' : Runtime) : Prop :=
  allstmts r' = allstmts r /\ pc2line r' = pc2line r /\ program r' = program r
  /\ datums r' = datums r.

(** [pc2line] after the lines [lns], the first of them being line [idx]
    and starting at statement [n]. *)
Fixpoint lineTable (n idx : nat) (lns : list Line) (m : gmap nat nat) : gmap nat nat :=
  match lns with
  | [] => m
  | ln :: rest => lineTable (n + length (lstmts ln)) (S idx) rest (<[n := idx]> m)
  end.

(** The label of a line as an error message shows it. *)
Definition labelText (ln : Line) : string :=
  match llabel ln with
  | Some l => l
  | None => "null"
  end.

Definition constantProgram : string := unlines [ "10 DATA 1,X"; "20 END" ].

Definition failingProgram : string :=
  unlines [ "10 PRINT 1 : PRINT 2"; "20 PRINT 3 : RETURN"; "30 END" ].



Ltac pm := repeat (progress (unfold mbind, mret, M_bind, M_ret, bind, ret, get, modify, when in * )).

Lemma getPrecedence_paren tok : str tok = "(" -> getPrecedence tok = -1.
Proof.
  intros H. unfold getPrecedence. rewrite H. destruct (type tok); reflexivity.
Qed.

Lemma parsePrimary_operand n q tok rest :
  tokens q = tok :: rest -> isOperand tok = true -> nextNotParen q rest ->
  exists q', parsePrimary (S (S n)) q = Ok (operandExpr tok) q'
             /\ tokens q' = rest /\ popts q' = popts q /\ eol q' = eol q.
Proof.
  intros Ht Hop Hnp. unfold isOperand in Hop. unfold operandExpr.
  cbn [parsePrimary]. pm. unfold consumeToken at 1. rewrite Ht.
  destruct (type tok) eqn:Hty; try discriminate.
  - apply andb_true_iff in Hop as [H1 H2]. apply negb_true_iff in H1.
    unfold parseNumber. pm. rewrite H1, H2, andb_false_r. cbn.
    eexists; repeat split.
  - apply andb_true_iff in Hop as [H1 H2]. apply negb_true_iff in H1.
    unfold parseNumber. pm. rewrite H1, H2, andb_false_r. cbn.
    eexists; repeat split.
  - apply andb_true_iff in Hop as [H1 H2]. apply negb_true_iff in H1.
    unfold parseNumber. pm. rewrite H1, H2, andb_false_r. cbn.
    eexists; repeat split.
  - apply negb_true_iff in Hop. rewrite Hop.
    cbn [parseVarOrIndexed]. unfold pushbackToken. pm. cbn.
    rewrite Hty. unfold peekToken. cbn.
    destruct rest as [|t rest']; cbn.
    + cbn in Hnp. apply String.eqb_neq in Hnp. rewrite Hnp. cbn. eexists; repeat split.
    + cbn in Hnp. apply String.eqb_neq in Hnp. rewrite Hnp. cbn. eexists; repeat split.
Qed.

Lemma tie_not_paren o p oa : 0 <= p -> tieAt o p oa = true -> str (fst oa) <> "(".
Proof.
  intros Hp H Hs. unfold tieAt in H.
  apply andb_true_iff in H as [H _]. apply andb_true_iff in H as [H _].
  apply Z.eqb_eq in H. rewrite (getPrecedence_paren _ Hs) in H. lia.
Qed.

Lemma chain_nextNotParen o p q rest :
  0 <= p -> forallb (tieAt o p) rest = true -> str (eol q) = "" ->
  nextNotParen q (chainTokens rest).
Proof.
  intros Hp Hall He. destruct rest as [|oa rest']; cbn.
  - rewrite He. discriminate.
  - cbn in Hall. apply andb_true_iff in Hall as [H _]. eapply tie_not_paren; eauto.
Qed.

Lemma peek_chain_prec o p q rest :
  0 <= p -> forallb (tieAt o p) rest = true -> type (eol q) = EOL ->
  tokens q = chainTokens rest ->
  exists look, peekToken q = Ok look q /\ (p <? getPrecedence look) = false.
Proof.
  intros Hp Hall He Ht. unfold peekToken. rewrite Ht.
  destruct rest as [|oa rest']; cbn.
  - eexists; split; [reflexivity|]. unfold getPrecedence. rewrite He. apply Z.ltb_ge. lia.
  - eexists; split; [reflexivity|]. cbn in Hall. apply andb_true_iff in Hall as [H _].
    unfold tieAt in H. apply andb_true_iff in H as [H _]. apply andb_true_iff in H as [H _].
    apply Z.eqb_eq in H. rewrite H. apply Z.ltb_irrefl.
Qed.

Lemma parseExpr1_S n left minPred :
  parseExpr1 (S n) left minPred =
  (look ← peekToken;
   if minPred <=? getPrecedence look then
     op ← consumeToken;
     o ← get popts;
     when (negb (operatorAllowed o (str op)))
          (dialectError ("the " +:+ quoted (str op) +:+ " operator"));;
     right ← parsePrimary n;
     right' ← parseExpr1Right n right (getPrecedence op);
     parseExpr1 n (BinOp (opName (str op)) left right') minPred
   else ret left).
Proof. reflexivity. Qed.

Lemma parseExpr1Right_S n right opPrec :
  parseExpr1Right (S n) right opPrec =
  (look ← peekToken;
   if opPrec <? getPrecedence look then
     right' ← parseExpr1 n right (getPrecedence look);
     parseExpr1Right n right' opPrec
   else ret right).
Proof. reflexivity. Qed.

Lemma parseExpr_S n :
  parseExpr (S n) = (l ← parsePrimary n; parseExpr1 n l 0).
Proof. reflexivity. Qed.

Lemma parseExpr1_chain p :
  0 <= p ->
  forall rest n left minPred q,
    0 <= minPred <= p ->
    tokens q = chainTokens rest ->
    forallb (tieAt (popts q) p) rest = true ->
    type (eol q) = EOL -> str (eol q) = "" ->
    (length rest + 3 <= n)%nat ->
    exists q', parseExpr1 n left minPred q = Ok (foldLeft left rest) q'
               /\ tokens q' = [].
Proof.
  intros Hp rest. induction rest as [|[o a] rest' IH]; intros n left minPred q Hmin Ht Hall He1 He2 Hn.
  - destruct n as [|n]; [cbn in Hn; lia|]. rewrite parseExpr1_S. pm.
    unfold peekToken. rewrite Ht. cbn [chainTokens flat_map].
    unfold getPrecedence. rewrite He1.
    replace (minPred <=? -1) with false by (symmetry; apply Z.leb_gt; lia).
    eexists; split; [reflexivity|exact Ht].
  - destruct n as [|[|[|n]]]; try (cbn in Hn; lia).
    cbn in Hall. apply andb_true_iff in Hall as [Hoa Hall].
    pose proof Hoa as Hoa'. unfold tieAt in Hoa'. cbn [fst snd] in Hoa'.
    apply andb_true_iff in Hoa' as [Hoa' Ha]. apply andb_true_iff in Hoa' as [Ho Hallowed].
    apply Z.eqb_eq in Ho.
    rewrite parseExpr1_S. pm. unfold peekToken at 1. rewrite Ht.
    cbn [chainTokens flat_map fst snd app]. rewrite Ho.
    replace (minPred <=? p) with true by (symmetry; apply Z.leb_le; lia).
    unfold consumeToken at 1. rewrite Ht. cbn [chainTokens flat_map fst snd app].
    cbn [popts set_lasttoken set_tokens]. rewrite Hallowed. cbn [negb].
    set (q1 := set_lasttoken (Some o) (set_tokens (a :: flat_map (λ oa : Token * Token, [oa.1; oa.2]) rest') q)).
    destruct (parsePrimary_operand n q1 a (chainTokens rest')) as (q2 & Hp2 & Ht2 & Ho2 & He2').
    { reflexivity. } { exact Ha. }
    { eapply chain_nextNotParen; eauto. }
    rewrite Hp2.
    destruct (peek_chain_prec (popts q) p q2 rest' Hp Hall) as (look & Hpeek & Hlt).
    { rewrite He2'. exact He1. } { exact Ht2. }
    rewrite parseExpr1Right_S. pm. rewrite Hpeek, Ho, Hlt.
    apply IH; try assumption.
    + rewrite Ho2. exact Hall.
    + rewrite He2'. exact He1.
    + rewrite He2'. exact He2.
    + cbn in Hn. lia.
Qed.

Lemma chain_left_assoc (p : Z) (a0 : Token) (rest : list (Token * Token))
    (q : Parser) (fuel : nat) :
  0 <= p ->
  isOperand a0 = true ->
  forallb (tieAt (popts q) p) rest = true ->
  tokens q = a0 :: chainTokens rest ->
  type (eol q) = EOL -> str (eol q) = "" ->
  (length rest + 4 <= fuel)%nat ->
  exists q', parseExpr fuel q = Ok (foldLeft (operandExpr a0) rest) q'
             /\ tokens q' = [].
Proof.
  intros Hp Ha Hall Ht He1 He2 Hn.
  destruct fuel as [|[|[|n]]]; try (cbn in Hn; lia).
  rewrite parseExpr_S. pm.
  destruct (parsePrimary_operand n q a0 (chainTokens rest) Ht Ha) as (q1 & Hp1 & Ht1 & Ho1 & He1').
  { eapply chain_nextNotParen; eauto. }
  rewrite Hp1.
  apply (parseExpr1_chain p Hp); try assumption; try lia;
    rewrite ?Ho1, ?He1'; assumption.
Qed.

(** ** Parser methods that leave [labels] alone *)

Lemma sl_ret {A} (a : A) : sameLabels (mret a).
Proof. intros q. reflexivity. Qed.

Lemma sl_bind {A B} (m : M A) (k : A -> M B) :
  sameLabels m -> (forall a, sameLabels (k a)) -> sameLabels (m ≫= k).
Proof.
  intros Hm Hk q. unfold mbind, M_bind, bind. specialize (Hm q).
  destruct (m q) as [a q'| |]; try assumption.
  specialize (Hk a q'). destruct (k a q'); congruence.
Qed.

Lemma sl_get {A} (proj : Parser -> A) : sameLabels (get proj).
Proof. intros q. reflexivity. Qed.

Lemma sl_modify (g : Parser -> Parser) :
  (forall q, labels (g q) = labels q) -> sameLabels (modify g).
Proof. intros H q. apply H. Qed.

Lemma sl_peek : sameLabels peekToken.
Proof. intros q. unfold peekToken. destruct (tokens q); reflexivity. Qed.

Lemma sl_consume : sameLabels consumeToken.
Proof. intros q. unfold consumeToken. destruct (tokens q); reflexivity. Qed.

Lemma sl_compileErrorAt {A} m loc : sameLabels (@compileErrorAt A m loc).
Proof. intros q. reflexivity. Qed.

Lemma sl_compileError {A} m : sameLabels (@compileError A m).
Proof. apply sl_bind; [apply sl_peek|intros; apply sl_compileErrorAt]. Qed.

Lemma sl_dialectError {A} m : sameLabels (@dialectError A m).
Proof. apply sl_compileError. Qed.

Lemma sl_when b m : sameLabels m -> sameLabels (when b m).
Proof. intros H. destruct b; [exact H|apply sl_ret]. Qed.

Lemma sl_pushback t : sameLabels (pushbackToken t).
Proof. intros q. reflexivity. Qed.

Lemma sl_lastLoc : sameLabels lastLoc.
Proof. intros q. unfold lastLoc. destruct (lasttoken q); reflexivity. Qed.

Create HintDb sl.
#[local] Hint Resolve sl_ret sl_get sl_peek sl_consume sl_compileErrorAt sl_compileError
  sl_dialectError sl_pushback sl_lastLoc : sl.

Ltac sl_step :=
  match goal with
  | |- sameLabels (mret _) => apply sl_ret
  | |- sameLabels (ret _) => apply (sl_ret _)
  | |- sameLabels (_ ≫= _) => apply sl_bind; [|intros ?]
  | |- sameLabels (when _ _) => apply sl_when
  | |- sameLabels (modify _) => apply sl_modify; intros ?; reflexivity
  | |- sameLabels (if ?b then _ else _) => destruct b
  | |- sameLabels (match ?x with _ => _ end) => destruct x
  | |- sameLabels (let '(_, _) := ?x in _) => destruct x
  | |- sameLabels _ => solve [auto with sl]
  end.
Ltac sl := repeat sl_step.

Lemma sl_expect s : sameLabels (expectToken s).
Proof. unfold expectToken. sl. Qed.
#[local] Hint Resolve sl_expect : sl.

Lemma sl_parseNumber s : sameLabels (parseNumber s).
Proof. unfold parseNumber. sl. Qed.

Lemma sl_parseLabel : sameLabels parseLabel.
Proof. unfold parseLabel. sl. Qed.
#[local] Hint Resolve sl_parseNumber sl_parseLabel : sl.

Lemma sl_parseList {T} n (pf : M (option T)) d acc :
  sameLabels pf -> sameLabels (parseList n pf d acc).
Proof.
  intros H. revert acc. induction n as [|n IH]; intros acc; cbn [parseList].
  - intros q. exact I.
  - sl; auto.
Qed.

Lemma sl_exprs n :
  sameLabels (parsePrimary n) /\ sameLabels (parseVarOrIndexed n)
  /\ sameLabels (parseExprList n) /\ sameLabels (parseExpr n)
  /\ (forall l m, sameLabels (parseExpr1 n l m))
  /\ (forall r p, sameLabels (parseExpr1Right n r p)).
Proof.
  induction n as [|n (IH1 & IH2 & IH3 & IH4 & IH5 & IH6)].
  - repeat split; intros; intros q; exact I.
  - repeat split; intros.
    + cbn [parsePrimary]. sl; auto.
    + cbn [parseVarOrIndexed]. sl; auto.
    + cbn [parseExprList]. apply sl_parseList. sl; auto.
    + cbn [parseExpr]. sl; auto.
    + cbn [parseExpr1]. sl; auto.
    + cbn [parseExpr1Right]. sl; auto.
Qed.

Lemma sl_parsePrimary n : sameLabels (parsePrimary n).
Proof. apply sl_exprs. Qed.
Lemma sl_parseVarOrIndexed n : sameLabels (parseVarOrIndexed n).
Proof. apply sl_exprs. Qed.
Lemma sl_parseExprList n : sameLabels (parseExprList n).
Proof. apply sl_exprs. Qed.
Lemma sl_parseExpr n : sameLabels (parseExpr n).
Proof. apply sl_exprs. Qed.
#[local] Hint Resolve sl_parsePrimary sl_parseVarOrIndexed sl_parseExprList sl_parseExpr : sl.

Lemma sl_declare nm : sameLabels (declare nm).
Proof. unfold declare. sl. Qed.
#[local] Hint Resolve sl_declare : sl.

Lemma sl_declareAll (l : list IndOp) :
  sameLabels (foldr (fun lexpr k => declare (name lexpr);; k) (ret tt) l).
Proof. induction l; cbn [foldr]; sl; auto. Qed.

Lemma sl_parseLexprList n : sameLabels (parseLexprList n).
Proof.
  unfold parseLexprList. sl.
  - apply sl_parseList. sl.
  - apply sl_declareAll.
Qed.

Lemma sl_parseLabelList n : sameLabels (parseLabelList n).
Proof. unfold parseLabelList. apply sl_parseList. sl. Qed.
#[local] Hint Resolve sl_parseLexprList sl_parseLabelList : sl.

Lemma sl_printLoop n e l ls : sameLabels (printLoop n e l ls).
Proof.
  revert l ls. induction n as [|n IH]; intros l ls; cbn [printLoop].
  - intros q. exact I.
  - sl; auto.
Qed.
#[local] Hint Resolve sl_printLoop : sl.

Lemma sl_parseOptions a b : sameLabels (parseOptions a b).
Proof. unfold parseOptions. sl. Qed.

Lemma sl_optionArgs ts acc : sameLabels (optionArgs ts acc).
Proof. revert acc. induction ts as [|t ts IH]; intros acc; cbn [optionArgs]; sl; auto. Qed.

Lemma sl_skipRemark ts : sameLabels (skipRemark ts).
Proof. induction ts as [|t ts IH]; cbn [skipRemark]; sl; auto. Qed.
#[local] Hint Resolve sl_parseOptions sl_optionArgs sl_skipRemark : sl.

Lemma sl_stmt__LET n : sameLabels (stmt__LET n).
Proof. unfold stmt__LET. sl. Qed.
Lemma sl_stmt__PRINT n : sameLabels (stmt__PRINT n).
Proof. unfold stmt__PRINT. sl. Qed.
Lemma sl_stmt__GOTO : sameLabels stmt__GOTO.
Proof. unfold stmt__GOTO. sl. Qed.
Lemma sl_stmt__GOSUB : sameLabels stmt__GOSUB.
Proof. unfold stmt__GOSUB. sl. Qed.
Lemma sl_stmt__IF n : sameLabels (stmt__IF n).
Proof. unfold stmt__IF. sl. Qed.
Lemma sl_stmt__FOR n : sameLabels (stmt__FOR n).
Proof. unfold stmt__FOR. sl. Qed.
Lemma sl_stmt__NEXT n : sameLabels (stmt__NEXT n).
Proof. unfold stmt__NEXT. sl. Qed.
Lemma sl_stmt__DIM n : sameLabels (stmt__DIM n).
Proof. unfold stmt__DIM. sl. Qed.
Lemma sl_stmt__INPUT n : sameLabels (stmt__INPUT n).
Proof. unfold stmt__INPUT. sl. Qed.
Lemma sl_stmt__DATA n : sameLabels (stmt__DATA n).
Proof. unfold stmt__DATA. sl. Qed.
Lemma sl_stmt__READ n : sameLabels (stmt__READ n).
Proof. unfold stmt__READ. sl. Qed.
Lemma sl_stmt__ON n : sameLabels (stmt__ON n).
Proof. unfold stmt__ON. sl. Qed.
Lemma sl_stmt__DEF n : sameLabels (stmt__DEF n).
Proof. unfold stmt__DEF. sl. Qed.
Lemma sl_stmt__OPTION : sameLabels stmt__OPTION.
Proof. unfold stmt__OPTION. sl. Qed.
#[local] Hint Resolve sl_stmt__LET sl_stmt__PRINT sl_stmt__GOTO sl_stmt__GOSUB sl_stmt__IF
  sl_stmt__FOR sl_stmt__NEXT sl_stmt__DIM sl_stmt__INPUT sl_stmt__DATA sl_stmt__READ
  sl_stmt__ON sl_stmt__DEF sl_stmt__OPTION : sl.

Lemma sl_stmtFn cmd fn n : stmtFn cmd = Some fn -> sameLabels (fn n).
Proof.
  unfold stmtFn, assoc.
  repeat (destruct (String.eqb cmd _); [intros H; injection H as <-; sl|]).
  intros H; discriminate H.
Qed.

Lemma sl_located t c : sameLabels (located t c).
Proof. unfold located. sl. Qed.
#[local] Hint Resolve sl_located : sl.

Lemma sl_parseStatement n : sameLabels (parseStatement n).
Proof.
  unfold parseStatement.
  repeat first
    [ match goal with
      | |- sameLabels (match stmtFn ?c with _ => _ end) => destruct (stmtFn c) eqn:?
      | H : stmtFn _ = Some ?fn |- sameLabels (?fn _) => exact (sl_stmtFn _ _ _ H)
      end
    | sl_step ].
Qed.

Lemma sl_parseCompoundStatement n : sameLabels (parseCompoundStatement n).
Proof.
  unfold parseCompoundStatement. sl. apply sl_parseList. apply sl_parseStatement.
Qed.

(** ** Duplicate labels *)

Lemma tokenizeFrom_line fuel upper ln pos s t :
  In t (tokenizeFrom fuel upper ln pos s) -> line (tloc t) = ln.
Proof.
  revert pos s. induction fuel as [|fuel IH]; intros pos s; cbn [tokenizeFrom].
  - intros [].
  - destruct s as [|c r]; [intros []|].
    destruct (matchToken (String c r)) as [[[ty lexeme] rest]|].
    + intros [<-|H]; [reflexivity|eauto].
    + eauto.
Qed.

Lemma type_Int t : TokenType_eqb (type t) Int = true -> type t = Int.
Proof. destruct (type t); cbn; congruence. Qed.

Lemma parseLine_duplicate fuel q ln l :
  labelToken q ln = Some l -> is_Some (labels q !! l) ->
  exists q',
    parseLine fuel ln q = Ok emptyLine q'
    /\ errors q' = (errors q ++ [duplicateError (S (lineno q)) l])%list
    /\ labels q' = labels q.
Proof.
  unfold labelToken. intros Hl Hsome.
  destruct (tokenizeFrom _ _ _ _ _) as [|t rest] eqn:Htok; [discriminate|].
  destruct (TokenType_eqb (type t) Int) eqn:Hty; [|discriminate].
  injection Hl as <-. apply type_Int in Hty.
  assert (Hline : forall t', In t' (t :: rest) -> line (tloc t') = S (lineno q)).
  { intros t' Hin. rewrite <- Htok in Hin. eapply tokenizeFrom_line; eauto. }
  unfold parseLine, tokenize, parse, parseOptLabel. pm. cbn -[tokenizeFrom].
  rewrite Htok. cbn. rewrite Hty. cbn.
  rewrite bool_decide_eq_true_2 by exact Hsome.
  unfold compileError, compileErrorAt, peekToken. pm. cbn.
  destruct rest as [|t2 rest']; cbn.
  - eexists; repeat split.
  - eexists; repeat split. unfold duplicateError.
    rewrite (Hline t2) by (right; left; reflexivity). reflexivity.
Qed.

Lemma type_not_Int t : TokenType_eqb (type t) Int = false -> type t <> Int.
Proof. intros H E. rewrite E in H. discriminate. Qed.

Lemma parseLine_labels fuel ln q l0 q' :
  parseLine fuel ln q = Ok l0 q' ->
  (labels q' = labels q
   /\ forall l, labelToken q ln = Some l -> is_Some (labels q !! l))
  \/ (exists l, labelToken q ln = Some l /\ labels q' = <[l := S (lineno q)]> (labels q)).
Proof.
  unfold labelToken, parseLine, tokenize, parse. pm. cbn -[tokenizeFrom parseOptLabel].
  destruct (tokenizeFrom _ _ _ _ _) as [|t rest] eqn:Htok.
  - intros H. inversion H; subst. left. split; [reflexivity|discriminate].
  - unfold parseOptLabel. pm. unfold consumeToken at 1.
    cbn -[tokenizeFrom parseCompoundStatement bool_decide].
    destruct (TokenType_eqb (type t) Int) eqn:Hty.
    + rewrite (type_Int _ Hty).
      cbn -[tokenizeFrom parseCompoundStatement bool_decide].
      destruct (bool_decide (is_Some (labels q !! str t))) eqn:Hdup.
      * apply bool_decide_eq_true_1 in Hdup.
        unfold compileError, compileErrorAt, peekToken. pm.
        cbn -[tokenizeFrom parseCompoundStatement bool_decide].
        destruct rest; cbn; intros H; inversion H; subst; left;
          (split; [reflexivity|intros l Hl; injection Hl as <-; exact Hdup]).
      * cbn -[tokenizeFrom parseCompoundStatement bool_decide].
        match goal with
        | |- context [parseCompoundStatement fuel ?q1] =>
            pose proof (sl_parseCompoundStatement fuel q1) as Hsl;
            destruct (parseCompoundStatement fuel q1) as [s q2|e q2|]
        end; cbn in *; intros H; try discriminate H;
          inversion H; subst; right; exists (str t); split; try reflexivity;
          cbn; congruence.
    + pose proof (type_not_Int _ Hty) as Hne.
      destruct (type t) eqn:Hty'; try congruence;
        cbn -[tokenizeFrom parseCompoundStatement bool_decide];
        match goal with
        | |- context [parseCompoundStatement fuel ?q1] =>
            pose proof (sl_parseCompoundStatement fuel q1) as Hsl;
            destruct (parseCompoundStatement fuel q1) as [s q2|e q2|]
        end; cbn in *; intros H; try discriminate H;
          inversion H; subst; left; (split; [cbn; congruence|discriminate]).
Qed.

Lemma parseLine_keeps fuel ln q l0 q' l :
  parseLine fuel ln q = Ok l0 q' -> is_Some (labels q !! l) -> is_Some (labels q' !! l).
Proof.
  intros H Hl. destruct (parseLine_labels _ _ _ _ _ H) as [[-> _]|(l' & _ & ->)]; [exact Hl|].
  destruct (decide (l' = l)) as [->|Hne].
  - rewrite lookup_insert_eq. eauto.
  - rewrite lookup_insert_ne by exact Hne. exact Hl.
Qed.

Lemma parseLine_declares fuel ln q l0 q' l :
  parseLine fuel ln q = Ok l0 q' -> labelToken q ln = Some l -> is_Some (labels q' !! l).
Proof.
  intros H Hl. destruct (parseLine_labels _ _ _ _ _ H) as [[-> Hd]|(l' & Hl' & ->)].
  - exact (Hd _ Hl).
  - rewrite Hl in Hl'. injection Hl' as <-. rewrite lookup_insert_eq. eauto.
Qed.

Lemma parseLines_keeps fuel lns : forall q ls q' l,
  parseLines fuel lns q = Ok ls q' -> is_Some (labels q !! l) -> is_Some (labels q' !! l).
Proof.
  induction lns as [|ln lns IH]; intros q ls q' l; cbn [parseLines]; pm.
  - intros H. injection H as <- <-. auto.
  - destruct (parseLine fuel ln q) as [l1 q1| |] eqn:H1; try discriminate.
    destruct (parseLines fuel lns q1) as [ls1 q2| |] eqn:H2; try discriminate.
    intros H. injection H as <- <-. intros Hl.
    eapply IH; eauto. eapply parseLine_keeps; eauto.
Qed.

Lemma duplicate_label (fuel : nat) (q1 q2 q3 : Parser) (ln1 ln2 : string)
    (mid : list string) (l1 : BASICLine) (lsmid : list BASICLine) (l : string) :
  labelToken q1 ln1 = Some l ->
  parseLine fuel ln1 q1 = Ok l1 q2 ->
  parseLines fuel mid q2 = Ok lsmid q3 ->
  labelToken q3 ln2 = Some l ->
  exists q4,
    parseLine fuel ln2 q3 = Ok emptyLine q4
    /\ errors q4 = (errors q3 ++ [duplicateError (S (lineno q3)) l])%list
    /\ forall rest,
         parseLines fuel (ln2 :: rest) q3
         = (ls ← parseLines fuel rest; mret (emptyLine :: ls)) q4.
Proof.
  intros H1 H2 H3 H4.
  assert (Hs : is_Some (labels q3 !! l)).
  { eapply parseLines_keeps; eauto. eapply parseLine_declares; eauto. }
  destruct (parseLine_duplicate fuel q3 ln2 l H4 Hs) as (q4 & Hp & He & _).
  exists q4. repeat split; try assumption.
  intros rest. cbn [parseLines]. pm. rewrite Hp. reflexivity.
Qed.

(** ** Methods that preserve a relation between the state before and after *)

(** Induction on expressions, with the hypothesis for every argument of
    a lookup. *)
Section ExprInduction.

Variable Q : Expr -> Prop.
Hypothesis HLiteral : forall v loc, Q (Literal v loc).
Hypothesis HLookup : forall n args loc,
  match args with Some a => Forall Q a | None => True end -> Q (Lookup n args loc).
Hypothesis HBinOp : forall op l, Q l -> forall r, Q r -> Q (BinOp op l r).
Hypothesis HUnOp : forall op e, Q e -> Q (UnOp op e).

Fixpoint Expr_nested_ind (e : Expr) : Q e :=
  match e with
  | Literal v loc => HLiteral v loc
  | Lookup n args loc =>
      HLookup n args loc
        (match args as o return match o with Some a => Forall Q a | None => True end with
         | Some a =>
             (fix go (l : list Expr) : Forall Q l :=
                match l with
                | [] => @List.Forall_nil Expr Q
                | x :: t => @List.Forall_cons Expr Q x t (Expr_nested_ind x) (go t)
                end) a
         | None => I
         end)
  | BinOp op l r => HBinOp op l (Expr_nested_ind l) r (Expr_nested_ind r)
  | UnOp op e' => HUnOp op e' (Expr_nested_ind e')
  end.

End ExprInduction.

Section Stable.

Variable P : Runtime -> Runtime -> Prop.
Hypothesis HP : Frame P.

Ltac frame :=
  intros; cbn beta;
  repeat (eapply (f_trans P HP);
          [| first [ apply (f_curpc P HP) | apply (f_dataptr P HP) | apply (f_vars P HP)
                   | apply (f_defs P HP) | apply (f_forLoops P HP)
                   | apply (f_returnStack P HP) | apply (f_column P HP)
                   | apply (f_output P HP) | apply (f_pending P HP) ] ]);
  apply (f_refl P HP).

Lemma st_ret {A} (a : A) : stable P (mret a).
Proof. intros r. apply (f_refl P HP). Qed.

Lemma st_bind {A B} (m : R A) (k : A -> R B) :
  stable P m -> (forall a, stable P (k a)) -> stable P (m ≫= k).
Proof.
  intros Hm Hk r. unfold mbind, R_bind, rbind. specialize (Hm r).
  destruct (m r) as [a r'| | |]; try assumption.
  specialize (Hk a r'). destruct (k a r'); try exact I; eapply (f_trans P HP); eassumption.
Qed.

Lemma st_read {A} (proj : Runtime -> A) : stable P (read proj).
Proof. intros r. apply (f_refl P HP). Qed.

Lemma st_update (g : Runtime -> Runtime) : (forall r, P r (g r)) -> stable P (update g).
Proof. intros H r. apply H. Qed.

Lemma st_crash {A} w : stable P (@crash A w).
Proof. intros r. apply (f_refl P HP). Qed.

Lemma st_unmodelled {A} w : stable P (@unmodelled A w).
Proof. intros r. exact I. Qed.

Lemma st_runtimeError {A} m : stable P (@runtimeError A m).
Proof. intros r. apply (f_curpc P HP). Qed.

Lemma st_programOpts : stable P programOpts.
Proof. intros r. unfold programOpts. destruct (program r); apply (f_refl P HP). Qed.

Lemma st_mapR {A B} (g : A -> R B) l :
  (forall a, stable P (g a)) -> stable P (mapR g l).
Proof.
  intros H. induction l as [|a l IH]; cbn [mapR].
  - apply (st_ret []).
  - apply st_bind; [apply H|intros b]. apply st_bind; [exact IH|intros bs]. apply (st_ret (b :: bs)).
Qed.

Ltac st_step :=
  match goal with
  | H : stable _ ?m |- stable _ ?m => exact H
  | |- stable _ (mret _) => apply st_ret
  | |- stable _ (rret _) => apply (st_ret _)
  | |- stable _ (_ ≫= _) => apply st_bind; [|intros ?]
  | |- stable _ (update _) => apply st_update; frame
  | |- stable _ (read _) => apply st_read
  | |- stable _ (crash _) => apply st_crash
  | |- stable _ (unmodelled _) => apply st_unmodelled
  | |- stable _ (runtimeError _) => apply st_runtimeError
  | |- stable _ programOpts => apply st_programOpts
  | |- stable _ (mapR _ _) => apply st_mapR; intros ?
  | |- stable _ (if ?b then _ else _) => destruct b
  | |- stable _ (match ?x with _ => _ end) => destruct x
  | |- stable _ (let '(_, _) := ?x in _) => destruct x
  | |- stable _ (let _ := _ in _) => cbv zeta
  | |- stable _ _ => solve [auto]
  end.
Ltac st := repeat st_step.

Lemma st_checkValue v n : stable P (checkValue v n).
Proof. unfold checkValue. st. Qed.
Lemma st_checkNum n : stable P (checkNum n).
Proof. unfold checkNum. st. Qed.
Lemma st_checkString v : stable P (checkString v).
Proof. unfold checkString. st. Qed.
Hint Resolve st_checkValue st_checkNum st_checkString : core.

Lemma st_numeric2 w g a b : stable P (numeric2 w g a b).
Proof. unfold numeric2. st. Qed.
Hint Resolve st_numeric2 : core.

Lemma st_add a b : stable P (add a b).
Proof. unfold add. st. Qed.
Lemma st_div a b : stable P (div a b).
Proof. unfold div. st. Qed.
Hint Resolve st_add st_div : core.
Lemma st_idiv a b : stable P (idiv a b).
Proof. unfold idiv. st. Qed.
Lemma st_pow a b : stable P (pow a b).
Proof. unfold pow. st. Qed.
Lemma st_bitwise w g a b : stable P (bitwise w g a b).
Proof. unfold bitwise. st. Qed.
Lemma st_relational w o : stable P (relational w o).
Proof. unfold relational. st. Qed.
Hint Resolve st_idiv st_pow st_bitwise st_relational : core.

Lemma st_prim2 op g a b : prim2 op = Some g -> stable P (g a b).
Proof.
  unfold prim2, assoc.
  repeat (destruct (String.eqb op _);
          [intros H; injection H as <-;
           cbv beta delta [sub mul mod_ band bor eq ne lt gt le ge land lor]; solve [st] |]).
  intros H; discriminate H.
Qed.

Lemma st_prim1 op g a : prim1 op = Some g -> stable P (g a).
Proof.
  unfold prim1, assoc.
  repeat (destruct (String.eqb op _);
          [intros H; injection H as <-; cbv beta delta [lnot neg]; solve [st] |]).
  intros H; discriminate H.
Qed.

Lemma st_ROUND x : stable P (ROUND x).
Proof. unfold ROUND. st. Qed.
Hint Resolve st_ROUND : core.
Lemma st_TAB x : stable P (TAB x).
Proof. unfold TAB. st. Qed.
Hint Resolve st_TAB : core.

Lemma st_numericArg w g args : (forall x, stable P (g x)) -> stable P (numericArg w g args).
Proof. intros H. unfold numericArg. st. Qed.

Lemma st_callBuiltin n args : stable P (callBuiltin n args).
Proof.
  unfold callBuiltin.
  repeat (match goal with
          | |- stable _ (if String.eqb _ _ then _ else _) => destruct (String.eqb _ _)
          end;
          [ first [ apply st_numericArg; intros ?; cbv beta delta [ABS FIX INT SGN SQR]; solve [st]
                  | cbv beta delta [VAL STR_]; solve [st] ] |]).
  st.
Qed.
Hint Resolve st_callBuiltin : core.

Lemma st_eval : forall e, stable P (eval e).
Proof.
  fix IH 1. intros e.
  assert (Hl : forall l, (fix all (l : list JSExpr) : Prop :=
                            match l with [] => True | a :: t => stable P (eval a) /\ all t end) l
                         -> stable P (mapR eval l)).
  { induction l as [|a l IHl]; cbn [mapR]; intros Hall.
    - apply (st_ret []).
    - destruct Hall as [Ha Hall]. apply st_bind; [exact Ha|intros b].
      apply st_bind; [exact (IHl Hall)|intros bs]. apply (st_ret (b :: bs)). }
  destruct e as [v|n|n|n args|n o subs|e n|op l r|op e]; cbn [eval].
  - st.
  - st.
  - st.
  - apply st_bind; [apply st_read|intros ds].
    apply st_bind; [|intros vals; st].
    apply Hl. clear Hl. induction args as [|a args IHargs]; [exact I|split; [apply IH|exact IHargs]].
  - st.
  - apply st_bind; [apply IH|intros v; st].
  - apply st_bind; [apply IH|intros a]. apply st_bind; [apply IH|intros b].
    destruct (prim2 op) eqn:Hop; [eapply st_prim2; eauto|st].
  - apply st_bind; [apply IH|intros a].
    destruct (prim1 op) eqn:Hop; [eapply st_prim1; eauto|st].
Qed.

Hint Resolve st_eval : core.

Lemma st_valueToString v : stable P (valueToString v).
Proof. unfold valueToString. st. Qed.
Lemma st_print s : stable P (print s).
Proof. unfold print. st. Qed.
Hint Resolve st_valueToString st_print : core.
Lemma st_printExpr v : stable P (printExpr v).
Proof. unfold printExpr. st. Qed.
Lemma st_skipToEOL : stable P skipToEOL.
Proof. unfold skipToEOL. st. Qed.
Lemma st_skipToEOF : stable P skipToEOF.
Proof. unfold skipToEOF. st. Qed.
Lemma st_gotoLabel l : stable P (gotoLabel l).
Proof. unfold gotoLabel. st. Qed.
Hint Resolve st_printExpr st_skipToEOL st_skipToEOF st_gotoLabel : core.
Lemma st_gosubLabel l : stable P (gosubLabel l).
Proof. unfold gosubLabel. st. Qed.
Lemma st_returnFromGosub : stable P returnFromGosub.
Proof. unfold returnFromGosub. st. Qed.
Lemma st_startForLoop n i t s : stable P (startForLoop n i t s).
Proof. unfold startForLoop. st. Qed.
Lemma st_next fl n : stable P (next fl n).
Proof. unfold next. st. Qed.
Hint Resolve st_gosubLabel st_returnFromGosub st_startForLoop st_next : core.
Lemma st_nextForLoop n : stable P (nextForLoop n).
Proof. unfold nextForLoop. st. Qed.
Lemma st_convertToString v : stable P (convertToString v).
Proof. unfold convertToString. st. Qed.
Lemma st_convertToNumber v : stable P (convertToNumber v).
Proof. unfold convertToNumber. st. Qed.
Hint Resolve st_nextForLoop st_convertToString st_convertToNumber : core.
Lemma st_assign n v : stable P (assign n v).
Proof. unfold assign. st. Qed.
Lemma st_store l v : stable P (store l v).
Proof. unfold store. st. Qed.
Lemma st_onGotoLabel v ls : stable P (onGotoLabel v ls).
Proof. unfold onGotoLabel. st. Qed.
Lemma st_nextDatum : stable P nextDatum.
Proof. unfold nextDatum. st. Qed.
Hint Resolve st_assign st_store st_onGotoLabel st_nextDatum : core.

Lemma st_execStmt c : isInput c = false -> stable P (execStmt c).
Proof. destruct c; cbn [isInput execStmt]; intros H; try discriminate H; st. Qed.

Lemma st_execStmt_input c :
  (forall r, P r (set_running false r)) -> stable P (execStmt c).
Proof.
  intros Hrun. destruct c; try (apply st_execStmt; reflexivity).
  cbn [execStmt]. apply st_bind; [apply st_update; intros r; apply Hrun|intros _]. st.
Qed.

Lemma st_exec code : existsb isInput code = false -> stable P (exec code).
Proof.
  induction code as [|c code IH]; cbn [exec existsb]; intros H.
  - st.
  - apply orb_false_iff in H as [Hc Hcode].
    apply st_bind; [apply st_execStmt; exact Hc|intros _; exact (IH Hcode)].
Qed.

Lemma st_exec_input code :
  (forall r, P r (set_running false r)) -> stable P (exec code).
Proof.
  intros Hrun. induction code as [|c code IH]; cbn [exec].
  - st.
  - apply st_bind; [apply st_execStmt_input; exact Hrun|intros _; exact IH].
Qed.

Lemma st_literal v : stable P (literal v).
Proof. unfold literal. st. Qed.
Hint Resolve st_literal : core.

Lemma st_mapR_Forall {A B} (g : A -> R B) l :
  Forall (fun a => stable P (g a)) l -> stable P (mapR g l).
Proof.
  induction 1 as [|a l Ha _ IH]; cbn [mapR].
  - apply (st_ret []).
  - apply st_bind; [exact Ha|intros b]. apply st_bind; [exact IH|intros bs].
    apply (st_ret (b :: bs)).
Qed.

Lemma st_expr2js e check isconst locals : stable P (expr2js e check isconst locals).
Proof.
  induction e as [v loc|n args loc IH|op l IHl r IHr|op e IH] using Expr_nested_ind;
    cbn [expr2js].
  - st.
  - destruct (existsb (String.eqb n) locals); [st|].
    apply st_bind; [st|intros _]. apply st_bind; [st|intros ds].
    apply st_bind; [|intros s; st].
    destruct args as [a|].
    + pose proof (st_mapR_Forall (fun arg => expr2js arg check isconst locals) a IH).
      destruct (ds !! n); st.
    + destruct (ds !! n); st.
  - st.
  - st.
Qed.
Hint Resolve st_expr2js : core.

Lemma st_stmtfn c g : stmtfn c = Some g -> stable P g.
Proof.
  destruct c; cbn [stmtfn]; intros H; try discriminate H; injection H as <-;
    cbv beta delta [do__PRINT do__LET do__GOTO do__GOSUB do__RETURN do__IF do__FOR do__NEXT
                    do__DIM _DIM do__INPUT do__READ do__DEF do__ONGOTO do__DATA do__OPTION
                    do__RESTORE do__STOP do__END]; st.
Qed.

End Stable.

Lemma Frame_keepsCode : Frame keepsCode.
Proof. split; unfold keepsCode; intros; cbn; congruence. Qed.

Lemma Frame_keepsRunning : Frame keepsRunning.
Proof.
  split; unfold keepsRunning; intros; cbn; try (split; reflexivity).
  destruct H, H0. split; congruence.
Qed.

Lemma Frame_staysSuspended : Frame staysSuspended.
Proof.
  split; unfold staysSuspended; intros; cbn; try (split; [reflexivity|tauto]).
  destruct H as [H1 H2], H0 as [H3 H4]. split; [congruence|auto].
Qed.

Lemma exec_no_input code r r' :
  hasInput code = false -> exec code r = Done tt r' ->
  allstmts r' = allstmts r /\ running r' = running r.
Proof.
  intros H He. pose proof (st_exec keepsRunning Frame_keepsRunning code H r) as Hs.
  rewrite He in Hs. exact Hs.
Qed.

Lemma exec_keepsCode code r :
  match exec code r with
  | Done _ r' | Halt _ r' | Crash _ r' =>
      allstmts r' = allstmts r /\ (running r = false -> running r' = false)
  | Unmodelled _ => True
  end.
Proof.
  apply (st_exec_input staysSuspended Frame_staysSuspended code).
  intros r0. split; [reflexivity|reflexivity].
Qed.

Lemma exec_input_suspends code : forall r r',
  hasInput code = true -> exec code r = Done tt r' -> running r' = false.
Proof.
  induction code as [|c code IH]; intros r r' H He; [discriminate H|].
  cbn [exec] in He. unfold mbind, R_bind, rbind in He.
  destruct (execStmt c r) as [[] r1| | |] eqn:Hc; try discriminate He.
  cbn [hasInput existsb] in H. destruct (isInput c) eqn:Hi.
  - assert (Hr1 : running r1 = false).
    { destruct c; try discriminate Hi. cbn [execStmt] in Hc.
      unfold mbind, R_bind, rbind, update in Hc.
      match type of Hc with
      | context [eval ?e ?r0] =>
          pose proof (st_eval keepsRunning Frame_keepsRunning e r0) as Hev;
          destruct (eval e r0) as [v r2| | |]; try discriminate Hc
      end.
      injection Hc as <-. destruct Hev as [_ Hev]. cbn in *. exact Hev. }
    pose proof (exec_keepsCode code r1) as Hk. rewrite He in Hk. apply Hk, Hr1.
  - cbn in H. eapply IH; eauto.
Qed.

Ltac rm := repeat (progress (unfold mbind, mret, R_bind, R_ret, rbind, rret, update, read in * )).

Lemma mapR_no_input {A} (g : A -> R JSStmt) l :
  (forall a r b r', g a r = Done b r' -> isInput b = false) ->
  forall r bs r', mapR g l r = Done bs r' -> hasInput bs = false.
Proof.
  intros Hg. induction l as [|a l IH]; intros r bs r'; cbn [mapR]; rm.
  - intros H. injection H as <- _. reflexivity.
  - destruct (g a r) as [b r1| | |] eqn:Hb; try discriminate.
    destruct (mapR g l r1) as [bs1 r2| | |] eqn:Hbs; try discriminate.
    intros H. injection H as <- _. cbn. rewrite (Hg _ _ _ _ Hb). cbn. eapply IH; eauto.
Qed.

Ltac bind_inv :=
  repeat match goal with
         | H : Done _ _ = Done _ _ |- _ => inversion H; subst; clear H
         | H : Halt _ _ = Done _ _ |- _ => discriminate H
         | H : Crash _ _ = Done _ _ |- _ => discriminate H
         | H : Unmodelled _ = Done _ _ |- _ => discriminate H
         | H : match ?m with _ => _ end = Done _ _ |- _ => destruct m eqn:?
         | H : match ?m with _ => _ end _ = Done _ _ |- _ => destruct m eqn:?
         end.

Lemma compiled_hasInput st code :
  compiledFrom st code -> hasInput code = isINPUT (command (stmt st)).
Proof.
  intros (g & r0 & r1 & Hg & Hd).
  destruct (command (stmt st)); cbn [stmtfn] in Hg; try discriminate Hg;
    injection Hg as <-; cbn [isINPUT].
  - eapply (mapR_no_input _ _ _ _ _ _ Hd).
  - unfold do__LET in Hd. rm. bind_inv; reflexivity.
  - unfold do__GOTO in Hd. rm. bind_inv; reflexivity.
  - unfold do__GOSUB in Hd. rm. bind_inv; reflexivity.
  - unfold do__RETURN in Hd. rm. bind_inv; reflexivity.
  - unfold do__IF in Hd. rm. bind_inv; reflexivity.
  - unfold do__FOR in Hd. rm. bind_inv; reflexivity.
  - unfold do__NEXT in Hd. rm. bind_inv; reflexivity.
  - eapply (mapR_no_input _ _ _ _ _ _ Hd).
  - unfold do__INPUT in Hd. rm. bind_inv; reflexivity.
  - eapply (mapR_no_input _ _ _ _ _ _ Hd).
  - unfold do__DEF in Hd. rm. bind_inv; reflexivity.
  - unfold do__ONGOTO in Hd. rm. bind_inv; reflexivity.
  - unfold do__DATA in Hd. rm. bind_inv; reflexivity.
  - unfold do__OPTION in Hd. rm. bind_inv; reflexivity.
  - unfold do__RESTORE in Hd. rm. bind_inv; reflexivity.
  - unfold do__STOP in Hd. rm. bind_inv; reflexivity.
  - unfold do__END in Hd. rm. bind_inv; reflexivity.
  Unshelve.
  all: intros a r b r' H; cbv beta delta [_DIM crash] in H; rm; bind_inv; reflexivity.
Qed.

(** ** One call of [step] *)

Lemma step_cached r st code :
  running r = true -> getStatement r = Some st -> run st = Some code ->
  step r = (exec code;; read running) (set_curpc (curpc r + 1) r).
Proof.
  intros Hr Hs Hc. unfold step. rewrite Hr, Hs. cbn [negb].
  unfold compileStatement. rewrite Hc. reflexivity.
Qed.

Lemma step_compile r st g :
  running r = true -> getStatement r = Some st -> run st = None ->
  stmtfn (command (stmt st)) = Some g ->
  step r = (code ← g; setRun (Z.to_nat (curpc r)) code;; exec code;; read running)
             (set_curpc (curpc r + 1) r).
Proof.
  intros Hr Hs Hc Hg. unfold step. rewrite Hr, Hs. cbn [negb].
  unfold compileStatement. rewrite Hc, Hg. rm. cbn.
  destruct (g _); reflexivity.
Qed.

Lemma getStatement_lookup r st :
  getStatement r = Some st -> allstmts r !! Z.to_nat (curpc r) = Some st.
Proof. unfold getStatement. destruct (curpc r <? 0); [discriminate|auto]. Qed.

(** What a call of [step] that executes a statement leaves behind. *)
Lemma step_executed r st b r' :
  running r = true -> getStatement r = Some st -> step r = Done b r' ->
  exists code,
    allstmts r' !! Z.to_nat (curpc r) = Some {| stmt := stmt st; run := Some code |}
    /\ (run st = Some code \/ run st = None /\ compiledFrom st code)
    /\ b = negb (hasInput code)
    /\ forall i, i <> Z.to_nat (curpc r) -> allstmts r' !! i = allstmts r !! i.
Proof.
  intros Hr Hs Hstep.
  assert (Hexec : forall code r1,
            running r1 = true ->
            (exec code;; read running) r1 = Done b r' ->
            allstmts r' = allstmts r1 /\ b = negb (hasInput code)).
  { intros code r1 Hr1 He. rm. destruct (exec code r1) as [[] r2| | |] eqn:Hx; try discriminate He.
    injection He as <- <-.
    pose proof (exec_keepsCode code r1) as Hk. rewrite Hx in Hk. destruct Hk as [Hk _].
    split; [exact Hk|].
    destruct (hasInput code) eqn:Hi.
    - apply (exec_input_suspends _ _ _ Hi Hx).
    - destruct (exec_no_input _ _ _ Hi Hx) as [_ ->]. exact Hr1. }
  pose proof (getStatement_lookup _ _ Hs) as Hl.
  destruct (run st) as [code|] eqn:Hrun.
  - rewrite (step_cached _ _ _ Hr Hs Hrun) in Hstep.
    destruct (Hexec code (set_curpc (curpc r + 1) r) Hr Hstep) as [Ha Hb]. cbn in Ha.
    exists code. rewrite Ha. repeat split; auto.
    rewrite Hl. destruct st; cbn in *; congruence.
  - destruct (stmtfn (command (stmt st))) as [g|] eqn:Hg.
    + rewrite (step_compile _ _ _ Hr Hs Hrun Hg) in Hstep.
      unfold mbind at 1, R_bind, rbind in Hstep.
      pose proof (st_stmtfn keepsRunning Frame_keepsRunning _ _ Hg (set_curpc (curpc r + 1) r)) as Hc.
      destruct (g (set_curpc (curpc r + 1) r)) as [code r1| | |] eqn:Hgr; try discriminate Hstep.
      destruct Hc as [Hc1 Hc2]. cbn in Hc1, Hc2.
      unfold mbind at 1, R_bind, rbind, setRun, update in Hstep.
      destruct (Hexec code _ (eq_trans Hc2 Hr : running (set_allstmts _ r1) = true) Hstep) as [Ha Hb]. cbn in Ha.
      exists code. rewrite Ha, Hc1. repeat split; auto.
      * rewrite list_lookup_alter_eq, Hl. reflexivity.
      * right. split; [reflexivity|]. exists g, (set_curpc (curpc r + 1) r), r1. auto.
      * intros i Hi. apply list_lookup_alter_ne. auto.
    + unfold step in Hstep. rewrite Hr, Hs in Hstep. cbn [negb] in Hstep.
      unfold compileStatement in Hstep. rewrite Hrun, Hg in Hstep. discriminate Hstep.
Qed.

(** ** Binary64 arithmetic *)

Lemma fexp_eq k : fexp prec emax k = Z.max (k - 53) (-1074).
Proof. reflexivity. Qed.

Lemma digits2_bounds p :
  2 ^ (Zpos (digits2_pos p) - 1) <= Zpos p < 2 ^ Zpos (digits2_pos p).
Proof.
  induction p as [p IH|p IH|]; cbn [digits2_pos].
  - rewrite Pos2Z.inj_succ. replace (Z.succ (Zpos (digits2_pos p)) - 1) with (Zpos (digits2_pos p)) by lia.
    rewrite Z.pow_succ_r by lia.
    replace (2 ^ Zpos (digits2_pos p)) with (2 * 2 ^ (Zpos (digits2_pos p) - 1)) in *
      by (rewrite <- Z.pow_succ_r by lia; f_equal; lia).
    lia.
  - rewrite Pos2Z.inj_succ. replace (Z.succ (Zpos (digits2_pos p)) - 1) with (Zpos (digits2_pos p)) by lia.
    rewrite Z.pow_succ_r by lia.
    replace (2 ^ Zpos (digits2_pos p)) with (2 * 2 ^ (Zpos (digits2_pos p) - 1)) in *
      by (rewrite <- Z.pow_succ_r by lia; f_equal; lia).
    lia.
  - cbn. lia.
Qed.

Lemma Zdigits2_nonneg m : 0 <= Zdigits2 m.
Proof. destruct m; cbn; lia. Qed.

Lemma Zdigits2_bound m : 0 <= m -> m < 2 ^ Zdigits2 m.
Proof.
  destruct m as [|p|p]; cbn [Zdigits2]; intros H; [cbn; lia| |lia].
  apply digits2_bounds.
Qed.

Lemma Zdigits2_le m k : 0 <= k -> 0 <= m < 2 ^ k -> Zdigits2 m <= k.
Proof.
  intros Hk [H0 Hm]. destruct m as [|p|p]; cbn [Zdigits2]; [lia| |lia].
  destruct (digits2_bounds p) as [Hl _].
  destruct (Z_le_gt_dec (Zpos (digits2_pos p)) k) as [|Hgt]; [assumption|].
  assert (2 ^ k <= 2 ^ (Zpos (digits2_pos p) - 1)) by (apply Z.pow_le_mono_r; lia).
  lia.
Qed.

Lemma Zdigits2_mono a b : 0 <= a <= b -> Zdigits2 a <= Zdigits2 b.
Proof.
  intros [Ha Hab]. apply Zdigits2_le; [apply Zdigits2_nonneg|].
  split; [assumption|]. pose proof (Zdigits2_bound b). lia.
Qed.

Lemma Zdigits2_mul_pow m k : 0 < m -> 0 <= k -> Zdigits2 (m * 2 ^ k) = Zdigits2 m + k.
Proof.
  intros Hm Hk.
  assert (Hpos : 0 < m * 2 ^ k) by (apply Z.mul_pos_pos; [lia|apply Z.pow_pos_nonneg; lia]).
  destruct m as [|p|p]; try lia.
  destruct (Zpos p * 2 ^ k) as [|q|q] eqn:Hq; try lia.
  cbn [Zdigits2].
  destruct (digits2_bounds p) as [Hp1 Hp2]. destruct (digits2_bounds q) as [Hq1 Hq2].
  rewrite <- Hq in Hq1, Hq2.
  assert (H1 : Zpos (digits2_pos q) <= Zpos (digits2_pos p) + k).
  { destruct (Z_le_gt_dec (Zpos (digits2_pos q)) (Zpos (digits2_pos p) + k)); [assumption|].
    assert (2 ^ (Zpos (digits2_pos p) + k) <= 2 ^ (Zpos (digits2_pos q) - 1))
      by (apply Z.pow_le_mono_r; lia).
    rewrite Z.pow_add_r in H by lia.
    assert (Zpos p * 2 ^ k < 2 ^ Zpos (digits2_pos p) * 2 ^ k)
      by (apply Z.mul_lt_mono_pos_r; [apply Z.pow_pos_nonneg; lia|lia]).
    lia. }
  assert (H2 : Zpos (digits2_pos p) + k <= Zpos (digits2_pos q)).
  { destruct (Z_le_gt_dec (Zpos (digits2_pos p) + k) (Zpos (digits2_pos q))); [assumption|].
    assert (2 ^ Zpos (digits2_pos q) <= 2 ^ (Zpos (digits2_pos p) - 1 + k))
      by (apply Z.pow_le_mono_r; lia).
    rewrite Z.pow_add_r in H by lia.
    assert (2 ^ (Zpos (digits2_pos p) - 1) * 2 ^ k <= Zpos p * 2 ^ k)
      by (apply Z.mul_le_mono_nonneg_r; [apply Z.pow_nonneg; lia|lia]).
    lia. }
  lia.
Qed.

Lemma iter_xO_value m k : Zpos (Pos.iter xO m k) = Zpos m * 2 ^ Zpos k.
Proof.
  induction k as [|k IH] using Pos.peano_ind.
  - cbn. lia.
  - rewrite Pos.iter_succ, Pos2Z.inj_succ, Z.pow_succ_r by lia.
    rewrite Pos2Z.inj_xO, IH. lia.
Qed.

(** [shl_align] keeps the value and lowers the exponent to the smaller one. *)
Lemma shl_align_spec m e e' :
  snd (shl_align m e e') = Z.min e e'
  /\ Zpos (fst (shl_align m e e')) = Zpos m * 2 ^ (e - Z.min e e').
Proof.
  unfold shl_align. destruct (e' - e) as [|d|d] eqn:Hd; cbn [fst snd].
  - rewrite Z.min_l by lia. rewrite Z.sub_diag. cbn. lia.
  - rewrite Z.min_l by lia. rewrite Z.sub_diag. cbn. lia.
  - rewrite Z.min_r by lia. split; [reflexivity|].
    rewrite iter_xO_value. f_equal. f_equal. lia.
Qed.

(** *** Shifting right and rounding *)

Lemma iter_pos_invariant {A : Type} (f : A -> A) (Inv : nat -> A -> Prop) :
  (forall k x, Inv k x -> Inv (S k) (f x)) ->
  forall n k x, Inv k x -> Inv (k + Pos.to_nat n)%nat (SpecFloat.iter_pos f n x).
Proof.
  intros Hstep n. induction n as [p IH|p IH|]; intros k x Hx; cbn [SpecFloat.iter_pos].
  - rewrite Pos2Nat.inj_xI.
    replace (k + S (2 * Pos.to_nat p))%nat with (S k + Pos.to_nat p + Pos.to_nat p)%nat by lia.
    apply IH, IH, Hstep, Hx.
  - rewrite Pos2Nat.inj_xO.
    replace (k + 2 * Pos.to_nat p)%nat with (k + Pos.to_nat p + Pos.to_nat p)%nat by lia.
    apply IH, IH, Hx.
  - replace (k + Pos.to_nat 1)%nat with (S k) by lia. apply Hstep, Hx.
Qed.

Lemma shr_1_digits mrs :
  0 <= shr_m mrs ->
  0 <= shr_m (shr_1 mrs)
  /\ Zdigits2 (shr_m (shr_1 mrs)) = Z.max 0 (Zdigits2 (shr_m mrs) - 1).
Proof.
  destruct mrs as [m r s]. cbn [shr_m]. intros Hm.
  destruct m as [|[p|p|]|p]; cbn [shr_1 shr_m Zdigits2 digits2_pos]; try lia.
Qed.

Lemma shr_digits mrs e n :
  0 <= shr_m mrs ->
  0 <= shr_m (fst (shr mrs e n))
  /\ Zdigits2 (shr_m (fst (shr mrs e n))) <= Z.max 0 (Zdigits2 (shr_m mrs) - Z.max 0 n)
  /\ snd (shr mrs e n) = e + Z.max 0 n.
Proof.
  intros Hm. unfold shr. destruct n as [|p|p]; cbn [fst snd].
  - pose proof (Zdigits2_nonneg (shr_m mrs)). lia.
  - pose (Inv := fun (k : nat) (x : shr_record) =>
                   0 <= shr_m x
                   /\ Zdigits2 (shr_m x) <= Z.max 0 (Zdigits2 (shr_m mrs) - Z.of_nat k)).
    assert (H : Inv (0 + Pos.to_nat p)%nat (SpecFloat.iter_pos shr_1 p mrs)).
    { apply iter_pos_invariant.
      - intros k x [H1 H2]. destruct (shr_1_digits x H1) as [H3 H4].
        split; [exact H3|]. rewrite H4. lia.
      - split; [exact Hm|]. pose proof (Zdigits2_nonneg (shr_m mrs)). cbn. lia. }
    destruct H as [H1 H2]. rewrite Nat.add_0_l, positive_nat_Z in H2.
    repeat split; auto; lia.
  - pose proof (Zdigits2_nonneg (shr_m mrs)). lia.
Qed.

Lemma shr_record_of_loc_m m l : shr_m (shr_record_of_loc m l) = m.
Proof. destruct l as [|[]]; reflexivity. Qed.

Lemma round_nearest_even_bounds m l :
  0 <= m -> m <= round_nearest_even m l <= m + 1.
Proof.
  intros Hm. destruct l as [|[]]; cbn [round_nearest_even]; try lia.
  destruct (Z.even m); lia.
Qed.

Lemma Zdigits2_succ m : 0 <= m -> Zdigits2 (m + 1) <= Zdigits2 m + 1.
Proof.
  intros Hm. pose proof (Zdigits2_nonneg m). pose proof (Zdigits2_bound m Hm).
  apply Zdigits2_le; [lia|]. rewrite Z.pow_add_r by lia. lia.
Qed.

(** Rounding a value that is not negative, of at most 53 digits above
    the binary point and with no exponent above 0, gives a zero or a
    finite number of the given sign. *)

Lemma binary_round_aux_finite s m e l :
  0 <= m -> Zdigits2 m + e <= 53 -> e <= 0 ->
  zeroOrFinite s (binary_round_aux prec emax s m e l).
Proof.
  intros Hm Hd He. unfold binary_round_aux, shr_fexp.
  set (n1 := fexp prec emax (Zdigits2 m + e) - e).
  pose proof (shr_digits (shr_record_of_loc m l) e n1) as H1.
  rewrite shr_record_of_loc_m in H1. specialize (H1 Hm).
  destruct (shr (shr_record_of_loc m l) e n1) as [mrs1 e1]. cbn [fst snd] in H1.
  destruct H1 as (H1a & H1b & H1c).
  set (m2 := round_nearest_even (shr_m mrs1) (loc_of_shr_record mrs1)).
  pose proof (round_nearest_even_bounds (shr_m mrs1) (loc_of_shr_record mrs1) H1a) as Hm2.
  fold m2 in Hm2.
  assert (Hn1 : e1 <= 0 /\ Zdigits2 (shr_m mrs1) + e1 <= 53).
  { subst n1. rewrite fexp_eq in *. lia. }
  assert (Hd2 : Zdigits2 m2 <= Zdigits2 (shr_m mrs1) + 1).
  { etransitivity; [apply (Zdigits2_mono m2 (shr_m mrs1 + 1)); lia|].
    apply Zdigits2_succ. exact H1a. }
  set (n2 := fexp prec emax (Zdigits2 m2 + e1) - e1).
  pose proof (shr_digits (shr_record_of_loc m2 loc_Exact) e1 n2) as H2.
  rewrite shr_record_of_loc_m in H2. specialize (H2 ltac:(lia)).
  destruct (shr (shr_record_of_loc m2 loc_Exact) e1 n2) as [mrs2 e2]. cbn [fst snd] in H2.
  destruct H2 as (H2a & H2b & H2c).
  destruct (shr_m mrs2) as [|p|p]; [reflexivity| |lia].
  assert (He2 : e2 <= 971). { subst n2. rewrite fexp_eq in *. lia. }
  change (emax - prec) with 971.
  destruct (Z.leb_spec e2 971); [reflexivity|lia].
Qed.

Lemma binary_round_finite s m e :
  Zpos (digits2_pos m) + e <= 53 -> e <= 0 ->
  zeroOrFinite s (binary_round prec emax s m e).
Proof.
  intros Hd He. unfold binary_round.
  destruct (shl_align_spec m e (fexp prec emax (Zpos (digits2_pos m) + e))) as [H1 H2].
  destruct (shl_align m e _) as [mz ez]. cbn [fst snd] in H1, H2.
  apply binary_round_aux_finite; [lia| |lia].
  rewrite H2. rewrite Zdigits2_mul_pow by lia. cbn [Zdigits2]. lia.
Qed.

Lemma binary_normalize_finite m e :
  0 <= m -> Zdigits2 m + e <= 53 -> e <= 0 ->
  zeroOrFinite false (binary_normalize prec emax m e false).
Proof.
  intros Hm Hd He. destruct m as [|p|p]; [reflexivity| |lia].
  apply binary_round_finite; assumption.
Qed.

(** *** Integers and [Math.floor] *)

(** A positive integer below [2^53] is represented exactly. *)
Lemma binary_round_small s n :
  Zpos (digits2_pos n) <= 53 ->
  exists mF eF,
    binary_round prec emax s n 0 = S754_finite s mF eF
    /\ valid_binary (S754_finite s mF eF) = true
    /\ eF <= 0
    /\ Zpos mF = Zpos n * 2 ^ (- eF)
    /\ Zpos (digits2_pos mF) = 53.
Proof.
  intros Hd. unfold binary_round.
  pose proof (digits2_bounds n) as Hn.
  assert (Hd0 : 0 < Zpos (digits2_pos n)) by lia.
  destruct (shl_align_spec n 0 (fexp prec emax (Zpos (digits2_pos n) + 0))) as [H1 H2].
  destruct (shl_align n 0 _) as [mz ez]. cbn [fst snd] in H1, H2.
  rewrite fexp_eq in H1, H2.
  assert (Hez : ez = Zpos (digits2_pos n) - 53) by lia.
  assert (Hdz : Zdigits2 (Zpos mz) = 53).
  { rewrite H2, Zdigits2_mul_pow by lia. cbn [Zdigits2]. lia. }
  exists mz, ez.
  assert (Hfexp : fexp prec emax (53 + ez) - ez = 0) by (rewrite fexp_eq; lia).
  split; [|split; [|split; [|split]]].
  - unfold binary_round_aux, shr_fexp. cbn [shr_record_of_loc].
    rewrite Hdz, Hfexp. cbn [shr shr_m loc_of_shr_record round_nearest_even shr_record_of_loc].
    rewrite Hdz, Hfexp. cbn [shr shr_m].
    change (emax - prec) with 971.
    destruct (Z.leb_spec ez 971); [reflexivity|lia].
  - cbn [valid_binary]. unfold bounded, canonical_mantissa.
    cbn [Zdigits2] in Hdz. rewrite Hdz, fexp_eq.
    change (emax - prec) with 971.
    apply andb_true_intro. split; [apply Z.eqb_eq|apply Z.leb_le]; lia.
  - lia.
  - rewrite H2. f_equal. f_equal. lia.
  - exact Hdz.
Qed.

Lemma SF_of_int_small s n :
  0 < n < 2 ^ 53 ->
  exists mF eF,
    JS.SF_of_int s n = S754_finite s mF eF
    /\ valid_binary (S754_finite s mF eF) = true
    /\ eF <= 0
    /\ Zpos mF = n * 2 ^ (- eF)
    /\ Zpos (digits2_pos mF) = 53.
Proof.
  intros [H0 Hn]. destruct n as [|p|p]; try lia.
  assert (Hd : Zpos (digits2_pos p) <= 53).
  { apply (Zdigits2_le (Zpos p) 53); lia. }
  unfold JS.SF_of_int. destruct s; cbn [Z.opp binary_normalize]; apply binary_round_small, Hd.
Qed.

Lemma valid_digits s m e :
  valid_binary (S754_finite s m e) = true -> Zpos (digits2_pos m) <= 53 /\ -1074 <= e.
Proof.
  cbn [valid_binary]. unfold bounded, canonical_mantissa. rewrite fexp_eq.
  intros H. apply andb_prop in H. destruct H as [H _]. apply Z.eqb_eq in H. lia.
Qed.

(** [x - Math.floor(x)] on the representations. *)
Lemma SFsub_SFfloor X :
  valid_binary X = true ->
  valid_binary (JS.SFfloor X) = true
  /\ match X with
     | S754_zero _ | S754_finite _ _ _ =>
         zeroOrFinite false (SFsub prec emax X (JS.SFfloor X))
     | _ => SFsub prec emax X (JS.SFfloor X) = S754_nan
     end.
Proof.
  intros Hv. destruct X as [s|s| |s m e]; cbn [JS.SFfloor].
  - split; [reflexivity|]. destruct s; reflexivity.
  - split; [reflexivity|]. destruct s; reflexivity.
  - split; reflexivity.
  - destruct (Z.leb_spec 0 e) as [He|He].
    + split; [exact Hv|]. cbn [SFsub]. rewrite Z.sub_diag. reflexivity.
    + destruct (valid_digits _ _ _ Hv) as [Hd _].
      pose proof (digits2_bounds m) as [_ Hm].
      assert (Hm53 : Zpos m < 2 ^ 53).
      { eapply Z.lt_le_trans; [exact Hm|]. apply Z.pow_le_mono_r; lia. }
      set (k := - e). assert (Hk : 0 < k) by lia.
      assert (Hq : Z.shiftr (Zpos m) k = Zpos m / 2 ^ k) by (apply Z.shiftr_div_pow2; lia).
      assert (Hr : Z.land (Zpos m) (Z.ones k) = Zpos m mod 2 ^ k) by (apply Z.land_ones; lia).
      rewrite Hq, Hr.
      assert (Hpk : 2 <= 2 ^ k).
      { change 2 with (2 ^ 1) at 1. apply Z.pow_le_mono_r; lia. }
      pose proof (Z.div_mod (Zpos m) (2 ^ k) ltac:(lia)) as Hdm.
      pose proof (Z.mod_pos_bound (Zpos m) (2 ^ k) ltac:(lia)) as Hmod.
      set (q := Zpos m / 2 ^ k) in *. set (r := Zpos m mod 2 ^ k) in *.
      assert (Hq0 : 0 <= q) by (subst q; apply Z.div_pos; lia).
      assert (Hq52 : q < 2 ^ 52).
      { change (2 ^ 53) with (2 * 2 ^ 52) in Hm53. nia. }
      set (n := if s then (if r =? 0 then q else q + 1) else q).
      assert (Hn : 0 <= n < 2 ^ 53 /\ (if s then Zpos m <= n * 2 ^ k else n * 2 ^ k <= Zpos m)).
      { change (2 ^ 53) with (2 * 2 ^ 52). subst n.
        destruct s; [destruct (Z.eqb_spec r 0)|]; nia. }
      destruct Hn as [Hn Hcmp].
      destruct (Z.eq_dec n 0) as [Hn0|Hn0].
      * rewrite Hn0. cbn [JS.SF_of_int]. split; [reflexivity|].
        cbn [SFsub]. destruct s; [|reflexivity]. nia.
      * destruct (SF_of_int_small s n ltac:(lia)) as (mF & eF & HF & HvF & HeF & HmF & HdF).
        rewrite HF. split; [exact HvF|]. cbn [SFsub].
        set (ez := Z.min e eF).
        destruct (shl_align_spec m e ez) as [_ H1].
        destruct (shl_align_spec mF eF ez) as [_ H2].
        rewrite H1, H2.
        replace (Z.min e ez) with ez by (subst ez; lia).
        replace (Z.min eF ez) with ez by (subst ez; lia).
        assert (Hez : ez <= e /\ ez <= eF /\ ez <= 0) by (subst ez; lia).
        assert (HF2 : Zpos mF * 2 ^ (eF - ez) = n * 2 ^ (- ez)).
        { rewrite HmF, <- Z.mul_assoc, <- Z.pow_add_r by lia. f_equal. f_equal. lia. }
        assert (HX2 : 2 ^ (- ez) = 2 ^ k * 2 ^ (e - ez)).
        { rewrite <- Z.pow_add_r by lia. f_equal. subst k. lia. }
        rewrite HF2.
        assert (Hp : 0 < 2 ^ (e - ez)) by (apply Z.pow_pos_nonneg; lia).
        assert (Hdm' : Zdigits2 (Zpos m * 2 ^ (e - ez)) + ez <= 53).
        { rewrite Zdigits2_mul_pow by lia. cbn [Zdigits2]. lia. }
        assert (Hdn' : Zdigits2 (n * 2 ^ (- ez)) + ez <= 53).
        { rewrite Zdigits2_mul_pow by lia.
          pose proof (Zdigits2_le n 53 ltac:(lia) ltac:(lia)). lia. }
        apply binary_normalize_finite; [| |lia].
        -- rewrite HX2. destruct s; cbn [cond_Zopp]; nia.
        -- destruct s; cbn [cond_Zopp].
           ++ etransitivity; [|exact Hdn'].
              apply Z.add_le_mono_r, Zdigits2_mono. rewrite HX2. nia.
           ++ etransitivity; [|exact Hdm'].
              apply Z.add_le_mono_r, Zdigits2_mono. rewrite HX2. nia.
Qed.

(** *** FIX *)

Lemma Prim2SF_zero : Prim2SF 0 = S754_zero false.
Proof. reflexivity. Qed.

Lemma Prim2SF_infinity : Prim2SF infinity = S754_infinity false.
Proof. reflexivity. Qed.

Lemma isFinite_spec x :
  JS.isFinite x = match Prim2SF x with
                  | S754_zero _ | S754_finite _ _ _ => true
                  | _ => false
                  end.
Proof.
  unfold JS.isFinite. rewrite FloatAxioms.ltb_spec, FloatAxioms.abs_spec, Prim2SF_infinity.
  destruct (Prim2SF x) as [s|s| |s m e]; try destruct s; reflexivity.
Qed.

Lemma isNaN_spec x :
  JS.isNaN x = match Prim2SF x with S754_nan => true | _ => false end.
Proof.
  unfold JS.isNaN. rewrite FloatAxioms.eqb_spec. unfold SFeqb.
  destruct (Prim2SF x) as [s|s| |s m e]; try destruct s; cbn [SFcompare negb];
    rewrite ?Z.compare_refl, ?Pos.compare_cont_refl; reflexivity.
Qed.

Lemma Prim2SF_fraction x :
  Prim2SF (x - JS.Math_floor x)
  = SFsub prec emax (Prim2SF x) (JS.SFfloor (Prim2SF x)).
Proof.
  rewrite FloatAxioms.sub_spec. unfold JS.Math_floor, SF64sub.
  rewrite Prim2SF_SF2Prim; [reflexivity|].
  apply SFsub_SFfloor, Prim2SF_valid.
Qed.

(** The fractional part of a finite number is a number that is not
    negative; there is none for an infinity or a NaN. *)
Lemma fraction_spec x :
  if JS.isFinite x
  then (x - JS.Math_floor x =? infinity)%float = false
       /\ JS.isNaN (x - JS.Math_floor x) = false
       /\ (0 <=? x - JS.Math_floor x)%float = true
  else (x - JS.Math_floor x =? infinity)%float = false
       /\ JS.isNaN (x - JS.Math_floor x) = true.
Proof.
  rewrite isFinite_spec, isNaN_spec, FloatAxioms.eqb_spec, FloatAxioms.leb_spec, Prim2SF_fraction,
    Prim2SF_infinity, Prim2SF_zero.
  destruct (SFsub_SFfloor (Prim2SF x) (Prim2SF_valid x)) as [_ H].
  destruct (Prim2SF x) as [s|s| |s m e].
  - destruct (SFsub _ _ _ _) as [s'|s'| |s' m' e']; cbn in H; try contradiction;
      subst s'; repeat split.
  - rewrite H. repeat split.
  - rewrite H. repeat split.
  - destruct (SFsub _ _ _ _) as [s'|s'| |s' m' e']; cbn in H; try contradiction;
      subst s'; repeat split.
Qed.

(** A [step] that executes a statement whose code is known: the code
    runs in the state with the program counter advanced and the code in
    the statement's slot. *)
Lemma step_runs r st g code :
  running r = true -> getStatement r = Some st ->
  stmtfn (command (stmt st)) = Some g ->
  (g (set_curpc (curpc r + 1) r) = Done code (set_curpc (curpc r + 1) r)) ->
  (forall c, run st = Some c -> c = code) ->
  exists a,
    a !! Z.to_nat (curpc r) = Some {| stmt := stmt st; run := Some code |}
    /\ (forall i, i <> Z.to_nat (curpc r) -> a !! i = allstmts r !! i)
    /\ step r = (exec code;; read running) (set_allstmts a (set_curpc (curpc r + 1) r)).
Proof.
  intros Hr Hs Hg Hc Hcache.
  pose proof (getStatement_lookup _ _ Hs) as Hl.
  destruct (run st) as [c|] eqn:Hrun.
  - rewrite (Hcache c eq_refl) in Hrun. exists (allstmts r). split; [|split].
    + rewrite Hl. destruct st; cbn in *; congruence.
    + reflexivity.
    + rewrite (step_cached _ _ _ Hr Hs Hrun). reflexivity.
  - exists (alter (fun st => {| stmt := stmt st; run := Some code |})
                  (Z.to_nat (curpc r)) (allstmts r)). split; [|split].
    + rewrite list_lookup_alter_eq, Hl. reflexivity.
    + intros i Hi. apply list_lookup_alter_ne. auto.
    + rewrite (step_compile _ _ _ Hr Hs Hrun Hg).
      unfold mbind at 1, R_bind, rbind. rewrite Hc. reflexivity.
Qed.

(** ** RESTORE *)

(** C1: the data cursor is reset while a RESTORE statement is compiled,
    and the code kept for the statement is empty.  A RESTORE statement
    that has no code yet sets the cursor to 0 when [step] executes it;
    one that already has its code leaves the cursor where it is.  In
    [restoreProgram] the statement RESTORE runs twice: the first time
    the READ after it yields the first datum, 1; the second time the
    cursor stays at 2 and the READ after it yields the third datum, 3. *)
Theorem restore_resets_on_first_execution_only :
  (forall r st, running r = true -> getStatement r = Some st ->
     command (stmt st) = RESTORE -> run st = None ->
     exists r', step r = Done true r' /\ dataptr r' = Some 0%nat
                /\ allstmts r' !! Z.to_nat (curpc r)
                   = Some {| stmt := stmt st; run := Some [] |})
  /\ (forall r st, running r = true -> getStatement r = Some st ->
        command (stmt st) = RESTORE -> cacheSound st -> run st <> None ->
        step r = Done true (set_curpc (curpc r + 1) r))
  /\ (r ← ran 2 restoreProgram; Some (dataptr r, vars r !! "X"))
       = Some (Some 1%nat, Some (VNum 1))
  /\ (r ← ran 4 restoreProgram; Some (dataptr r, vars r !! "Y"))
       = Some (Some 1%nat, Some (VNum 1))
  /\ (r ← ran 7 restoreProgram; Some (curpc r, command <$> (stmt <$> getStatement r),
                                         dataptr r, vars r !! "X"))
       = Some (2, Some RESTORE, Some 2%nat, Some (VNum 2))
  /\ (r ← ran 8 restoreProgram; Some (dataptr r)) = Some (Some 2%nat)
  /\ (r ← ran 9 restoreProgram; Some (dataptr r, vars r !! "Y"))
       = Some (Some 3%nat, Some (VNum 3)).
Proof.
  split; [|split].
  - intros r st Hr Hs Hc Hrun.
    rewrite (step_compile _ _ do__RESTORE Hr Hs Hrun) by (rewrite Hc; reflexivity).
    pose proof (getStatement_lookup _ _ Hs) as Hl.
    eexists. split; [rm; unfold do__RESTORE; rm; cbn; rewrite Hr; reflexivity|]. cbn.
    split; [reflexivity|]. rewrite list_lookup_alter_eq, Hl. reflexivity.
  - intros r st Hr Hs Hc Hsound Hrun.
    destruct (run st) as [code|] eqn:Hcode; [|congruence].
    destruct (Hsound _ Hcode) as (g & r0 & r1 & Hg & Hd).
    rewrite Hc in Hg. cbn in Hg. injection Hg as <-.
    cbv in Hd. injection Hd as <- _.
    rewrite (step_cached _ _ _ Hr Hs Hcode). rm. cbn. rewrite Hr. reflexivity.
  - vm_compute. repeat split; reflexivity.
Qed.

(** ** Claims on the parser *)

(** C2 (amended): [2^3^2] parses to pow(pow(2, 3), 2): exponentiation
    groups left to right, as every other operator does.  In general a
    chain of operands joined by operators that all have one and the same
    precedence, whichever operators they are, parses to the tree folded
    to the left. *)
Theorem ties_fold_left :
  shapeOf (parseExprOf budget "2^3^2")
    = Some (BinOp "pow" (BinOp "pow" (num 2) (num 3)) (num 2))
  /\ shapeOf (parseExprOf budget "8-3-2")
    = Some (BinOp "sub" (BinOp "sub" (num 8) (num 3)) (num 2))
  /\ shapeOf (parseExprOf budget "2*3/4")
    = Some (BinOp "div" (BinOp "mul" (num 2) (num 3)) (num 4))
  /\ forall (p : Z) (a0 : Token) (rest : list (Token * Token)) (q : Parser) (fuel : nat),
       0 <= p ->
       isOperand a0 = true ->
       forallb (tieAt (popts q) p) rest = true ->
       tokens q = a0 :: chainTokens rest ->
       type (eol q) = EOL -> str (eol q) = EmptyString ->
       (length rest + 4 <= fuel)%nat ->
       exists q', parseExpr fuel q = Ok (foldLeft (operandExpr a0) rest) q'
                  /\ tokens q' = [].
Proof.
  split; [vm_compute; reflexivity|]. split; [vm_compute; reflexivity|].
  split; [vm_compute; reflexivity|]. apply chain_left_assoc.
Qed.

(** The tree of [2^3^2] is not pow(2, pow(3, 2)). *)
Lemma pow_not_right_assoc :
  exists e, shapeOf (parseExprOf budget "2^3^2") = Some e
            /\ e <> BinOp "pow" (num 2) (BinOp "pow" (num 3) (num 2)).
Proof. eexists. split; [vm_compute; reflexivity|]. discriminate. Qed.

Lemma ties_fold_left_witness :
  exists q', parseExpr budget q0
    = Ok (BinOp "pow"
            (BinOp "pow" (Literal (VNum 2) (Some {| line := 1; start := 0; end_ := Some 1%nat |}))
                         (Literal (VNum 3) (Some {| line := 1; start := 2; end_ := Some 3%nat |})))
            (Literal (VNum 2) (Some {| line := 1; start := 4; end_ := Some 5%nat |}))) q'
    /\ tokens q' = [].
Proof.
  apply (proj2 (proj2 (proj2 ties_fold_left)) 300 (tok Int "2" 0 1)
           [(tok Operator "^" 1 2, tok Int "3" 2 3); (tok Operator "^" 3 4, tok Int "2" 4 5)]
           q0 budget);
    vm_compute; congruence || reflexivity || lia.
Defined.

(** ** FOR and NEXT *)

(** [startForLoop] assigns, records the current program counter and
    pushes; it compares nothing and moves nowhere. *)
Lemma startForLoop_pushes nm i t s r :
  startForLoop nm i t s r
  = Done tt (set_forLoops ({| pc := curpc r; forname := nm; targ := t;
                              fstep := match s with
                                       | Some v => if truthy v then v else VNum 1
                                       | None => VNum 1
                                       end |} :: forLoops r)
               (set_vars (<[nm := i]> (vars r)) r)).
Proof. reflexivity. Qed.

Lemma expr2js_number a la chk cst locals r :
  JS.isFinite a = true ->
  expr2js (Literal (VNum a) la) chk cst locals r = Done (JLit (VNum (jsonNumber a))) r.
Proof. intros H. cbn [expr2js]. unfold literal. rewrite H. reflexivity. Qed.

Lemma do__FOR_literal lexpr a la b lb s r :
  JS.isFinite a = true -> JS.isFinite b = true ->
  match s with Some (Literal (VNum x) _) => JS.isFinite x = true | Some _ => False | None => True end ->
  do__FOR lexpr (Literal (VNum a) la) (Literal (VNum b) lb) s r
  = Done [JStartForLoop (name lexpr) (JLit (VNum (jsonNumber a))) (JLit (VNum (jsonNumber b)))
            match s with
            | Some (Literal (VNum x) _) => Some (JLit (VNum (jsonNumber x)))
            | _ => None
            end] r.
Proof.
  intros Ha Hb Hs. unfold do__FOR. rm.
  rewrite !expr2js_number by assumption.
  destruct s as [[[x| | |] ?| | |]|]; try contradiction.
  - rewrite expr2js_number by assumption. reflexivity.
  - reflexivity.
Qed.

(** One [step] on a FOR statement whose bounds are literals. *)
Lemma step_FOR r st lexpr a la b lb s :
  running r = true -> getStatement r = Some st ->
  command (stmt st) = FOR lexpr (Literal (VNum a) la) (Literal (VNum b) lb) s ->
  cacheSound st ->
  JS.isFinite a = true -> JS.isFinite b = true ->
  match s with Some (Literal (VNum x) _) => JS.isFinite x = true | Some _ => False | None => True end ->
  exists r',
    step r = Done true r'
    /\ curpc r' = curpc r + 1
    /\ vars r' = <[name lexpr := VNum (jsonNumber a)]> (vars r)
    /\ forLoops r'
       = {| pc := curpc r + 1; forname := name lexpr; targ := VNum (jsonNumber b);
            fstep := VNum (stepOrOne match s with
                                     | Some (Literal (VNum x) _) => Some (jsonNumber x)
                                     | _ => None
                                     end) |} :: forLoops r.
Proof.
  intros Hr Hs Hc Hsound Ha Hb Hst.
  edestruct (step_runs r st (do__FOR lexpr (Literal (VNum a) la) (Literal (VNum b) lb) s))
    as (al & _ & _ & Hstep); [exact Hr|exact Hs| | | |].
  - rewrite Hc. reflexivity.
  - apply do__FOR_literal; assumption.
  - intros c Hrun. destruct (Hsound _ Hrun) as (g & r0 & r1 & Hg & Hd).
    rewrite Hc in Hg. cbn in Hg. injection Hg as <-.
    change (do__FOR lexpr (Literal (VNum a) la) (Literal (VNum b) lb) s r0 = Done c r1) in Hd.
    rewrite do__FOR_literal in Hd by assumption. injection Hd as <- _. reflexivity.
  - rewrite Hstep.
    destruct s as [[[x| | |] ?| | |]|]; try contradiction;
      (eexists; split;
       [unfold exec, execStmt, eval, startForLoop; rm; cbn; rewrite Hr; reflexivity|]);
      cbn; repeat split.
    unfold stepOrOne.
    destruct ((jsonNumber x =? 0)%float || JS.isNaN (jsonNumber x)); reflexivity.
Qed.

(** The closure [next] on a numeric loop. *)
Lemma next_numeric fl nm r v t s :
  (nm = None \/ nm = Some (forname fl)) ->
  targ fl = VNum t -> fstep fl = VNum s ->
  vars r !! forname fl = Some (VNum v) ->
  next fl nm r
  = Done tt (let r1 := set_vars (<[forname fl := VNum (v + s)]> (vars r)) r in
             if passed s t (v + s) then set_forLoops (tail (forLoops r)) r1
             else set_curpc (pc fl) r1).
Proof.
  intros Hnm Ht Hst Hv. unfold next, passed.
  assert (Hguard : (match nm with
                    | Some n => nonEmpty n && negb (String.eqb (forname fl) n)
                    | None => false
                    end) = false).
  { destruct Hnm as [->| ->]; [reflexivity|].
    rewrite String.eqb_refl. apply andb_false_r. }
  destruct nm as [n|]; [rewrite Hguard|]; rm; cbn; rewrite Hv, Hst, Ht; cbn;
    destruct (0 <=? s)%float; destruct (_ <? _)%float; reflexivity.
Qed.

(** One [step] on a NEXT statement, the innermost loop being numeric. *)
Lemma step_NEXT r st lexpr fl rest v t s :
  running r = true -> getStatement r = Some st ->
  command (stmt st) = NEXT lexpr ->
  (lexpr = None \/ exists a loc, lexpr = Some (Lookup (forname fl) a loc)) ->
  cacheSound st ->
  forLoops r = fl :: rest ->
  targ fl = VNum t -> fstep fl = VNum s ->
  vars r !! forname fl = Some (VNum v) ->
  exists r',
    step r = Done true r'
    /\ vars r' = <[forname fl := VNum (v + s)]> (vars r)
    /\ forLoops r' = (if passed s t (v + s) then rest else fl :: rest)
    /\ curpc r' = (if passed s t (v + s) then curpc r + 1 else pc fl).
Proof.
  intros Hr Hs Hc Hl Hsound Hfl Ht Hst Hv.
  set (nm := match lexpr with Some (Lookup n _ _) => Some n | _ => None end).
  assert (Hnm : nm = None \/ nm = Some (forname fl)).
  { subst nm. destruct Hl as [->|(a & loc & ->)]; auto. }
  edestruct (step_runs r st (do__NEXT lexpr) [JNextForLoop nm])
    as (al & _ & _ & Hstep); [exact Hr|exact Hs| | | |].
  - rewrite Hc. reflexivity.
  - reflexivity.
  - intros c Hrun. destruct (Hsound _ Hrun) as (g & r0 & r1 & Hg & Hd).
    rewrite Hc in Hg. cbn in Hg. injection Hg as <-.
    cbv [do__NEXT mret R_ret rret] in Hd. injection Hd as <- _. reflexivity.
  - rewrite Hstep. clear Hstep.
    unfold exec, execStmt, nextForLoop. rm. cbn [forLoops set_allstmts set_curpc].
    rewrite Hfl.
    rewrite (next_numeric fl nm (set_allstmts al (set_curpc (curpc r + 1) r)) v t s Hnm Ht Hst Hv). cbn.
    rewrite Hfl. destruct (passed s t (v + s)); cbn; rewrite ?Hr;
      eexists; (split; [reflexivity|]); cbn; rewrite ?Hfl; repeat split.
Qed.

(** C3 (amended): in [countingProgram], FOR I=1 TO 3 with a PRINT as
    body and NEXT I, the body is executed three times, with I = 1, 2, 3
    in that order, and the run then falls through to the end with the
    loop stack empty.  In general a FOR statement records the program
    counter that [step] has already advanced, the one of the statement
    after the FOR; NEXT adds the step to the loop variable and pops the
    loop exactly when the new value passes the target (above it for a
    step that is not negative, below it for a negative one), and
    otherwise sets the program counter to the recorded one, so that the
    statement after the FOR runs next and the FOR is not executed again. *)
Theorem for_next_loop :
  trace 12 "I" (booted countingProgram)
    = [(0, None); (1, Some (VNum 1)); (2, Some (VNum 1)); (1, Some (VNum 2));
       (2, Some (VNum 2)); (1, Some (VNum 3)); (2, Some (VNum 3))]
  /\ (r ← ran 12 countingProgram; Some (curpc r, exited r, forLoops r, output r))
       = Some (3, true, [], [" 1 "; nl; " 2 "; nl; " 3 "; nl])
  /\ (forall r st lexpr a la b lb,
        running r = true -> getStatement r = Some st ->
        command (stmt st) = FOR lexpr (Literal (VNum a) la) (Literal (VNum b) lb) None ->
        cacheSound st -> JS.isFinite a = true -> JS.isFinite b = true ->
        exists r',
          step r = Done true r'
          /\ forLoops r' = {| pc := curpc r + 1; forname := name lexpr;
                              targ := VNum (jsonNumber b); fstep := VNum 1 |} :: forLoops r)
  /\ (forall r st lexpr fl rest v t s,
        running r = true -> getStatement r = Some st ->
        command (stmt st) = NEXT lexpr ->
        (lexpr = None \/ exists a loc, lexpr = Some (Lookup (forname fl) a loc)) ->
        cacheSound st ->
        forLoops r = fl :: rest ->
        targ fl = VNum t -> fstep fl = VNum s ->
        vars r !! forname fl = Some (VNum v) ->
        exists r',
          step r = Done true r'
          /\ vars r' = <[forname fl := VNum (v + s)]> (vars r)
          /\ forLoops r' = (if passed s t (v + s) then rest else fl :: rest)
          /\ curpc r' = (if passed s t (v + s) then curpc r + 1 else pc fl)).
Proof.
  split; [vm_compute; reflexivity|]. split; [vm_compute; reflexivity|]. split.
  - intros r st lexpr a la b lb Hr Hs Hc Hsound Ha Hb.
    destruct (step_FOR r st lexpr a la b lb None Hr Hs Hc Hsound Ha Hb I)
      as (r' & H1 & _ & _ & H2).
    exists r'. split; [exact H1|exact H2].
  - intros r st lexpr fl rest v t s. apply step_NEXT.
Qed.

(** The first NEXT of [countingProgram]: the FOR statement is at program
    counter 0 and NEXT sets the program counter to 1. *)
Lemma next_rewinds_past_FOR :
  exists r3,
    (commandName <$> (command <$> (stmt <$> allstmts (stateAfter 2 countingProgram) !! 0%nat)))
      = Some "FOR"
    /\ (commandName <$> (command <$> (stmt <$> getStatement (stateAfter 2 countingProgram))))
      = Some "NEXT"
    /\ step (stateAfter 2 countingProgram) = Done true r3
    /\ length (forLoops r3) = 1%nat
    /\ curpc r3 = 1
    /\ curpc r3 <> 0.
Proof.
  eexists. split; [vm_compute; reflexivity|]. split; [vm_compute; reflexivity|].
  split; [vm_compute; reflexivity|].
  split; [reflexivity|]. split; [reflexivity|]. discriminate.
Qed.

Lemma for_next_loop_witness :
  exists r3,
    step (stateAfter 2 countingProgram) = Done true r3
    /\ vars r3 !! "I" = Some (VNum 2)
    /\ curpc r3 = 1.
Proof.
  edestruct (proj2 (proj2 (proj2 for_next_loop)) (stateAfter 2 countingProgram))
    as (r3 & H3 & Hv & _ & Hpc).
  6: { vm_compute. reflexivity. }
  1: { reflexivity. }
  1: { vm_compute. reflexivity. }
  1: { reflexivity. }
  1: { right. eexists. eexists. reflexivity. }
  1: { intros c Hc. discriminate Hc. }
  1: { reflexivity. }
  1: { reflexivity. }
  1: { vm_compute. reflexivity. }
  exists r3. split; [exact H3|].
  split; [rewrite Hv; reflexivity|]. rewrite Hpc. reflexivity.
Defined.

(** ** step *)

(** C4 (amended): [step] returns [false] without executing anything when
    the runtime is not running, and when there is no statement at the
    program counter, in which case it also marks the run exited.
    Otherwise it advances the program counter by one and then executes
    the statement: with the cached code if the statement has some, and
    else with the code it compiles and stores in the statement; after
    the call the statement holds code, the same as before if it held
    some, and no other statement has changed.  When that call returns,
    it returns [false] for an INPUT statement, which suspends the run,
    and [true] for any other statement. *)
Theorem step_result_and_cache (r : Runtime) :
  (running r = false -> step r = Done false r)
  /\ (running r = true -> getStatement r = None ->
        step r = Done false (set_exited true (set_running false r)))
  /\ (forall st, running r = true -> getStatement r = Some st ->
        (forall code, run st = Some code ->
           step r = (exec code;; read running) (set_curpc (curpc r + 1) r))
        /\ (forall g, run st = None -> stmtfn (command (stmt st)) = Some g ->
              step r = (code ← g; setRun (Z.to_nat (curpc r)) code;;
                        exec code;; read running) (set_curpc (curpc r + 1) r))
        /\ (forall b r', step r = Done b r' ->
              exists code,
                allstmts r' !! Z.to_nat (curpc r)
                  = Some {| stmt := stmt st; run := Some code |}
                /\ (forall c, run st = Some c -> c = code)
                /\ (forall i, i <> Z.to_nat (curpc r) -> allstmts r' !! i = allstmts r !! i)
                /\ (cacheSound st -> b = negb (isINPUT (command (stmt st)))))).
Proof.
  split; [|split].
  - intros Hr. unfold step. rewrite Hr. reflexivity.
  - intros Hr Hs. unfold step. rewrite Hr, Hs. reflexivity.
  - intros st Hr Hs. split; [|split].
    + intros code Hc. exact (step_cached _ _ _ Hr Hs Hc).
    + intros g Hc Hg. exact (step_compile _ _ _ Hr Hs Hc Hg).
    + intros b r' Hstep.
      destruct (step_executed _ _ _ _ Hr Hs Hstep) as (code & Ha & Hc & Hb & Hi).
      exists code. repeat split; auto.
      * intros c Hrun. destruct Hc as [Hc|[Hc _]]; congruence.
      * intros Hsound. rewrite Hb. f_equal. apply compiled_hasInput.
        destruct Hc as [Hc|[_ Hc]]; auto.
Qed.

(** A running INPUT statement: [step] returns [false] although the
    runtime was running and there was a statement to execute. *)
Lemma step_false_on_INPUT :
  running (booted inputProgram) = true
  /\ getStatement (booted inputProgram) <> None
  /\ exists r', step (booted inputProgram) = Done false r' /\ exited r' = false.
Proof.
  split; [reflexivity|]. split; [vm_compute; discriminate|].
  eexists. split; [vm_compute; reflexivity|reflexivity].
Qed.

Lemma step_result_and_cache_witness :
  exists st b r',
    getStatement (booted inputProgram) = Some st
    /\ step (booted inputProgram) = Done b r'
    /\ b = negb (isINPUT (command (stmt st))).
Proof.
  destruct (getStatement (booted inputProgram)) as [st|] eqn:Hs;
    [|vm_compute in Hs; discriminate Hs].
  destruct (step (booted inputProgram)) as [b r'| | |] eqn:Hstep;
    try (vm_compute in Hstep; discriminate Hstep).
  exists st, b, r'. split; [reflexivity|]. split; [reflexivity|].
  destruct (proj2 (proj2 (step_result_and_cache (booted inputProgram))) st eq_refl Hs)
    as (_ & _ & H).
  destruct (H b r' Hstep) as (code & _ & _ & _ & Hb).
  apply Hb. intros c Hc.
  vm_compute in Hs. injection Hs as <-. discriminate Hc.
Defined.

(** ** INPUT *)

Lemma mapR_pure {A B : Type} (g : A -> R B) (h : A -> B) (l : list A) (r : Runtime) :
  List.Forall (fun a => g a r = Done (h a) r) l ->
  mapR g l r = Done (map h l) r.
Proof.
  induction 1 as [|a l Ha _ IH]; [reflexivity|].
  cbn [mapR map]. unfold mbind, R_bind, rbind, rret. rewrite Ha, IH. reflexivity.
Qed.

Lemma do__INPUT_plain p loc xs r :
  List.Forall (plainVariable r) xs ->
  do__INPUT (Literal (VStr p) loc) xs r = Done (inputCode p xs) r.
Proof.
  intros Hxs. unfold do__INPUT, inputCode.
  unfold mbind at 1, R_bind, rbind. cbn [expr2js literal].
  unfold mret at 1, R_ret, rret.
  unfold mbind at 1, R_bind, rbind.
  rewrite (mapR_pure _ (fun a => (JVar (name a), name a))); [reflexivity|].
  eapply List.Forall_impl; [|exact Hxs].
  intros a [Ha Hd]. unfold exprOfIndOp. cbn [expr2js existsb]. rewrite Ha.
  unfold mbind, mret, R_bind, R_ret, rbind, rret, read. rewrite Hd. reflexivity.
Qed.

Lemma exec_inputCode p xs r :
  (exec (inputCode p xs);; read running) r
  = Done false (set_pending (Some (inputRequest p xs)) (set_running false r)).
Proof. reflexivity. Qed.

Lemma setInputs_plain xs vals : forall index valid r,
  exists r',
    setInputs (map (fun a => (JVar (name a), name a)) xs) vals index valid r
      = Done (valid && inputsValid xs vals index) r'
    /\ sameButVars r r'.
Proof.
  induction xs as [|a l IH]; intros index valid r.
  - exists r. cbn. rewrite andb_true_r. unfold sameButVars. auto 10.
  - cbn [map setInputs inputsValid].
    unfold mbind at 1, R_bind, rbind, store, update.
    destruct (IH (S index) (valid && isValid (convert (name a) (rawInput vals index)))
                 (set_vars (<[name a := convert (name a) (rawInput vals index)]> (vars r)) r))
      as (r' & H1 & H2).
    exists r'. split.
    + unfold rawInput in *. rewrite H1. rewrite andb_assoc. reflexivity.
    + exact H2.
Qed.

(** Resolving the pending request of an INPUT statement. *)
Lemma resolveInput_plain p xs vals r :
  pending r = Some (inputRequest p xs) ->
  exists r',
    resolveInput vals r = Done tt r'
    /\ curpc r' = (if inputsValid xs vals 0 then curpc r else curpc r - 1)
    /\ running r' = true /\ pending r' = None /\ resumes r' = S (resumes r)
    /\ allstmts r' = allstmts r /\ defs r' = defs r.
Proof.
  intros Hp. unfold resolveInput. rm. rewrite Hp. cbn [setvals inputRequest].
  destruct (setInputs_plain xs vals 0 true (set_pending None r))
    as (r1 & H1 & H2 & H3 & H4 & H5 & H6 & H7 & H8).
  rewrite H1. cbn [andb].
  destruct (inputsValid xs vals 0); eexists; (split; [reflexivity|]); cbn;
    rewrite ?H2, ?H3, ?H5, ?H6, ?H7; repeat split.
Qed.

(** C5: a running INPUT statement with a literal prompt and plain
    variables makes [step] return [false] with the request pending and
    the program counter advanced.  When the request is resolved with
    values of which one does not coerce to a valid value of its
    variable, the run is not halted: the program counter goes back to
    the INPUT statement, the runtime is running again and is resumed,
    and the next [step] executes the INPUT statement again, leaving the
    same request, with the same prompt, pending.  When all the values
    are valid, the program counter stays after the INPUT statement. *)
Theorem input_retry (r : Runtime) (st : CompiledStatement) (p : string)
    (loc : option SourceLocation) (xs : list IndOp) (vals : list string) :
  running r = true ->
  getStatement r = Some st ->
  command (stmt st) = INPUT (Literal (VStr p) loc) xs ->
  (run st = None \/ run st = Some (inputCode p xs)) ->
  List.Forall (plainVariable r) xs ->
  exists r1 r2,
    step r = Done false r1
    /\ running r1 = false /\ pending r1 = Some (inputRequest p xs)
    /\ curpc r1 = curpc r + 1
    /\ resolveInput vals r1 = Done tt r2
    /\ running r2 = true /\ pending r2 = None /\ resumes r2 = S (resumes r)
    /\ (inputsValid xs vals 0 = true -> curpc r2 = curpc r + 1)
    /\ (inputsValid xs vals 0 = false ->
          curpc r2 = curpc r
          /\ (stmt <$> getStatement r2) = Some (stmt st)
          /\ exists r3,
               step r2 = Done false r3
               /\ running r3 = false /\ pending r3 = Some (inputRequest p xs)
               /\ curpc r3 = curpc r + 1).
Proof.
  intros Hr Hs Hc Hrun Hxs.
  destruct (step_runs r st (do__INPUT (Literal (VStr p) loc) xs) (inputCode p xs))
    as (al & Hal & _ & Hstep); auto.
  - rewrite Hc. reflexivity.
  - apply do__INPUT_plain. exact Hxs.
  - intros c Hcached. destruct Hrun as [Hrun|Hrun]; congruence.
  - rewrite exec_inputCode in Hstep.
    destruct (resolveInput_plain p xs vals
                (set_pending (Some (inputRequest p xs))
                   (set_running false (set_allstmts al (set_curpc (curpc r + 1) r)))))
      as (r2 & Hres & Hpc & Hrun2 & Hpend & Hresumes & Hall & Hdefs); [reflexivity|].
    cbn in Hpc, Hresumes, Hall, Hdefs.
    eexists. exists r2. split; [exact Hstep|].
    split; [reflexivity|]. split; [reflexivity|]. split; [reflexivity|].
    split; [exact Hres|]. split; [exact Hrun2|]. split; [exact Hpend|].
    split; [exact Hresumes|]. split.
    + intros Hv. rewrite Hv in Hpc. exact Hpc.
    + intros Hv. rewrite Hv in Hpc.
      assert (Hpc2 : curpc r2 = curpc r) by lia.
      assert (Hs2 : getStatement r2 = Some {| stmt := stmt st; run := Some (inputCode p xs) |}).
      { unfold getStatement in *. rewrite Hpc2, Hall.
        destruct (curpc r <? 0); [discriminate Hs|exact Hal]. }
      split; [exact Hpc2|]. split; [rewrite Hs2; reflexivity|].
      rewrite (step_cached r2 _ (inputCode p xs) Hrun2 Hs2 eq_refl).
      rewrite exec_inputCode. eexists. split; [reflexivity|]. cbn.
      repeat split. lia.
Qed.

Lemma input_retry_witness :
  exists r1 r2 r3,
    step (booted inputProgram) = Done false r1
    /\ resolveInput ["abc"] r1 = Done tt r2
    /\ curpc r2 = 0
    /\ step r2 = Done false r3
    /\ (prompt <$> pending r3) = Some (VStr "")
    /\ curpc r3 = 1.
Proof.
  edestruct (input_retry (booted inputProgram)) with (vals := ["abc"])
    as (r1 & r2 & H1 & _ & _ & _ & H2 & _ & _ & _ & _ & H3).
  1: { reflexivity. }
  1: { vm_compute. reflexivity. }
  1: { reflexivity. }
  1: { left. reflexivity. }
  1: { repeat constructor. }
  destruct H3 as (Hpc & _ & r3 & H4 & _ & Hp & Hpc3); [vm_compute; reflexivity|].
  exists r1, r2, r3. split; [exact H1|]. split; [exact H2|].
  split; [rewrite Hpc; reflexivity|]. split; [exact H4|].
  split; [rewrite Hp; reflexivity|]. rewrite Hpc3. reflexivity.
Defined.

(** ** Printing numbers *)

Lemma reducePrecision_spec obj : forall prec numstr out,
  reducePrecision obj numstr prec = Some out ->
  (String.length out <= 11)%nat
  /\ ((String.length numstr <= 11)%nat -> out = numstr)
  /\ ((11 < String.length numstr)%nat ->
      exists p, (1 <= p <= prec)%nat /\ JS.Number_toPrecision obj (Z.of_nat p) = Some out).
Proof.
  induction prec as [|p IH]; intros numstr out; cbn [reducePrecision];
    destruct (String.length numstr <=? 11)%nat eqn:Hlen.
  - intros [= <-]. apply Nat.leb_le in Hlen. repeat split; auto. lia.
  - discriminate.
  - intros [= <-]. apply Nat.leb_le in Hlen. repeat split; auto. lia.
  - apply Nat.leb_gt in Hlen.
    destruct (JS.Number_toPrecision obj (Z.of_nat (S p))) as [s'|] eqn:Hs'; [|discriminate].
    intros H. destruct (IH _ _ H) as (H1 & H2 & H3). repeat split; [exact H1|lia|].
    intros _. destruct (le_gt_dec (String.length s') 11) as [Hle|Hgt].
    + exists (S p). rewrite (H2 Hle). split; [lia|exact Hs'].
    + destruct (H3 Hgt) as (p' & Hp' & Hout). exists p'. split; [lia|exact Hout].
Qed.

(** C6: the printed form of a number is built from the default notation
    in upper case if that has at most 11 characters, and else from the
    first of the notations with 11, 10, ... significant digits that has
    at most 11 characters, taken as [toPrecision] returns it; then a
    leading zero before the point is dropped, and the result is padded
    with a space after it and, unless it starts with a minus sign, a
    space before it.  So 3.14 prints as [" 3.14 "], -3.14 as ["-3.14 "]
    and 1e21 as [" 1E+21 "], but 123456789012, whose default notation
    has 12 characters, prints with a lower-case exponent marker. *)
Theorem number_formatting :
  (forall obj out,
     numberToString obj = Some out ->
     exists numstr,
       out = padNumber (dropLeadingZero numstr)
       /\ (String.length numstr <= 11)%nat
       /\ ((String.length (JS.toUpperCase (JS.Number_toString obj)) <= 11)%nat ->
           numstr = JS.toUpperCase (JS.Number_toString obj))
       /\ ((11 < String.length (JS.toUpperCase (JS.Number_toString obj)))%nat ->
           exists p, (1 <= p <= 11)%nat
                     /\ JS.Number_toPrecision obj (Z.of_nat p) = Some numstr))
  /\ numberToString 3.14 = Some " 3.14 "
  /\ numberToString (-3.14) = Some "-3.14 "
  /\ numberToString 0.5 = Some " .5 "
  /\ numberToString (-0.5) = Some "-.5 "
  /\ numberToString 1e21 = Some " 1E+21 "
  /\ JS.Number_toString 123456789012 = "123456789012"
  /\ JS.Number_toPrecision 123456789012 6 = Some "1.23457e+11"
  /\ numberToString 123456789012 = Some " 1.23457e+11 ".
Proof.
  split.
  - intros obj out. unfold numberToString.
    destruct (reducePrecision _ _ _) as [numstr|] eqn:Hred; [|discriminate].
    intros [= <-]. destruct (reducePrecision_spec _ _ _ _ Hred) as (H1 & H2 & H3).
    exists numstr. repeat split; auto.
  - vm_compute. repeat split; reflexivity.
Qed.

(** C7: when a line starts with a label that an earlier line of the
    program started with, parsing the later line returns the empty line,
    with no label and no statements, and adds the duplicated-label error
    for it to the parser's errors; the lines that follow are parsed from
    the state the failed line left.  For [duplicateProgram], whose
    second line repeats the label 10, the program has the first and the
    third line as written and the empty line between them. *)
Theorem duplicate_label_empties_later_line :
  (forall (fuel : nat) (q1 q2 q3 : Parser) (ln1 ln2 : string) (mid : list string)
          (l1 : BASICLine) (lsmid : list BASICLine) (l : string),
     labelToken q1 ln1 = Some l ->
     parseLine fuel ln1 q1 = Ok l1 q2 ->
     parseLines fuel mid q2 = Ok lsmid q3 ->
     labelToken q3 ln2 = Some l ->
     exists q4,
       parseLine fuel ln2 q3 = Ok emptyLine q4
       /\ errors q4 = (errors q3 ++ [duplicateError (S (lineno q3)) l])%list
       /\ forall rest,
            parseLines fuel (ln2 :: rest) q3
            = (ls ← parseLines fuel rest; mret (emptyLine :: ls)) q4)
  /\ match parseFile budget duplicateProgram "main.bas" newParser with
     | Ok pgm q =>
         Some (map (fun ln => (label ln, length (stmts ln))) (lines pgm),
               lines pgm !! 1%nat, errors q)
     | _ => None
     end
     = Some ([(Some "10", 1%nat); (None, 0%nat); (Some "20", 1%nat)],
             Some emptyLine, [duplicateError 2 "10"]).
Proof.
  split.
  - apply duplicate_label.
  - vm_compute. reflexivity.
Qed.

Lemma duplicate_label_empties_later_line_witness :
  exists q4,
    parseLine budget "10 PRINT 2" (parserAfter ["10 PRINT 1"]) = Ok emptyLine q4
    /\ errors q4 = [duplicateError 2 "10"].
Proof.
  assert (Ha : labelToken newParser "10 PRINT 1" = Some "10") by (vm_compute; reflexivity).
  assert (Hb : parseLine budget "10 PRINT 1" newParser
               = Ok (firstLine "10 PRINT 1") (parserAfter ["10 PRINT 1"]))
    by (vm_compute; reflexivity).
  assert (Hc : parseLines budget [] (parserAfter ["10 PRINT 1"])
               = Ok [] (parserAfter ["10 PRINT 1"])) by reflexivity.
  assert (Hd : labelToken (parserAfter ["10 PRINT 1"]) "10 PRINT 2" = Some "10")
    by (vm_compute; reflexivity).
  destruct (proj1 duplicate_label_empties_later_line budget newParser
              (parserAfter ["10 PRINT 1"]) (parserAfter ["10 PRINT 1"])
              "10 PRINT 1" "10 PRINT 2" [] (firstLine "10 PRINT 1") [] "10" Ha Hb Hc Hd)
    as (q4 & H1 & H2 & _).
  exists q4. split; [exact H1|]. rewrite H2. vm_compute. reflexivity.
Defined.

(** C8: starting a loop assigns the initial value to the variable and
    pushes the loop entry, whatever the initial value, the target and
    the step are: nothing is compared and the program counter does not
    move.  So a [step] on a FOR statement always continues with the
    statement after it, and in [passedProgram], FOR I=5 TO 1 with the
    default step, the body runs once, with I = 5, before NEXT finds the
    target passed and ends the loop. *)
Theorem for_body_runs_at_least_once :
  (forall nm i t s r,
     exists r',
       startForLoop nm i t s r = Done tt r'
       /\ curpc r' = curpc r
       /\ vars r' = <[nm := i]> (vars r)
       /\ tail (forLoops r') = forLoops r
       /\ (forname <$> head (forLoops r')) = Some nm
       /\ (targ <$> head (forLoops r')) = Some t)
  /\ (forall r st lexpr a la b lb s,
        running r = true -> getStatement r = Some st ->
        command (stmt st) = FOR lexpr (Literal (VNum a) la) (Literal (VNum b) lb) s ->
        cacheSound st ->
        JS.isFinite a = true -> JS.isFinite b = true ->
        match s with
        | Some (Literal (VNum x) _) => JS.isFinite x = true
        | Some _ => False
        | None => True
        end ->
        exists r',
          step r = Done true r'
          /\ curpc r' = curpc r + 1
          /\ vars r' = <[name lexpr := VNum (jsonNumber a)]> (vars r)
          /\ length (forLoops r') = S (length (forLoops r)))
  /\ trace 12 "I" (booted passedProgram)
       = [(0, None); (1, Some (VNum 5)); (2, Some (VNum 5))]
  /\ (output <$> ran 2 passedProgram) = Some [" 5 "; nl]
  /\ (r ← ran 12 passedProgram; Some (curpc r, exited r, forLoops r, output r, vars r !! "I"))
       = Some (3, true, [], [" 5 "; nl], Some (VNum 6)).
Proof.
  split; [|split].
  - intros nm i t s r. rewrite startForLoop_pushes. eexists. split; [reflexivity|].
    cbn. repeat split.
  - intros r st lexpr a la b lb s Hr Hs Hc Hsound Ha Hb Hst.
    destruct (step_FOR r st lexpr a la b lb s Hr Hs Hc Hsound Ha Hb Hst)
      as (r' & H1 & H2 & H3 & H4).
    exists r'. rewrite H4. repeat split; auto.
  - vm_compute. repeat split; reflexivity.
Qed.

Lemma for_body_runs_at_least_once_witness :
  exists r',
    step (booted passedProgram) = Done true r'
    /\ curpc r' = 1
    /\ vars r' !! "I" = Some (VNum 5).
Proof.
  edestruct (proj1 (proj2 for_body_runs_at_least_once) (booted passedProgram))
    as (r' & H1 & H2 & H3 & _).
  1: { reflexivity. }
  1: { vm_compute. reflexivity. }
  1: { reflexivity. }
  1: { intros c Hc. discriminate Hc. }
  1: { reflexivity. }
  1: { reflexivity. }
  1: { exact I. }
  exists r'. split; [exact H1|]. split; [rewrite H2; reflexivity|].
  rewrite H3. reflexivity.
Defined.

(** ** GOSUB *)

Lemma do__GOSUB_literal s loc r :
  do__GOSUB (Literal (VStr s) loc) r = Done [JGosubLabel (JLit (VStr s))] r.
Proof. reflexivity. Qed.

(** C9: a running GOSUB statement whose label is not in the label table
    makes [step] throw the missing-label error, and the state it throws
    in has the return stack one entry longer, the new entry being the
    program counter [step] had already advanced; the program counter
    itself is back on the GOSUB. *)
Theorem gosub_missing_label_pushes (r : Runtime) (st : CompiledStatement) (l : string)
    (loc : option SourceLocation) :
  running r = true ->
  getStatement r = Some st ->
  command (stmt st) = GOSUB (Literal (VStr l) loc) ->
  cacheSound st ->
  label2pc r !! l = None ->
  exists r',
    step r = Halt (("I tried to go to the label " +:+ quoted l +:+ " but couldn't find it.")
                   +:+ " (line " +:+ getLabelForPC r (curpc r) +:+ ")") r'
    /\ returnStack r' = (returnStack r ++ [curpc r + 1])%list
    /\ length (returnStack r') = S (length (returnStack r))
    /\ curpc r' = curpc r.
Proof.
  intros Hr Hs Hc Hsound Hl.
  destruct (step_runs r st (do__GOSUB (Literal (VStr l) loc)) [JGosubLabel (JLit (VStr l))])
    as (a & _ & _ & Hstep); auto.
  - rewrite Hc. reflexivity.
  - intros c Hrun. destruct (Hsound _ Hrun) as (g & r0 & r1 & Hg & Hd).
    rewrite Hc in Hg. cbn in Hg. injection Hg as <-.
    change (do__GOSUB (Literal (VStr l) loc) r0 = Done c r1) in Hd.
    rewrite do__GOSUB_literal in Hd. congruence.
  - rewrite Hstep. unfold exec, execStmt, eval, gosubLabel, gotoLabel. rm. cbn.
    rewrite Hl. unfold runtimeError. cbn.
    replace (curpc r + 1 - 1) with (curpc r) by lia.
    eexists. split; [reflexivity|]. cbn.
    rewrite length_app. cbn. repeat split; lia.
Qed.

Lemma gosub_missing_label_pushes_witness :
  exists r',
    step (booted gosubProgram)
      = Halt ("I tried to go to the label " +:+ quoted "10"
              +:+ " but couldn't find it. (line 20)") r'
    /\ returnStack r' = [1].
Proof.
  edestruct (gosub_missing_label_pushes (booted gosubProgram)) as (r' & H1 & H2 & _ & _).
  - vm_compute. reflexivity.
  - vm_compute. reflexivity.
  - cbn. reflexivity.
  - intros code H. discriminate H.
  - vm_compute. reflexivity.
  - exists r'. split; [exact H1 | exact H2].
Defined.

(** C10: for every finite number [x], [FIX x] returns [x] minus the
    floor of [x], which is not negative; for an infinity and for a NaN
    the difference is a NaN, and FIX raises the invalid-number error.
    So [FIX 2.5] is [0.5], and [FIX (-2.5)], the floor of -2.5 being
    -3, is [0.5] too, where truncation toward zero would leave -2. *)
Theorem fix_is_fractional_part :
  (forall x r,
     JS.isFinite x = true ->
     FIX x r = Done (x - JS.Math_floor x)%float r
     /\ (0 <=? x - JS.Math_floor x)%float = true)
  /\ (forall x r,
        JS.isFinite x = false ->
        FIX x r = runtimeError "I computed an invalid number." r)
  /\ (forall r, FIX 2.5 r = Done 0.5%float r)
  /\ (forall r, FIX (-2.5) r = Done 0.5%float r)
  /\ JS.Math_floor 2.5 = 2%float
  /\ JS.Math_floor (-2.5) = (-3)%float.
Proof.
  split; [|split; [|split; [|split; [|split]]]].
  - intros x r Hx. pose proof (fraction_spec x) as H. rewrite Hx in H.
    destruct H as (H1 & H2 & H3). unfold FIX, checkNum. rewrite H1, H2.
    split; [reflexivity|exact H3].
  - intros x r Hx. pose proof (fraction_spec x) as H. rewrite Hx in H.
    destruct H as (H1 & H2). unfold FIX, checkNum. rewrite H1, H2. reflexivity.
  - intros r. reflexivity.
  - intros r. reflexivity.
  - reflexivity.
  - reflexivity.
Qed.

Lemma fix_is_fractional_part_witness :
  FIX 0.75 newRuntime = Done 0.75%float newRuntime.
Proof.
  destruct (proj1 fix_is_fractional_part 0.75%float newRuntime) as [H _]; [reflexivity|].
  exact H.
Defined.

(** * Further properties *)

(** ** GOTO, GOSUB and RETURN *)

Lemma do__GOTO_literal s loc r :
  do__GOTO (Literal (VStr s) loc) r = Done [JGotoLabel (JLit (VStr s))] r.
Proof. reflexivity. Qed.

(** X1: a running GOTO statement whose label is in the label table makes
    [step] continue at the first statement of the labelled line, and
    changes nothing else of the variables and the stacks; one whose
    label is missing makes [step] throw the missing-label error with the
    program counter back on the GOTO and the return stack as it was. *)
Theorem goto_jumps_or_halts (r : Runtime) (st : CompiledStatement) (l : string)
    (loc : option SourceLocation) :
  running r = true ->
  getStatement r = Some st ->
  command (stmt st) = GOTO (Literal (VStr l) loc) ->
  cacheSound st ->
  (forall target,
     label2pc r !! l = Some target -> 0 <= target ->
     exists r',
       step r = Done true r'
       /\ curpc r' = target
       /\ vars r' = vars r /\ returnStack r' = returnStack r
       /\ forLoops r' = forLoops r /\ output r' = output r)
  /\ (label2pc r !! l = None ->
      exists r',
        step r = Halt (("I tried to go to the label " +:+ quoted l +:+ " but couldn't find it.")
                       +:+ " (line " +:+ getLabelForPC r (curpc r) +:+ ")") r'
        /\ curpc r' = curpc r
        /\ vars r' = vars r /\ returnStack r' = returnStack r
        /\ forLoops r' = forLoops r /\ output r' = output r).
Proof.
  intros Hr Hs Hc Hsound.
  destruct (step_runs r st (do__GOTO (Literal (VStr l) loc)) [JGotoLabel (JLit (VStr l))])
    as (a & _ & _ & Hstep); auto.
  - rewrite Hc. reflexivity.
  - intros c Hrun. destruct (Hsound _ Hrun) as (g & r0 & r1 & Hg & Hd).
    rewrite Hc in Hg. cbn in Hg. injection Hg as <-.
    change (do__GOTO (Literal (VStr l) loc) r0 = Done c r1) in Hd.
    rewrite do__GOTO_literal in Hd. congruence.
  - rewrite Hstep. unfold exec, execStmt, eval, gotoLabel. rm. cbn. split.
    + intros target Hl Ht. rewrite Hl. destruct (Z.leb_spec 0 target); [|lia]. cbn. rewrite Hr.
      eexists. split; [reflexivity|]. cbn. repeat split.
    + intros Hl. rewrite Hl. unfold runtimeError. cbn.
      replace (curpc r + 1 - 1) with (curpc r) by lia.
      eexists. split; [reflexivity|]. cbn. repeat split.
Qed.

Lemma goto_jumps_or_halts_witness :
  exists r', step (stateAfter 1 jumpProgram) = Done true r' /\ curpc r' = 0.
Proof.
  edestruct (goto_jumps_or_halts (stateAfter 1 jumpProgram)) as [H _].
  - vm_compute. reflexivity.
  - vm_compute. reflexivity.
  - cbn. reflexivity.
  - intros c Hc. discriminate Hc.
  - destruct (H 0) as (r' & H1 & H2 & _).
    + vm_compute. reflexivity.
    + lia.
    + exists r'. split; [exact H1|exact H2].
Defined.

Lemma do__RETURN_code c r0 r1 : do__RETURN r0 = Done c r1 -> c = [JReturnFromGosub].
Proof. cbv [do__RETURN mret R_ret rret]. congruence. Qed.

(** One [step] on a RETURN statement runs [returnFromGosub]. *)
Lemma step_RETURN r st :
  running r = true -> getStatement r = Some st ->
  command (stmt st) = RETURN -> cacheSound st ->
  exists a, step r = (exec [JReturnFromGosub];; read running)
                       (set_allstmts a (set_curpc (curpc r + 1) r)).
Proof.
  intros Hr Hs Hc Hsound.
  destruct (step_runs r st do__RETURN [JReturnFromGosub]) as (a & _ & _ & Hstep); auto.
  - rewrite Hc. reflexivity.
  - intros c Hrun. destruct (Hsound _ Hrun) as (g & r0 & r1 & Hg & Hd).
    rewrite Hc in Hg. cbn in Hg. injection Hg as <-. eapply do__RETURN_code, Hd.
  - exists a. rewrite Hstep. reflexivity.
Qed.

(** X2: a running GOSUB statement whose label is in the label table
    makes [step] continue at the labelled line with the program counter
    of the statement after the GOSUB pushed on the return stack; a
    RETURN statement executed later with the stack as the GOSUB left it
    continues at the statement after the GOSUB and leaves the stack as
    it was before the GOSUB. *)
Theorem gosub_return_round_trip (r : Runtime) (st : CompiledStatement) (l : string)
    (loc : option SourceLocation) (target : Z) :
  running r = true ->
  getStatement r = Some st ->
  command (stmt st) = GOSUB (Literal (VStr l) loc) ->
  cacheSound st ->
  label2pc r !! l = Some target -> 0 <= target ->
  exists r1,
    step r = Done true r1
    /\ curpc r1 = target
    /\ returnStack r1 = (returnStack r ++ [curpc r + 1])%list
    /\ forall r2 st2,
         running r2 = true -> getStatement r2 = Some st2 ->
         command (stmt st2) = RETURN -> cacheSound st2 ->
         returnStack r2 = returnStack r1 ->
         exists r3,
           step r2 = Done true r3
           /\ curpc r3 = curpc r + 1
           /\ returnStack r3 = returnStack r.
Proof.
  intros Hr Hs Hc Hsound Hl Ht.
  destruct (step_runs r st (do__GOSUB (Literal (VStr l) loc)) [JGosubLabel (JLit (VStr l))])
    as (a & _ & _ & Hstep); auto.
  - rewrite Hc. reflexivity.
  - intros c Hrun. destruct (Hsound _ Hrun) as (g & r0 & r1 & Hg & Hd).
    rewrite Hc in Hg. cbn in Hg. injection Hg as <-.
    change (do__GOSUB (Literal (VStr l) loc) r0 = Done c r1) in Hd.
    rewrite do__GOSUB_literal in Hd. congruence.
  - rewrite Hstep. unfold exec, execStmt, eval, gosubLabel, gotoLabel. rm. cbn.
    rewrite Hl. destruct (Z.leb_spec 0 target); [|lia]. cbn. rewrite Hr.
    eexists. split; [reflexivity|]. cbn. split; [reflexivity|]. split; [reflexivity|].
    intros r2 st2 Hr2 Hs2 Hc2 Hsound2 Hstack.
    destruct (step_RETURN r2 st2 Hr2 Hs2 Hc2 Hsound2) as (a2 & ->).
    unfold exec, execStmt, returnFromGosub. rm. cbn -[reverse]. rewrite Hstack, reverse_app, reverse_singleton. cbn -[reverse].
    rewrite Hr2, reverse_involutive.
    eexists. split; [reflexivity|]. cbn. split; reflexivity.
Qed.

Lemma gosub_return_round_trip_witness :
  exists r1 r3,
    step (booted subroutineProgram) = Done true r1
    /\ curpc r1 = 2 /\ returnStack r1 = [1]
    /\ step (stateAfter 1 subroutineProgram) = Done true r3
    /\ curpc r3 = 1 /\ returnStack r3 = [].
Proof.
  edestruct (gosub_return_round_trip (booted subroutineProgram)) as (r1 & H1 & H2 & H3 & H4).
  - vm_compute. reflexivity.
  - vm_compute. reflexivity.
  - cbn. reflexivity.
  - intros c Hc. discriminate Hc.
  - vm_compute. reflexivity.
  - lia.
  - edestruct (H4 (stateAfter 1 subroutineProgram)) as (r3 & H5 & H6 & H7).
    + vm_compute. reflexivity.
    + vm_compute. reflexivity.
    + cbn. reflexivity.
    + intros c Hc. discriminate Hc.
    + rewrite H3. vm_compute. reflexivity.
    + exists r1, r3. repeat split; assumption.
Defined.

(** X3: a running RETURN statement with an empty return stack makes
    [step] throw, with the program counter back on the RETURN; with a
    stack that is not empty it continues at the address pushed last and
    pops it. *)
Theorem return_pops_or_halts (r : Runtime) (st : CompiledStatement) :
  running r = true ->
  getStatement r = Some st ->
  command (stmt st) = RETURN ->
  cacheSound st ->
  (returnStack r = [] ->
   exists r',
     step r = Halt ("I tried to RETURN, but there wasn't a corresponding GOSUB."
                    +:+ " (line " +:+ getLabelForPC r (curpc r) +:+ ")") r'
     /\ curpc r' = curpc r /\ returnStack r' = [])
  /\ (forall stack ret,
        returnStack r = (stack ++ [ret])%list ->
        exists r', step r = Done true r' /\ curpc r' = ret /\ returnStack r' = stack).
Proof.
  intros Hr Hs Hc Hsound.
  destruct (step_RETURN r st Hr Hs Hc Hsound) as (a & ->).
  unfold exec, execStmt, returnFromGosub. rm. cbn -[reverse]. split.
  - intros Hempty. rewrite Hempty. cbn. unfold runtimeError. cbn.
    replace (curpc r + 1 - 1) with (curpc r) by lia.
    eexists. split; [reflexivity|]. cbn. split; [reflexivity|exact Hempty].
  - intros stack ret ->. rewrite reverse_app, reverse_singleton. cbn -[reverse]. rewrite Hr, reverse_involutive.
    eexists. split; [reflexivity|]. cbn. split; reflexivity.
Qed.

Lemma return_pops_or_halts_witness :
  exists r',
    step (booted returnProgram)
      = Halt "I tried to RETURN, but there wasn't a corresponding GOSUB. (line 10)" r'
    /\ curpc r' = 0.
Proof.
  edestruct (return_pops_or_halts (booted returnProgram)) as [H _].
  - vm_compute. reflexivity.
  - vm_compute. reflexivity.
  - cbn. reflexivity.
  - intros c Hc. discriminate Hc.
  - destruct H as (r' & H1 & H2 & _); [vm_compute; reflexivity|].
    exists r'. split; [exact H1|exact H2].
Defined.

(** ** READ *)

Lemma do__READ_plain xs r :
  List.Forall (plainVariable r) xs -> do__READ xs r = Done (readCode xs) r.
Proof.
  intros Hxs. unfold do__READ, readCode.
  apply (mapR_pure _ (fun a => JRead (JVar (name a)) (name a))).
  eapply List.Forall_impl; [|exact Hxs].
  intros a [Ha Hd]. unfold exprOfIndOp. cbn [expr2js existsb]. rewrite Ha.
  unfold mbind, mret, R_bind, R_ret, rbind, rret, read. rewrite Hd. reflexivity.
Qed.

Lemma checkNum_storable n r : storable n = true -> checkNum n r = Done n r.
Proof.
  unfold storable, checkNum. intros H. apply andb_prop in H. destruct H as [H1 H2].
  apply negb_true_iff in H1, H2. rewrite H1, H2. reflexivity.
Qed.

(** Reading numbers into numeric variables, one datum per variable. *)
Lemma exec_readCode pgm xs : forall ns i r,
  program r = Some pgm -> typeConvert (ropts pgm) = false ->
  dataptr r = Some i ->
  length ns = length xs ->
  List.Forall (fun a => JS.endsWith (name a) "$" = false) xs ->
  List.Forall (fun n => storable n = true) ns ->
  (forall k n, ns !! k = Some n -> datums r !! (i + k)%nat = Some (VNum n)) ->
  exists r',
    exec (readCode xs) r = Done tt r'
    /\ dataptr r' = Some (i + length xs)%nat
    /\ vars r' = storeAll xs ns (vars r)
    /\ curpc r' = curpc r /\ running r' = running r /\ datums r' = datums r
    /\ returnStack r' = returnStack r /\ forLoops r' = forLoops r.
Proof.
  induction xs as [|a xs IH]; intros ns i r Hp Ht Hd Hlen Hnames Hns Hdat.
  - exists r. cbn. rewrite Nat.add_0_r. destruct ns; repeat split; auto.
  - destruct ns as [|n ns]; [discriminate Hlen|].
    inversion Hnames as [|? ? Ha Hnames']; subst.
    inversion Hns as [|? ? Hn Hns']; subst.
    pose proof (Hdat 0%nat n eq_refl) as H0. rewrite Nat.add_0_r in H0.
    assert (Hi : (i < length (datums r))%nat) by (eapply lookup_lt_Some; eauto).
    cbn [readCode map exec execStmt].
    unfold nextDatum, assign, programOpts, convertToNumber, store.
    unfold mbind, mret, R_bind, R_ret, rbind, rret, read, update.
    rewrite Hd. destruct (Nat.leb_spec (length (datums r)) i) as [|_]; [lia|].
    cbn [program set_dataptr datums]. rewrite Hp, Ht, Ha, H0. cbn [default from_option id]. unfold id.
    rewrite (checkNum_storable _ _ Hn).
    cbn [set_dataptr vars].
    match goal with
    | |- context [exec _ ?s] =>
        destruct (IH ns (S i) s) as (r' & H1 & H2 & H3 & H4 & H5 & H6 & H7 & H8)
    end.
    + cbn. exact Hp.
    + exact Ht.
    + reflexivity.
    + cbn in Hlen. lia.
    + exact Hnames'.
    + exact Hns'.
    + intros k n' Hk. cbn. specialize (Hdat (S k) n' Hk).
      replace (i + S k)%nat with (S (i + k)) in Hdat by lia. exact Hdat.
    + exists r'. fold (readCode xs). rewrite H1. split; [reflexivity|]. cbn in *.
      rewrite H2, H3. repeat split; auto; f_equal; lia.
Qed.

Lemma step_READ r st xs :
  running r = true -> getStatement r = Some st ->
  command (stmt st) = READ xs ->
  (run st = None \/ run st = Some (readCode xs)) ->
  List.Forall (plainVariable r) xs ->
  exists a, step r = (exec (readCode xs);; read running)
                       (set_allstmts a (set_curpc (curpc r + 1) r)).
Proof.
  intros Hr Hs Hc Hrun Hxs.
  destruct (step_runs r st (do__READ xs) (readCode xs)) as (a & _ & _ & Hstep); auto.
  - rewrite Hc. reflexivity.
  - apply do__READ_plain. exact Hxs.
  - intros c Hcached. destruct Hrun as [Hrun|Hrun]; congruence.
  - exists a. exact Hstep.
Qed.

(** X4: a running READ statement with plain numeric variables, when the
    data from the cursor on holds a number for each of them, stores the
    numbers in the variables in order, moves the cursor past them and
    continues with the next statement. *)
Theorem read_takes_data_in_order (r : Runtime) (st : CompiledStatement) (pgm : Program)
    (xs : list IndOp) (ns : list float) (i : nat) :
  running r = true ->
  getStatement r = Some st ->
  command (stmt st) = READ xs ->
  (run st = None \/ run st = Some (readCode xs)) ->
  List.Forall (plainVariable r) xs ->
  List.Forall (fun a => JS.endsWith (name a) "$" = false) xs ->
  program r = Some pgm -> typeConvert (ropts pgm) = false ->
  dataptr r = Some i ->
  length ns = length xs ->
  List.Forall (fun n => storable n = true) ns ->
  (forall k n, ns !! k = Some n -> datums r !! (i + k)%nat = Some (VNum n)) ->
  exists r',
    step r = Done true r'
    /\ dataptr r' = Some (i + length xs)%nat
    /\ vars r' = storeAll xs ns (vars r)
    /\ curpc r' = curpc r + 1.
Proof.
  intros Hr Hs Hc Hrun Hxs Hnames Hp Ht Hd Hlen Hns Hdat.
  destruct (step_READ r st xs Hr Hs Hc Hrun Hxs) as (a & ->).
  destruct (exec_readCode pgm xs ns i (set_allstmts a (set_curpc (curpc r + 1) r)))
    as (r' & H1 & H2 & H3 & H4 & H5 & _); auto.
  unfold mbind, R_bind, rbind, read. rewrite H1. cbn in H3, H4, H5.
  exists r'. rewrite H5, Hr. repeat split; auto.
Qed.

Lemma read_takes_data_in_order_witness :
  exists r',
    step (stateAfter 1 dataProgram) = Done true r'
    /\ dataptr r' = Some 2%nat
    /\ vars r' !! "A" = Some (VNum 7) /\ vars r' !! "B" = Some (VNum 8).
Proof.
  edestruct (read_takes_data_in_order (stateAfter 1 dataProgram)) with (ns := [7%float; 8%float])
    as (r' & H1 & H2 & H3 & _).
  - vm_compute. reflexivity.
  - vm_compute. reflexivity.
  - cbn. reflexivity.
  - left. reflexivity.
  - repeat constructor.
  - repeat constructor.
  - vm_compute. reflexivity.
  - reflexivity.
  - vm_compute. reflexivity.
  - reflexivity.
  - repeat constructor.
  - intros [|[|k]] n Hk; cbn in Hk; try discriminate Hk; injection Hk as <-;
      vm_compute; reflexivity.
  - exists r'. split; [exact H1|]. split; [rewrite H2; reflexivity|].
    rewrite H3. split; vm_compute; reflexivity.
Defined.

(** X5: a running READ statement executed when the cursor is at or past
    the end of the data makes [step] throw the out-of-data error; the
    cursor and the variables are as before and the program counter is
    back on the READ. *)
Theorem read_past_end_of_data (r : Runtime) (st : CompiledStatement)
    (a : IndOp) (xs : list IndOp) (i : nat) :
  running r = true ->
  getStatement r = Some st ->
  command (stmt st) = READ (a :: xs) ->
  (run st = None \/ run st = Some (readCode (a :: xs))) ->
  List.Forall (plainVariable r) (a :: xs) ->
  dataptr r = Some i ->
  (length (datums r) <= i)%nat ->
  exists r',
    step r = Halt ("I tried to READ, but ran out of data."
                   +:+ " (line " +:+ getLabelForPC r (curpc r) +:+ ")") r'
    /\ dataptr r' = Some i /\ vars r' = vars r /\ curpc r' = curpc r.
Proof.
  intros Hr Hs Hc Hrun Hxs Hd Hlen.
  destruct (step_READ r st (a :: xs) Hr Hs Hc Hrun Hxs) as (al & ->).
  cbn [readCode map exec execStmt]. unfold nextDatum.
  unfold mbind, mret, R_bind, R_ret, rbind, rret, read, update.
  cbn [dataptr set_allstmts set_curpc datums]. rewrite Hd.
  destruct (Nat.leb_spec (length (datums r)) i) as [_|]; [|lia].
  unfold runtimeError. cbn.
  replace (curpc r + 1 - 1) with (curpc r) by lia.
  eexists. split; [reflexivity|]. cbn. repeat split. exact Hd.
Qed.

Lemma read_past_end_of_data_witness :
  exists r',
    step (stateAfter 2 dataProgram)
      = Halt "I tried to READ, but ran out of data. (line 30)" r'
    /\ dataptr r' = Some 2%nat.
Proof.
  edestruct (read_past_end_of_data (stateAfter 2 dataProgram)) as (r' & H1 & H2 & _).
  - vm_compute. reflexivity.
  - vm_compute. reflexivity.
  - cbn. reflexivity.
  - left. reflexivity.
  - repeat constructor.
  - vm_compute. reflexivity.
  - vm_compute. lia.
  - exists r'. split; [exact H1|exact H2].
Defined.

(** ** Arithmetic *)

Lemma checkNum_inv n r v r' :
  checkNum n r = Done v r' -> v = n /\ r' = r /\ storable n = true.
Proof.
  unfold checkNum, storable.
  destruct (n =? infinity)%float; [discriminate|].
  destruct (JS.isNaN n); [discriminate|].
  intros [= <- <-]. auto.
Qed.

Lemma numeric2_inv what g x y r v r' :
  numeric2 what g (VNum x) (VNum y) r = Done v r' ->
  v = VNum (g x y) /\ r' = r /\ storable (g x y) = true.
Proof.
  unfold numeric2. cbn [ToNumber]. unfold mbind, R_bind, rbind.
  destruct (checkNum (g x y) r) as [n r1| | |] eqn:Hc; try discriminate.
  intros [= <- <-]. destruct (checkNum_inv _ _ _ _ Hc) as (-> & -> & H). auto.
Qed.

(** X6: whenever one of the operators add, sub, mul, div, idiv and mod
    returns, on two numbers, it returns a number that is neither a NaN
    nor plus infinity, and leaves the state alone.  Minus infinity is
    not caught: -1e308 * 10 is returned as it is. *)
Theorem arithmetic_results_checked :
  (forall op g x y r v r',
     In (op, g) arithmetic ->
     g (VNum x) (VNum y) r = Done v r' ->
     exists n, v = VNum n /\ JS.isNaN n = false /\ (n =? infinity)%float = false /\ r' = r)
  /\ (forall r, mul (VNum (-1e308)) (VNum 10) r = Done (VNum neg_infinity) r)
  /\ (forall r, exists r', mul (VNum 1e308) (VNum 10) r
                             = Halt ("I computed a number too big to store."
                                     +:+ " (line " +:+ getLabelForPC r (curpc r - 1) +:+ ")") r').
Proof.
  split; [|split].
  - intros op g x y r v r' Hin Hg.
    assert (Hn : exists n, v = VNum n /\ r' = r /\ storable n = true).
    { cbn in Hin.
      destruct Hin as [[= <- <-]|[[= <- <-]|[[= <- <-]|[[= <- <-]|[[= <- <-]|[[= <- <-]|[]]]]]]].
      - unfold add in Hg. unfold mbind, R_bind, rbind in Hg.
        destruct (checkNum (x + y) r) as [n r1| | |] eqn:Hc; try discriminate.
        injection Hg as <- <-. destruct (checkNum_inv _ _ _ _ Hc) as (-> & -> & H). eauto.
      - apply numeric2_inv in Hg. destruct Hg as (-> & -> & H). eauto.
      - apply numeric2_inv in Hg. destruct Hg as (-> & -> & H). eauto.
      - unfold div in Hg. cbn [jsEq ToNumber] in Hg.
        destruct (y =? 0)%float; [discriminate|].
        apply numeric2_inv in Hg. destruct Hg as (-> & -> & H). eauto.
      - unfold idiv in Hg. cbn [ToNumber] in Hg. unfold div in Hg. cbn [jsEq ToNumber] in Hg.
        destruct (JS.Math_floor y =? 0)%float; [discriminate|].
        apply numeric2_inv in Hg. destruct Hg as (-> & -> & H). eauto.
      - apply numeric2_inv in Hg. destruct Hg as (-> & -> & H). eauto. }
    destruct Hn as (n & -> & -> & Hn). exists n.
    unfold storable in Hn. apply andb_prop in Hn. destruct Hn as [H1 H2].
    apply negb_true_iff in H1, H2. auto.
  - intros r. reflexivity.
  - intros r. eexists. reflexivity.
Qed.

Lemma arithmetic_results_checked_witness :
  exists n, VNum 3 = VNum n /\ JS.isNaN n = false.
Proof.
  destruct (proj1 arithmetic_results_checked "add" add 1%float 2%float newRuntime
              (VNum 3) newRuntime) as (n & H1 & H2 & _).
  - left. reflexivity.
  - reflexivity.
  - exists n. split; assumption.
Defined.

(** X7: dividing a number by zero, of either sign, always throws the
    division error, whatever the dividend; so does integer division by
    any number whose floor is zero, such as 0.5.  The remainder by zero
    throws the invalid-number error instead. *)
Theorem division_by_zero :
  (forall x y r,
     (y =? 0)%float = true ->
     div (VNum x) (VNum y) r = runtimeError "I can't divide by zero." r)
  /\ (forall x y r,
        (JS.Math_floor y =? 0)%float = true ->
        idiv (VNum x) (VNum y) r = runtimeError "I can't divide by zero." r)
  /\ (forall x y r,
        (y =? 0)%float = true ->
        mod_ (VNum x) (VNum y) r = runtimeError "I computed an invalid number." r)
  /\ JS.Math_floor 0.5 = 0%float.
Proof.
  split; [|split; [|split]].
  - intros x y r Hy. unfold div. cbn [jsEq ToNumber]. rewrite Hy. reflexivity.
  - intros x y r Hy. unfold idiv. cbn [ToNumber]. unfold div. cbn [jsEq ToNumber].
    rewrite Hy. reflexivity.
  - intros x y r Hy. unfold mod_, numeric2. cbn [ToNumber].
    assert (Hrem : jsRem x y = nan).
    { unfold jsRem. rewrite FloatAxioms.eqb_spec in Hy.
      replace (Prim2SF 0) with (S754_zero false) in Hy by reflexivity.
      destruct (Prim2SF y) as [s|s| |s m e]; try (destruct s; discriminate Hy); try discriminate Hy.
      destruct (Prim2SF x) as [s'|s'| |s' m' e']; reflexivity. }
    rewrite Hrem. reflexivity.
  - reflexivity.
Qed.

Lemma division_by_zero_witness :
  div (VNum 1) (VNum (-0)) newRuntime = runtimeError "I can't divide by zero." newRuntime.
Proof.
  apply (proj1 division_by_zero). reflexivity.
Defined.

(** ** Variables *)

(** X8: a reference to a plain variable is compiled to a checked read.
    Evaluated when the variable holds a number or a string, it gives
    that value.  Evaluated when the variable was never assigned, it
    throws, naming the variable, unless the dialect has default values;
    then it gives the empty string for a name that ends in a dollar
    sign and 0 for any other. *)
Theorem unset_variable_read (r : Runtime) (pgm : Program) (x : string)
    (loc : option SourceLocation) :
  defs r !! x = None ->
  program r = Some pgm ->
  expr2js (Lookup x None loc) true false [] r = Done (JCheck (JVar x) x) r
  /\ (forall v, vars r !! x = Some v -> isNumber v || isString v = true ->
      eval (JCheck (JVar x) x) r = Done v r)
  /\ (vars r !! x = None -> defaultValues (ropts pgm) = false ->
      eval (JCheck (JVar x) x) r = runtimeError ("I didn't find a value for " +:+ x) r)
  /\ (vars r !! x = None -> defaultValues (ropts pgm) = true ->
      eval (JCheck (JVar x) x) r
      = Done (if JS.endsWith x "$" then VStr "" else VNum 0) r).
Proof.
  intros Hd Hp. split; [|split; [|split]].
  - cbn [expr2js existsb]. unfold mbind, mret, R_bind, R_ret, rbind, rret, read.
    rewrite Hd. reflexivity.
  - intros v Hv Hty. cbn [eval]. unfold mbind, mret, R_bind, R_ret, rbind, rret, read.
    rewrite Hv. cbn [default from_option id]. destruct v; try discriminate Hty; reflexivity.
  - intros Hv Hdv. cbn [eval]. unfold mbind, mret, R_bind, R_ret, rbind, rret, read.
    rewrite Hv. cbn [default from_option checkValue].
    unfold mbind, R_bind, rbind, programOpts. rewrite Hp, Hdv. reflexivity.
  - intros Hv Hdv. cbn [eval]. unfold mbind, mret, R_bind, R_ret, rbind, rret, read.
    rewrite Hv. cbn [default from_option checkValue].
    unfold mbind, R_bind, rbind, programOpts. rewrite Hp, Hdv. reflexivity.
Qed.

Lemma unset_variable_read_witness :
  eval (JCheck (JVar "Z") "Z") (booted letProgram)
  = runtimeError "I didn't find a value for Z" (booted letProgram).
Proof.
  edestruct (unset_variable_read (booted letProgram)) with (x := "Z") (loc := @None SourceLocation)
    as (_ & _ & H & _).
  - vm_compute. reflexivity.
  - vm_compute. reflexivity.
  - apply H; vm_compute; reflexivity.
Defined.

Lemma do__LET_literal x v loc r :
  plainVariable r x -> parsedLiteral v = true ->
  do__LET x (Literal v loc) r = Done (letCode x v) r.
Proof.
  intros [Ha Hd] Hv. unfold do__LET, letCode.
  unfold mbind at 1, R_bind, rbind.
  assert (He : expr2js (exprOfIndOp x) false false [] r = Done (JVar (name x)) r).
  { unfold exprOfIndOp. cbn [expr2js existsb]. rewrite Ha.
    unfold mbind, mret, R_bind, R_ret, rbind, rret, read. rewrite Hd. reflexivity. }
  rewrite He. unfold mbind at 1, R_bind, rbind. cbn [expr2js]. unfold literal.
  destruct v as [n|s|b|]; try discriminate Hv; cbn [literalValue].
  - change (JS.isFinite n = true) in Hv. rewrite Hv. reflexivity.
  - reflexivity.
Qed.

(** X9: a running LET statement that assigns a literal to a plain
    variable, in a dialect without type conversion, stores a number in a
    numeric variable and a string in a string variable, after which the
    variable holds that value, and throws the conversion error when the
    literal is of the other kind, leaving the variables as they were. *)
Theorem let_assigns_or_rejects (r : Runtime) (st : CompiledStatement) (pgm : Program)
    (x : IndOp) (v : Value) (loc : option SourceLocation) :
  running r = true ->
  getStatement r = Some st ->
  command (stmt st) = LET x (Literal v loc) ->
  (run st = None \/ run st = Some (letCode x v)) ->
  plainVariable r x ->
  parsedLiteral v = true ->
  program r = Some pgm -> typeConvert (ropts pgm) = false ->
  (JS.endsWith (name x) "$" = isString v ->
   exists r',
     step r = Done true r'
     /\ vars r' = <[name x := literalValue v]> (vars r)
     /\ vars r' !! name x = Some (literalValue v)
     /\ curpc r' = curpc r + 1)
  /\ (JS.endsWith (name x) "$" <> isString v ->
      exists r',
        step r = Halt (("I can't convert " +:+ ToString (literalValue v)
                        +:+ (if isString v then " to a number." else " to a string."))
                       +:+ " (line " +:+ getLabelForPC r (curpc r) +:+ ")") r'
        /\ vars r' = vars r /\ curpc r' = curpc r).
Proof.
  intros Hr Hs Hc Hrun Hx Hv Hp Ht.
  destruct (step_runs r st (do__LET x (Literal v loc)) (letCode x v)) as (a & _ & _ & Hstep); auto.
  - rewrite Hc. reflexivity.
  - apply do__LET_literal; assumption.
  - intros c Hcached. destruct Hrun as [Hrun|Hrun]; congruence.
  - rewrite Hstep. unfold letCode, exec, execStmt, eval, assign, programOpts.
    unfold mbind, mret, R_bind, R_ret, rbind, rret, read, update.
    cbn [program set_allstmts set_curpc]. rewrite Hp, Ht.
    destruct (JS.endsWith (name x) "$") eqn:Hname;
      destruct v as [n|s|b|]; try discriminate Hv; cbn [isString literalValue];
      (split; [intros He; try discriminate He|intros He; try congruence]).
    + unfold convertToString, runtimeError. cbn.
      replace (curpc r + 1 - 1) with (curpc r) by lia.
      eexists. split; [reflexivity|]. cbn. split; reflexivity.
    + unfold convertToString, store. cbn. rewrite Hr.
      eexists. split; [reflexivity|]. cbn. rewrite lookup_insert_eq. repeat split.
    + unfold convertToNumber, store.
      assert (Hst : checkNum (jsonNumber n) (set_allstmts a (set_curpc (curpc r + 1) r))
                    = Done (jsonNumber n) (set_allstmts a (set_curpc (curpc r + 1) r))).
      { apply checkNum_storable. change (JS.isFinite n = true) in Hv.
        unfold storable, jsonNumber.
        destruct (n =? 0)%float eqn:Hz; [reflexivity|].
        pose proof (isFinite_spec n) as Hf. rewrite Hv in Hf.
        rewrite isNaN_spec, FloatAxioms.eqb_spec.
        replace (Prim2SF infinity) with (S754_infinity false) by reflexivity.
        destruct (Prim2SF n) as [s|s| |s m e]; try discriminate Hf; reflexivity. }
      unfold mbind, mret, R_bind, R_ret, rbind, rret. rewrite Hst. cbn. rewrite Hr.
      eexists. split; [reflexivity|]. cbn. rewrite lookup_insert_eq. repeat split.
    + unfold convertToNumber, runtimeError. cbn.
      replace (curpc r + 1 - 1) with (curpc r) by lia.
      eexists. split; [reflexivity|]. cbn. split; reflexivity.
Qed.

Lemma let_assigns_or_rejects_witness :
  (exists r', step (booted letProgram) = Done true r' /\ vars r' !! "A" = Some (VNum 5))
  /\ (exists r', step (stateAfter 1 letProgram)
                   = Halt "I can't convert 5 to a string. (line 20)" r').
Proof.
  split.
  - edestruct (let_assigns_or_rejects (booted letProgram)) as [H _].
    + vm_compute. reflexivity.
    + vm_compute. reflexivity.
    + cbn. reflexivity.
    + left. reflexivity.
    + split; vm_compute; reflexivity.
    + reflexivity.
    + vm_compute. reflexivity.
    + reflexivity.
    + destruct H as (r' & H1 & _ & H2 & _); [vm_compute; reflexivity|].
      exists r'. split; [exact H1|exact H2].
  - edestruct (let_assigns_or_rejects (stateAfter 1 letProgram)) as [_ H].
    + vm_compute. reflexivity.
    + vm_compute. reflexivity.
    + cbn. reflexivity.
    + left. reflexivity.
    + split; vm_compute; reflexivity.
    + reflexivity.
    + vm_compute. reflexivity.
    + reflexivity.
    + destruct H as (r' & H1 & _); [vm_compute; discriminate|].
      exists r'. exact H1.
Defined.

(** ** IF and END *)





Lemma same_length_by_lookup {A : Type} (a b : list A) (i : nat) :
  is_Some (a !! i) -> is_Some (b !! i) ->
  (forall j, j <> i -> a !! j = b !! j) ->
  length a = length b.
Proof.
  intros Ha Hb Hj.
  apply lookup_lt_is_Some in Ha, Hb.
  destruct (Nat.lt_trichotomy (length a) (length b)) as [Hlt|[Heq|Hgt]]; [|exact Heq|].
  - assert (Hne : length a <> i) by lia.
    pose proof (Hj (length a) Hne) as H.
    rewrite (lookup_ge_None_2 a (length a)) in H by lia.
    symmetry in H. apply lookup_ge_None in H. lia.
  - assert (Hne : length b <> i) by lia.
    pose proof (Hj (length b) Hne) as H.
    rewrite (lookup_ge_None_2 b (length b)) in H by lia.
    apply lookup_ge_None in H. lia.
Qed.

(** X11: a running END or STOP statement moves the program counter to
    the end of the program, whatever follows the statement; the call of
    [step] after that finds no statement, returns [false] and marks the
    run exited, with the variables and the output as they were. *)
Theorem end_stops_the_run (r : Runtime) (st : CompiledStatement) :
  running r = true ->
  getStatement r = Some st ->
  isEndOrStop (command (stmt st)) = true ->
  cacheSound st ->
  exists r1 r2,
    step r = Done true r1
    /\ curpc r1 = Z.of_nat (length (allstmts r))
    /\ step r1 = Done false r2
    /\ exited r2 = true /\ running r2 = false
    /\ vars r2 = vars r /\ output r2 = output r.
Proof.
  intros Hr Hs Hc Hsound.
  assert (Hcode : exists g, stmtfn (command (stmt st)) = Some g
                            /\ forall r0 c r1, g r0 = Done c r1 -> c = [JSkipToEOF] /\ r1 = r0).
  { destruct (command (stmt st)); try discriminate Hc.
    - exists do__STOP. split; [reflexivity|]. intros r0 c r1 [= <- <-]. auto.
    - exists do__END. split; [reflexivity|]. intros r0 c r1 [= <- <-]. auto. }
  destruct Hcode as (g & Hg & Hgc).
  assert (Hg0 : g (set_curpc (curpc r + 1) r) = Done [JSkipToEOF] (set_curpc (curpc r + 1) r)).
  { destruct (command (stmt st)); try discriminate Hc; injection Hg as <-; reflexivity. }
  destruct (step_runs r st g [JSkipToEOF]) as (a & Ha & Hrest & Hstep); auto.
  - intros c Hrun. destruct (Hsound _ Hrun) as (g' & r0 & r1 & Hg' & Hd).
    rewrite Hg in Hg'. injection Hg' as <-. apply (Hgc _ _ _ Hd).
  - pose proof (getStatement_lookup _ _ Hs) as Hl.
    assert (Hlen : length a = length (allstmts r)).
    { apply (same_length_by_lookup a (allstmts r) (Z.to_nat (curpc r))); eauto. }
    rewrite Hstep. cbn [exec execStmt]. unfold skipToEOF.
    unfold mbind, mret, R_bind, R_ret, rbind, rret, read, update. cbn. rewrite Hr, Hlen.
    eexists. eexists. split; [reflexivity|]. split; [reflexivity|].
    unfold step. cbn [running set_curpc set_allstmts negb]. rewrite Hr. cbn [negb].
    unfold getStatement. cbn [curpc allstmts set_curpc set_allstmts].
    destruct (Z.ltb_spec (Z.of_nat (length (allstmts r))) 0); [lia|].
    rewrite Nat2Z.id, lookup_ge_None_2 by lia.
    split; [reflexivity|]. cbn. repeat split.
Qed.

Lemma end_stops_the_run_witness :
  exists r1 r2,
    step (stateAfter 2 branchProgram) = Done true r1
    /\ curpc r1 = 6
    /\ step r1 = Done false r2
    /\ exited r2 = true.
Proof.
  edestruct (end_stops_the_run (stateAfter 2 branchProgram))
    as (r1 & r2 & H1 & H2 & H3 & H4 & _).
  - vm_compute. reflexivity.
  - vm_compute. reflexivity.
  - reflexivity.
  - intros c Hc. discriminate Hc.
  - exists r1, r2. split; [exact H1|]. split; [rewrite H2; vm_compute; reflexivity|].
    split; [exact H3|exact H4].
Defined.

(** ** load *)

Lemma Frame_keepsIndex : Frame keepsIndex.
Proof.
  split; unfold keepsIndex; try (intros; cbn; auto; fail).
  intros a b c (H1 & H2 & H3) (H4 & H5 & H6). repeat split; congruence.
Qed.

Lemma loadLine_spec ln idx r r' :
  loadLine ln idx r = Done tt r' ->
  allstmts r' = (allstmts r ++ lstmts ln)%list
  /\ label2pc r' = match llabel ln with
                   | Some l => <[l := Z.of_nat (length (allstmts r))]> (label2pc r)
                   | None => label2pc r
                   end
  /\ program r' = program r.
Proof.
  unfold loadLine. unfold mbind at 1 2, R_bind, rbind. unfold update at 1.
  match goal with
  | |- context [mapR ?g ?l ?s] =>
      pose proof (st_mapR keepsIndex Frame_keepsIndex g l) as Hst;
      specialize (Hst ltac:(intros d; apply st_bind; [exact Frame_keepsIndex|
                                apply st_expr2js, Frame_keepsIndex|];
                            intros e; apply st_bind; [exact Frame_keepsIndex|
                                apply st_eval, Frame_keepsIndex|];
                            intros v; apply st_update; intros r0; repeat split) s);
      destruct (mapR g l s) as [vs r1| | |] eqn:Hmap; try discriminate
  end.
  intros [= <-]. destruct Hst as (H1 & H2 & H3). rewrite H1, H2, H3.
  destruct (llabel ln); cbn; repeat split.
Qed.

Lemma loadLines_spec lns : forall idx r r',
  loadLines lns idx r = Done tt r' ->
  allstmts r' = (allstmts r ++ flatten lns)%list
  /\ label2pc r' = labelTable (length (allstmts r)) lns (label2pc r)
  /\ program r' = program r.
Proof.
  induction lns as [|ln lns IH]; intros idx r r'; cbn [loadLines].
  - intros [= <-]. unfold flatten. cbn. rewrite app_nil_r. auto.
  - unfold mbind, R_bind, rbind.
    destruct (loadLine ln idx r) as [[] r1| | |] eqn:H1; try discriminate.
    intros H2. apply loadLine_spec in H1. destruct H1 as (Ha & Hb & Hc).
    apply IH in H2. destruct H2 as (Hd & He & Hf).
    rewrite Hd, He, Hf, Ha, Hb, Hc. unfold flatten. cbn [map concat labelTable].
    rewrite length_app, app_assoc. repeat split.
Qed.

Lemma labelTable_absent l lns : forall n m,
  List.Forall (fun ln => llabel ln <> Some l) lns ->
  labelTable n lns m !! l = m !! l.
Proof.
  induction lns as [|ln lns IH]; intros n m H; cbn [labelTable]; [reflexivity|].
  inversion H as [|? ? Hln Hrest]; subst. rewrite IH by exact Hrest.
  destruct (llabel ln) as [l'|]; [|reflexivity].
  apply lookup_insert_ne. congruence.
Qed.

Lemma labelTable_last l pre ln post : forall n m,
  llabel ln = Some l ->
  List.Forall (fun ln' => llabel ln' <> Some l) post ->
  labelTable n (pre ++ ln :: post) m !! l = Some (Z.of_nat (n + length (flatten pre))).
Proof.
  induction pre as [|p pre IH]; intros n m Hl Hpost.
  - cbn [app labelTable]. rewrite Hl, labelTable_absent by exact Hpost.
    rewrite lookup_insert_eq. unfold flatten. cbn. f_equal. lia.
  - cbn [app labelTable]. rewrite IH by assumption.
    unfold flatten. cbn [map concat]. rewrite length_app. f_equal. lia.
Qed.

(** X12: when [load] returns, the statements of the runtime are those of
    all the lines of the program in order, and the label table maps the
    label of a line to the index of the first statement of that line,
    the last line winning when several have the same label; a label
    that no line has is not in the table. *)
Theorem load_indexes_statements (pgm : Program) (r r' : Runtime) :
  load pgm r = Done tt r' ->
  allstmts r' = flatten (rlines pgm)
  /\ program r' = Some pgm
  /\ (forall pre ln post l,
        rlines pgm = (pre ++ ln :: post)%list ->
        llabel ln = Some l ->
        List.Forall (fun ln' => llabel ln' <> Some l) post ->
        label2pc r' !! l = Some (Z.of_nat (length (flatten pre)))
        /\ drop (length (flatten pre)) (allstmts r') = (lstmts ln ++ flatten post)%list)
  /\ (forall l,
        List.Forall (fun ln => llabel ln <> Some l) (rlines pgm) ->
        label2pc r' !! l = None).
Proof.
  unfold load. unfold mbind, R_bind, rbind.
  match goal with
  | |- context [loadLines ?lns ?i ?s] =>
      destruct (loadLines lns i s) as [[] r1| | |] eqn:Hl; try discriminate
  end.
  unfold update. intros [= <-]. apply loadLines_spec in Hl.
  destruct Hl as (Ha & Hb & Hc). cbn in Ha, Hb, Hc. cbn.
  rewrite Ha, Hb, Hc. split; [reflexivity|]. split; [reflexivity|]. split.
  - intros pre ln post l Hlines Hlab Hpost. rewrite Hlines. split.
    + rewrite (labelTable_last l pre ln post 0 ∅ Hlab Hpost). reflexivity.
    + unfold flatten. rewrite map_app, concat_app. cbn [map concat].
      rewrite drop_app_length. reflexivity.
  - intros l Hnone. rewrite labelTable_absent by exact Hnone. apply lookup_empty.
Qed.

Lemma load_indexes_statements_witness :
  exists r',
    load (programOf dataProgram) newRuntime = Done tt r'
    /\ length (allstmts r') = 3%nat.
Proof.
  destruct (load (programOf dataProgram) newRuntime) as [[] r'| | |] eqn:H;
    try (vm_compute in H; discriminate H).
  destruct (load_indexes_statements _ _ _ H) as (Ha & _).
  exists r'. split; [reflexivity|]. rewrite Ha. vm_compute. reflexivity.
Defined.

(** ** PRINT *)

(** X13: printing a string that is neither the newline nor the tab
    appends it to the output and advances the column by its length.
    Printing the newline appends it and leaves the column at 1: the
    column is reset to 0 and then advanced by the length of the
    newline itself. *)
Theorem print_tracks_column :
  (forall s r,
     s <> newlineChar -> s <> tabChar ->
     printExpr (VStr s) r
     = Done tt (set_output (output r ++ [s])%list
                  (set_column (column r + Z.of_nat (String.length s)) r)))
  /\ (forall r,
        printExpr (VStr newlineChar) r
        = Done tt (set_output (output r ++ [newlineChar])%list
                     (set_column (0 + 1) (set_column 0 r)))).
Proof.
  split.
  - intros s r Hn Ht. unfold printExpr, valueToString, print.
    destruct (String.eqb_spec s newlineChar) as [|_]; [contradiction|].
    destruct (String.eqb_spec s tabChar) as [|_]; [contradiction|].
    reflexivity.
  - intros r. reflexivity.
Qed.

Lemma print_tracks_column_witness :
  printExpr (VStr "HELLO") newRuntime
  = Done tt (set_output ["HELLO"] (set_column 5 newRuntime)).
Proof.
  apply (proj1 print_tracks_column "HELLO" newRuntime); discriminate.
Defined.

Lemma length_append (a b : string) :
  String.length (a +:+ b) = (String.length a + String.length b)%nat.
Proof.
  induction a as [|c a IH]; [reflexivity|].
  change (String c a +:+ b) with (String c (a +:+ b)). cbn [String.length].
  rewrite IH. reflexivity.
Qed.

Lemma length_substring s : forall n m, (String.length (String.substring n m s) <= m)%nat.
Proof.
  induction s as [|c s IH]; intros n m.
  - destruct n, m; cbn; lia.
  - destruct n as [|n]; cbn.
    + destruct m as [|m]; cbn; [lia|]. specialize (IH 0%nat m). lia.
    + apply IH.
Qed.

Lemma length_substring_le s : forall n m,
  (String.length (String.substring n m s) <= String.length s)%nat.
Proof.
  induction s as [|c s IH]; intros n m.
  - destruct n, m; cbn; lia.
  - destruct n as [|n]; cbn.
    + destruct m as [|m]; cbn; [lia|]. specialize (IH 0%nat m). lia.
    + specialize (IH n m). lia.
Qed.

Lemma prefix_length p s : String.prefix p s = true -> (String.length p <= String.length s)%nat.
Proof.
  intros H. apply prefix_correct in H. rewrite <- H at 1. apply length_substring_le.
Qed.

Lemma prefix_append p : forall d t, String.prefix p d = true -> String.prefix p (d +:+ t) = true.
Proof.
  induction p as [|a p IH]; intros d t; [destruct (d +:+ t); reflexivity|].
  destruct d as [|b d]; [discriminate|].
  change (String b d +:+ t) with (String b (d +:+ t)). cbn [String.prefix].
  destruct (ascii_dec a b); [apply IH|discriminate].
Qed.

Lemma length_dropLeadingZero s :
  (String.length (dropLeadingZero s) <= String.length s)%nat.
Proof.
  unfold dropLeadingZero, JS.substrFrom, JS.startsWith.
  destruct (String.prefix "0." s); [|destruct (String.prefix "-0." s) eqn:Hp].
  - etransitivity; [apply length_substring|]. lia.
  - rewrite length_append. change (String.length "-") with 1%nat.
    pose proof (length_substring s 2 (String.length s - 2)).
    apply prefix_length in Hp. change (String.length "-0.") with 3%nat in Hp. lia.
  - lia.
Qed.

(** X14: the printed form of a number, whenever there is one, ends with
    a space, starts with a space or with a minus sign, and has at most
    13 characters. *)
Theorem printed_number_shape (obj : float) (out : string) :
  numberToString obj = Some out ->
  (exists body, out = body +:+ " ")
  /\ (JS.startsWith out " " || JS.startsWith out "-" = true)
  /\ (String.length out <= 13)%nat.
Proof.
  unfold numberToString.
  destruct (reducePrecision _ _ _) as [numstr|] eqn:Hred; [|discriminate].
  intros [= <-]. destruct (reducePrecision_spec _ _ _ _ Hred) as (Hlen & _).
  pose proof (length_dropLeadingZero numstr) as Hd.
  set (d := dropLeadingZero numstr) in *. unfold padNumber.
  destruct (JS.startsWith d "-") eqn:Hm.
  - split; [exists d; reflexivity|]. split.
    + unfold JS.startsWith in *. rewrite (prefix_append "-" d " " Hm). apply orb_true_r.
    + rewrite length_append. cbn [String.length]. lia.
  - split; [exists (" " +:+ d); reflexivity|]. split.
    { unfold JS.startsWith. rewrite (prefix_append " " " " (d +:+ " ") eq_refl). reflexivity. }
    rewrite !length_append. cbn [String.length]. lia.
Qed.

Lemma printed_number_shape_witness :
  (String.length " 1.23457e+11 " <= 13)%nat.
Proof.
  destruct (printed_number_shape 123456789012 " 1.23457e+11 ") as (_ & _ & H).
  - vm_compute. reflexivity.
  - exact H.
Defined.

(** ** Expressions *)

Lemma parseExpr1_stop n left minPred q :
  tokens q = [] -> type (eol q) = EOL -> 0 <= minPred ->
  parseExpr1 (S n) left minPred q = Ok left q.
Proof.
  intros Ht He Hm. rewrite parseExpr1_S. pm. unfold peekToken. rewrite Ht.
  unfold getPrecedence. rewrite He.
  destruct (Z.leb_spec minPred (-1)); [lia|reflexivity].
Qed.

Lemma parseExpr1Right_stop n right opPrec q :
  tokens q = [] -> type (eol q) = EOL -> 0 <= opPrec ->
  parseExpr1Right (S n) right opPrec q = Ok right q.
Proof.
  intros Ht He Hm. rewrite parseExpr1Right_S. pm. unfold peekToken. rewrite Ht.
  unfold getPrecedence. rewrite He.
  destruct (Z.ltb_spec opPrec (-1)); [lia|reflexivity].
Qed.

(** One turn of the outer loop of [parseExpr1]: the operator and the
    operand after it are consumed. *)
Lemma parseExpr1_turn n left minPred q o b rest :
  tokens q = o :: b :: rest ->
  minPred <= getPrecedence o ->
  operatorAllowed (popts q) (str o) = true ->
  isOperand b = true ->
  nextNotParen q rest ->
  exists q2,
    tokens q2 = rest /\ popts q2 = popts q /\ eol q2 = eol q
    /\ parseExpr1 (S (S (S n))) left minPred q
       = (right' ← parseExpr1Right (S (S n)) (operandExpr b) (getPrecedence o);
          parseExpr1 (S (S n)) (BinOp (opName (str o)) left right') minPred) q2.
Proof.
  intros Ht Hmin Hallowed Hb Hnp.
  rewrite parseExpr1_S. pm. unfold peekToken at 1. rewrite Ht.
  destruct (Z.leb_spec minPred (getPrecedence o)); [|lia].
  unfold consumeToken at 1. rewrite Ht.
  cbn [popts set_lasttoken set_tokens]. rewrite Hallowed. cbn [negb].
  destruct (parsePrimary_operand n (set_lasttoken (Some o) (set_tokens (b :: rest) q)) b rest)
    as (q2 & Hp2 & Ht2 & Ho2 & He2); [reflexivity|exact Hb|exact Hnp|].
  rewrite Hp2. exists q2. repeat split; assumption.
Qed.

Lemma operatorAt_not_paren o p t : 0 <= p -> operatorAt o p t = true -> str t <> "(".
Proof.
  intros Hp H Hs. unfold operatorAt in H. apply andb_true_iff in H as [H _].
  apply Z.eqb_eq in H. rewrite (getPrecedence_paren _ Hs) in H. lia.
Qed.

(** X15: an expression of three operands and two operators parses to the
    tree in which the second operator is applied first exactly when its
    precedence is strictly higher than the first one's; otherwise the
    first operator is applied first. *)
Theorem precedence_decides_grouping (q : Parser) (a o1 b o2 c : Token) (p1 p2 : Z)
    (fuel : nat) :
  tokens q = [a; o1; b; o2; c] ->
  type (eol q) = EOL -> str (eol q) = EmptyString ->
  isOperand a = true -> isOperand b = true -> isOperand c = true ->
  0 <= p1 -> 0 <= p2 ->
  operatorAt (popts q) p1 o1 = true ->
  operatorAt (popts q) p2 o2 = true ->
  (8 <= fuel)%nat ->
  exists q',
    parseExpr fuel q
    = Ok (if p1 <? p2
          then BinOp (opName (str o1)) (operandExpr a)
                     (BinOp (opName (str o2)) (operandExpr b) (operandExpr c))
          else BinOp (opName (str o2))
                     (BinOp (opName (str o1)) (operandExpr a) (operandExpr b))
                     (operandExpr c)) q'
    /\ tokens q' = [].
Proof.
  intros Ht He1 He2 Ha Hb Hc Hp1 Hp2 Ho1 Ho2 Hfuel.
  pose proof (operatorAt_not_paren _ _ _ Hp1 Ho1) as Hn1.
  pose proof (operatorAt_not_paren _ _ _ Hp2 Ho2) as Hn2.
  unfold operatorAt in Ho1, Ho2.
  apply andb_true_iff in Ho1 as [Hq1 Hal1]. apply Z.eqb_eq in Hq1.
  apply andb_true_iff in Ho2 as [Hq2 Hal2]. apply Z.eqb_eq in Hq2.
  do 8 (destruct fuel as [|fuel]; [lia|]).
  rewrite parseExpr_S. pm.
  destruct (parsePrimary_operand (S (S (S (S (S fuel))))) q a [o1; b; o2; c] Ht Ha Hn1)
    as (qa & Hpa & Hta & Hoa & Hea).
  rewrite Hpa.
  destruct (parseExpr1_turn (S (S (S (S fuel)))) (operandExpr a) 0 qa o1 b [o2; c])
    as (qb & Htb & Hob & Heb & ->); try assumption; try lia.
  { rewrite Hoa. exact Hal1. }
  pm. rewrite parseExpr1Right_S. pm. unfold peekToken at 1. rewrite Htb, Hq1, Hq2.
  assert (Hec : nextNotParen qb []).
  { cbn. rewrite Heb, Hea, He2. discriminate. }
  destruct (Z.ltb_spec p1 p2) as [Hlt|Hge].
  - destruct (parseExpr1_turn (S (S fuel)) (operandExpr b) p2 qb o2 c [])
      as (qc & Htc & Hoc & Hec' & ->); try assumption; try lia.
    { rewrite Hob, Hoa. exact Hal2. }
    pm. rewrite Hq2.
    assert (Heol : type (eol qc) = EOL) by (rewrite Hec', Heb, Hea; exact He1).
    rewrite (parseExpr1Right_stop _ _ _ _ Htc Heol Hp2).
    rewrite (parseExpr1_stop _ _ _ _ Htc Heol Hp2).
    rewrite (parseExpr1Right_stop _ _ _ _ Htc Heol Hp1).
    rewrite (parseExpr1_stop _ _ _ _ Htc Heol (Z.le_refl 0)).
    eexists. split; [reflexivity|exact Htc].
  - destruct (parseExpr1_turn (S (S (S fuel)))
                (BinOp (opName (str o1)) (operandExpr a) (operandExpr b)) 0 qb o2 c [])
      as (qc & Htc & Hoc & Hec' & ->); try assumption; try lia.
    { rewrite Hob, Hoa. exact Hal2. }
    pm. rewrite Hq2.
    assert (Heol : type (eol qc) = EOL) by (rewrite Hec', Heb, Hea; exact He1).
    rewrite (parseExpr1Right_stop _ _ _ _ Htc Heol Hp2).
    rewrite (parseExpr1_stop _ _ _ _ Htc Heol (Z.le_refl 0)).
    eexists. split; [reflexivity|exact Htc].
Qed.

Lemma precedence_decides_grouping_witness :
  shapeOf (parseExpr budget (tokenized "1+2*3"))
  = Some (BinOp "add" (num 1) (BinOp "mul" (num 2) (num 3))).
Proof.
  edestruct (precedence_decides_grouping (tokenized "1+2*3")) with (fuel := budget)
    as (q' & H & _).
  - vm_compute. reflexivity.
  - reflexivity.
  - reflexivity.
  - vm_compute. reflexivity.
  - vm_compute. reflexivity.
  - vm_compute. reflexivity.
  - instantiate (1 := 100). lia.
  - instantiate (1 := 200). lia.
  - vm_compute. reflexivity.
  - vm_compute. reflexivity.
  - vm_compute. lia.
  - rewrite H. vm_compute. reflexivity.
Defined.

(** ** Jump targets *)

Lemma In_insertKey {A : Type} (x kv : string * A) l :
  In x (insertKey kv l) <-> x = kv \/ In x l.
Proof.
  induction l as [|kv' l IH]; cbn [insertKey].
  - cbn. intuition.
  - destruct (_ <? _); cbn [In]; [intuition|]. rewrite IH. intuition.
Qed.

Lemma In_sorted {A : Type} (x : string * A) l :
  In x (foldr insertKey [] l) <-> In x l.
Proof.
  induction l as [|kv l IH]; cbn [foldr]; [reflexivity|].
  rewrite In_insertKey, IH. cbn. intuition.
Qed.

Lemma In_keyOrder {A : Type} (x : string * A) l : In x (keyOrder l) <-> In x l.
Proof.
  unfold keyOrder. rewrite in_app_iff, In_sorted, <- !list_elem_of_In, !list_elem_of_filter.
  destruct (isArrayIndex (fst x)); cbn; intuition.
Qed.

(** The loop of [checkLabels] stops at the first target without a line. *)
Lemma checkLoop_spec (lbls : gmap string nat) (l : list (string * SourceLocation)) q :
  let m := foldr (fun '(targ, loc) k =>
                    when (bool_decide (lbls !! targ = None))
                         (compileErrorAt ("There isn't a line number " +:+ targ +:+ ".") loc);;
                    k) (ret tt) l in
  (List.Forall (fun kv => lbls !! fst kv <> None) l -> m q = Ok tt q)
  /\ (List.Exists (fun kv => lbls !! fst kv = None) l ->
      exists targ loc,
        In (targ, loc) l /\ lbls !! targ = None
        /\ m q = compileErrorAt ("There isn't a line number " +:+ targ +:+ ".") loc q).
Proof.
  induction l as [|[targ loc] l IH]; cbn [foldr]; cbn zeta.
  - split; [reflexivity|]. intros H. inversion H.
  - cbn zeta in IH. destruct IH as [IH1 IH2]. unfold mbind, M_bind, bind.
    destruct (lbls !! targ) as [n|] eqn:Hl.
    + rewrite bool_decide_eq_false_2 by discriminate. cbn [when ret]. split.
      * intros H. inversion H; subst. apply IH1. assumption.
      * intros H. inversion H as [? ? Hx|? ? Hx]; subst; cbn in Hx; [congruence|].
        destruct (IH2 Hx) as (t' & loc' & Hin & Hm & Heq).
        exists t', loc'. split; [right; exact Hin|]. split; [exact Hm|exact Heq].
    + rewrite bool_decide_eq_true_2 by reflexivity. cbn [when]. split.
      * intros H. inversion H; subst. cbn in *. congruence.
      * intros _. exists targ, loc. split; [left; reflexivity|]. split; [exact Hl|].
        reflexivity.
Qed.

(** X16: when every jump target recorded by the parser is the label of
    a line, [checkLabels] returns and changes nothing.  When some target
    is not, it throws: it records the missing-line error for one such
    target, at the place of the jump, and no other error. *)
Theorem undefined_target_is_reported (q : Parser) :
  (List.Forall (fun kv => labels q !! fst kv <> None) (targets q) -> checkLabels q = Ok tt q)
  /\ (List.Exists (fun kv => labels q !! fst kv = None) (targets q) ->
      exists targ loc,
        In (targ, loc) (targets q) /\ labels q !! targ = None
        /\ checkLabels q
           = Throw (("There isn't a line number " +:+ targ +:+ ".")
                    +:+ " (line " +:+ JS.decZ (Z.of_nat (line loc)) +:+ ")")
                   (set_errors (errors q ++ [missingLine targ loc])%list q)).
Proof.
  destruct (checkLoop_spec (labels q) (keyOrder (targets q)) q) as [H1 H2]. cbn zeta in H1, H2.
  change (checkLabels q)
    with (foldr (fun '(targ, loc) k =>
                   when (bool_decide (labels q !! targ = None))
                        (compileErrorAt ("There isn't a line number " +:+ targ +:+ ".") loc);;
                   k) (ret tt) (keyOrder (targets q)) q).
  split.
  - intros H. apply H1. apply List.Forall_forall. intros x Hx.
    apply (proj1 (In_keyOrder _ _)) in Hx. exact (proj1 (List.Forall_forall _ _) H x Hx).
  - intros H. destruct H2 as (targ & loc & Hin & Hm & Heq).
    + apply List.Exists_exists in H. destruct H as (x & Hx & Hn).
      apply List.Exists_exists. exists x. split; [apply (proj2 (In_keyOrder _ _)); exact Hx|exact Hn].
    + exists targ, loc. split; [apply (proj1 (In_keyOrder _ _)) in Hin; exact Hin|]. split; [exact Hm|].
      rewrite Heq. reflexivity.
Qed.

Lemma undefined_target_is_reported_witness :
  exists targ loc,
    labels (parserAfter (splitLines EmptyString danglingProgram)) !! targ = None
    /\ checkLabels (parserAfter (splitLines EmptyString danglingProgram))
       = Throw (("There isn't a line number " +:+ targ +:+ ".")
                +:+ " (line " +:+ JS.decZ (Z.of_nat (line loc)) +:+ ")")
               (set_errors
                  (errors (parserAfter (splitLines EmptyString danglingProgram))
                   ++ [missingLine targ loc])%list
                  (parserAfter (splitLines EmptyString danglingProgram))).
Proof.
  destruct (proj2 (undefined_target_is_reported
                     (parserAfter (splitLines EmptyString danglingProgram))))
    as (targ & loc & Hin & Hm & Heq).
  - apply List.Exists_exists.
    exists ("30", {| line := 1; start := 8; end_ := Some 10%nat |}).
    split; [vm_compute; left; reflexivity|vm_compute; reflexivity].
  - exists targ, loc. split; [exact Hm|exact Heq].
Defined.

(** ** Parser methods that keep a relation *)

Section ParserRelation.

Variables Rok Rthrow : Parser -> Parser -> Prop.
Hypothesis HF : ParserFrame Rok Rthrow.

Local Abbreviation ob := (obeys Rok Rthrow).

Ltac pframe :=
  intros; cbn beta;
  repeat (eapply (pf_trans _ _ HF);
          [| first [ apply (pf_tokens _ _ HF) | apply (pf_lasttoken _ _ HF)
                   | apply (pf_targets _ _ HF) | apply (pf_decls _ _ HF)
                   | apply (pf_refs _ _ HF) | apply (pf_popts _ _ HF)
                   | apply (pf_curlabel _ _ HF) | apply (pf_labels _ _ HF) ] ]);
  apply (pf_refl _ _ HF).



Lemma ob_ret {A} (a : A) : ob (mret a).
Proof. intros q. apply (pf_refl _ _ HF). Qed.

Lemma ob_bind {A B} (m : M A) (k : A -> M B) :
  ob m -> (forall a, ob (k a)) -> ob (m ≫= k).
Proof.
  intros Hm Hk q. unfold mbind, M_bind, bind. specialize (Hm q).
  destruct (m q) as [a q'| |]; try assumption.
  specialize (Hk a q'). destruct (k a q'); try exact I.
  - eapply (pf_trans _ _ HF); eassumption.
  - eapply (pf_throw _ _ HF); eassumption.
Qed.

Lemma ob_get {A} (proj : Parser -> A) : ob (get proj).
Proof. intros q. apply (pf_refl _ _ HF). Qed.

Lemma ob_modify (g : Parser -> Parser) :
  (forall q, Rok q (g q)) -> ob (modify g).
Proof. intros H q. apply H. Qed.

Lemma ob_peek : ob peekToken.
Proof. intros q. unfold peekToken. destruct (tokens q); apply (pf_refl _ _ HF). Qed.

Lemma ob_consume : ob consumeToken.
Proof. intros q. unfold consumeToken. destruct (tokens q); pframe. Qed.

Lemma ob_compileErrorAt {A} m loc : ob (@compileErrorAt A m loc).
Proof. intros q. apply (pf_error _ _ HF). Qed.

Lemma ob_compileError {A} m : ob (@compileError A m).
Proof. apply ob_bind; [apply ob_peek|intros; apply ob_compileErrorAt]. Qed.

Lemma ob_dialectError {A} m : ob (@dialectError A m).
Proof. apply ob_compileError. Qed.

Lemma ob_when b m : ob m -> ob (when b m).
Proof. intros H. destruct b; [exact H|apply ob_ret]. Qed.

Lemma ob_pushback t : ob (pushbackToken t).
Proof. intros q. unfold pushbackToken, modify. pframe. Qed.

Lemma ob_lastLoc : ob lastLoc.
Proof. intros q. unfold lastLoc. destruct (lasttoken q); apply (pf_refl _ _ HF). Qed.

Create HintDb ob.
Hint Resolve ob_ret ob_get ob_peek ob_consume ob_compileErrorAt ob_compileError
  ob_dialectError ob_pushback ob_lastLoc : ob.

Ltac ob_step :=
  match goal with
  | |- ob (mret _) => apply ob_ret
  | |- ob (ret _) => apply (ob_ret _)
  | |- ob (_ ≫= _) => apply ob_bind; [|intros ?]
  | |- ob (when _ _) => apply ob_when
  | |- ob (modify _) => apply ob_modify; intros ?; pframe
  | |- ob (if ?b then _ else _) => destruct b
  | |- ob (match ?x with _ => _ end) => destruct x
  | |- ob (let '(_, _) := ?x in _) => destruct x
  | |- ob _ => solve [auto with ob]
  end.
Ltac obt := repeat ob_step.

Lemma ob_expect s : ob (expectToken s).
Proof. unfold expectToken. obt. Qed.
Hint Resolve ob_expect : ob.

Lemma ob_parseNumber s : ob (parseNumber s).
Proof. unfold parseNumber. obt. Qed.

Lemma ob_parseLabel : ob parseLabel.
Proof. unfold parseLabel. obt. Qed.
Hint Resolve ob_parseNumber ob_parseLabel : ob.

Lemma ob_parseList {T} n (pf : M (option T)) d acc :
  ob pf -> ob (parseList n pf d acc).
Proof.
  intros H. revert acc. induction n as [|n IH]; intros acc; cbn [parseList].
  - intros q. exact I.
  - obt; auto.
Qed.

Lemma ob_exprs n :
  ob (parsePrimary n) /\ ob (parseVarOrIndexed n)
  /\ ob (parseExprList n) /\ ob (parseExpr n)
  /\ (forall l m, ob (parseExpr1 n l m))
  /\ (forall r p, ob (parseExpr1Right n r p)).
Proof.
  induction n as [|n (IH1 & IH2 & IH3 & IH4 & IH5 & IH6)].
  - repeat split; intros; intros q; exact I.
  - repeat split; intros.
    + cbn [parsePrimary]. obt; auto.
    + cbn [parseVarOrIndexed]. obt; auto.
    + cbn [parseExprList]. apply ob_parseList. obt; auto.
    + cbn [parseExpr]. obt; auto.
    + cbn [parseExpr1]. obt; auto.
    + cbn [parseExpr1Right]. obt; auto.
Qed.

Lemma ob_parsePrimary n : ob (parsePrimary n).
Proof. apply ob_exprs. Qed.
Lemma ob_parseVarOrIndexed n : ob (parseVarOrIndexed n).
Proof. apply ob_exprs. Qed.
Lemma ob_parseExprList n : ob (parseExprList n).
Proof. apply ob_exprs. Qed.
Lemma ob_parseExpr n : ob (parseExpr n).
Proof. apply ob_exprs. Qed.
Hint Resolve ob_parsePrimary ob_parseVarOrIndexed ob_parseExprList ob_parseExpr : ob.

Lemma ob_declare nm : ob (declare nm).
Proof. unfold declare. obt. Qed.
Hint Resolve ob_declare : ob.

Lemma ob_declareAll (l : list IndOp) :
  ob (foldr (fun lexpr k => declare (name lexpr);; k) (ret tt) l).
Proof. induction l; cbn [foldr]; obt; auto. Qed.

Lemma ob_parseLexprList n : ob (parseLexprList n).
Proof.
  unfold parseLexprList. obt.
  - apply ob_parseList. obt.
  - apply ob_declareAll.
Qed.

Lemma ob_parseLabelList n : ob (parseLabelList n).
Proof. unfold parseLabelList. apply ob_parseList. obt. Qed.
Hint Resolve ob_parseLexprList ob_parseLabelList : ob.

Lemma ob_printLoop n e l ls : ob (printLoop n e l ls).
Proof.
  revert l ls. induction n as [|n IH]; intros l ls; cbn [printLoop].
  - intros q. exact I.
  - obt; auto.
Qed.
Hint Resolve ob_printLoop : ob.

Lemma ob_parseOptions a b : ob (parseOptions a b).
Proof. unfold parseOptions. obt. Qed.

Lemma ob_optionArgs ts acc : ob (optionArgs ts acc).
Proof. revert acc. induction ts as [|t ts IH]; intros acc; cbn [optionArgs]; obt; auto. Qed.

Lemma ob_skipRemark ts : ob (skipRemark ts).
Proof. induction ts as [|t ts IH]; cbn [skipRemark]; obt; auto. Qed.
Hint Resolve ob_parseOptions ob_optionArgs ob_skipRemark : ob.

Lemma ob_stmt__LET n : ob (stmt__LET n).
Proof. unfold stmt__LET. obt. Qed.
Lemma ob_stmt__PRINT n : ob (stmt__PRINT n).
Proof. unfold stmt__PRINT. obt. Qed.
Lemma ob_stmt__GOTO : ob stmt__GOTO.
Proof. unfold stmt__GOTO. obt. Qed.
Lemma ob_stmt__GOSUB : ob stmt__GOSUB.
Proof. unfold stmt__GOSUB. obt. Qed.
Lemma ob_stmt__IF n : ob (stmt__IF n).
Proof. unfold stmt__IF. obt. Qed.
Lemma ob_stmt__FOR n : ob (stmt__FOR n).
Proof. unfold stmt__FOR. obt. Qed.
Lemma ob_stmt__NEXT n : ob (stmt__NEXT n).
Proof. unfold stmt__NEXT. obt. Qed.
Lemma ob_stmt__DIM n : ob (stmt__DIM n).
Proof. unfold stmt__DIM. obt. Qed.
Lemma ob_stmt__INPUT n : ob (stmt__INPUT n).
Proof. unfold stmt__INPUT. obt. Qed.
Lemma ob_stmt__DATA n : ob (stmt__DATA n).
Proof. unfold stmt__DATA. obt. Qed.
Lemma ob_stmt__READ n : ob (stmt__READ n).
Proof. unfold stmt__READ. obt. Qed.
Lemma ob_stmt__ON n : ob (stmt__ON n).
Proof. unfold stmt__ON. obt. Qed.
Lemma ob_stmt__DEF n : ob (stmt__DEF n).
Proof. unfold stmt__DEF. obt. Qed.
Lemma ob_stmt__OPTION : ob stmt__OPTION.
Proof. unfold stmt__OPTION. obt. Qed.
Hint Resolve ob_stmt__LET ob_stmt__PRINT ob_stmt__GOTO ob_stmt__GOSUB ob_stmt__IF
  ob_stmt__FOR ob_stmt__NEXT ob_stmt__DIM ob_stmt__INPUT ob_stmt__DATA ob_stmt__READ
  ob_stmt__ON ob_stmt__DEF ob_stmt__OPTION : ob.

Lemma ob_stmtFn cmd fn n : stmtFn cmd = Some fn -> ob (fn n).
Proof.
  unfold stmtFn, assoc.
  repeat (destruct (String.eqb cmd _); [intros H; injection H as <-; obt|]).
  intros H; discriminate H.
Qed.

Lemma ob_located t c : ob (located t c).
Proof. unfold located. obt. Qed.
Hint Resolve ob_located : ob.

Lemma ob_parseStatement n : ob (parseStatement n).
Proof.
  unfold parseStatement.
  repeat first
    [ match goal with
      | |- ob (match stmtFn ?c with _ => _ end) => destruct (stmtFn c) eqn:?
      | H : stmtFn _ = Some ?fn |- ob (?fn _) => exact (ob_stmtFn _ _ _ H)
      end
    | ob_step ].
Qed.

Lemma ob_parseCompoundStatement n : ob (parseCompoundStatement n).
Proof.
  unfold parseCompoundStatement. obt. apply ob_parseList. apply ob_parseStatement.
Qed.

Lemma ob_parseOptLabel : ob parseOptLabel.
Proof. unfold parseOptLabel. obt. Qed.

Lemma ob_parse n : ob (parse n).
Proof.
  unfold parse. obt.
  - apply ob_parseOptLabel.
  - apply ob_parseCompoundStatement.
Qed.

End ParserRelation.

Lemma ParserFrame_errors : ParserFrame sameErrors oneError.
Proof.
  split; unfold sameErrors, oneError; try (intros; cbn; auto; fail).
  - intros a b c [H1 H2] [H3 H4]. split; congruence.
  - intros a b c [H1 H2] [[e H3] H4]. split; [exists e|]; congruence.
  - intros q e. cbn. eauto.
Qed.

(** Parsing a line never throws: an error is recorded and the line
    comes out empty. *)
Lemma parseLine_errors (fuel : nat) (ln : string) (q : Parser) :
  match parseLine fuel ln q with
  | Ok l q' =>
      lineno q' = S (lineno q)
      /\ (errors q' = errors q
          \/ (l = emptyLine /\ exists e, errors q' = (errors q ++ [e])%list))
  | Throw _ _ => False
  | OutOfFuel => True
  end.
Proof.
  unfold parseLine. unfold mbind, M_bind, bind. unfold tokenize at 1, modify.
  match goal with
  | |- context [parse fuel ?s] =>
      pose proof (ob_parse sameErrors oneError ParserFrame_errors fuel s) as H;
      destruct (parse fuel s) as [l q'|e q'|]; [| |exact I]
  end.
  - destruct H as [H1 H2]. cbn in H1, H2. auto.
  - destruct H as [[e' H1] H2]. cbn in H1, H2. split; [exact H2|].
    right. split; [reflexivity|]. exists e'. exact H1.
Qed.

(** X17: parsing a line never throws a compile error.  When it returns,
    it has advanced the line number by one, and either it has recorded
    no error, or it has recorded exactly one error and returns the
    empty line. *)
Theorem parseLine_reports_failures (fuel : nat) (ln : string) (q : Parser) :
  (forall m q', parseLine fuel ln q <> Throw m q')
  /\ (forall l q',
        parseLine fuel ln q = Ok l q' ->
        lineno q' = S (lineno q)
        /\ (errors q' = errors q
            \/ (l = emptyLine /\ exists e, errors q' = (errors q ++ [e])%list))).
Proof.
  pose proof (parseLine_errors fuel ln q) as H. split.
  - intros m q' Heq. rewrite Heq in H. exact H.
  - intros l q' Heq. rewrite Heq in H. exact H.
Qed.

Lemma parseLine_reports_failures_witness :
  exists q',
    parseLine budget "20 FOOBAR" newParser = Ok emptyLine q'
    /\ lineno q' = 1%nat
    /\ exists e, errors q' = [e].
Proof.
  destruct (parseLine budget "20 FOOBAR" newParser) as [l q'| |] eqn:H;
    try (vm_compute in H; discriminate H).
  destruct (proj2 (parseLine_reports_failures budget "20 FOOBAR" newParser) l q' H)
    as [Hn He].
  assert (Hl : l = emptyLine /\ exists e, errors q' = [e]).
  { destruct He as [He|He]; [|exact He].
    exfalso. vm_compute in H. injection H as <- <-. discriminate He. }
  destruct Hl as [-> He']. exists q'. split; [reflexivity|]. split; [exact Hn|exact He'].
Defined.

(** X18: parsing the lines of a file gives one line of the program for
    each source line, advances the line number by their count, keeps
    the errors recorded before and adds at most one error per line. *)
Theorem parseLines_line_by_line (fuel : nat) (lns : list string) :
  forall q ls q',
    parseLines fuel lns q = Ok ls q' ->
    length ls = length lns
    /\ lineno q' = (lineno q + length lns)%nat
    /\ exists es, errors q' = (errors q ++ es)%list /\ (length es <= length lns)%nat.
Proof.
  induction lns as [|ln lns IH]; intros q ls q'; cbn [parseLines].
  - intros [= <- <-]. split; [reflexivity|]. split; [cbn; lia|].
    exists []. rewrite app_nil_r. split; [reflexivity|cbn; lia].
  - unfold mbind, M_bind, bind.
    pose proof (parseLine_errors fuel ln q) as H1.
    destruct (parseLine fuel ln q) as [l q1| |]; try discriminate.
    destruct (parseLines fuel lns q1) as [ls1 q2| |] eqn:H2; try discriminate.
    intros [= <- <-]. destruct (IH _ _ _ H2) as (Ha & Hb & es & Hc & Hd).
    destruct H1 as [Hl He]. cbn [length]. split; [lia|]. split; [lia|].
    destruct He as [He|(_ & e & He)]; rewrite Hc, He.
    + exists es. split; [reflexivity|lia].
    + exists (e :: es). rewrite <- app_assoc. split; [reflexivity|cbn; lia].
Qed.

Lemma parseLines_line_by_line_witness :
  exists ls q',
    parseLines budget (splitLines EmptyString brokenProgram) newParser = Ok ls q'
    /\ length ls = 3%nat /\ lineno q' = 3%nat.
Proof.
  destruct (parseLines budget (splitLines EmptyString brokenProgram) newParser)
    as [ls q'| |] eqn:H; try (vm_compute in H; discriminate H).
  destruct (parseLines_line_by_line _ _ _ _ _ H) as (H1 & H2 & _).
  exists ls, q'. split; [reflexivity|]. split; [exact H1|exact H2].
Defined.

(** ** NEXT without its FOR *)

Lemma step_NEXT_code r st lexpr :
  running r = true -> getStatement r = Some st ->
  command (stmt st) = NEXT lexpr -> cacheSound st ->
  exists a,
    step r = (exec [JNextForLoop match lexpr with
                                 | Some (Lookup n _ _) => Some n
                                 | _ => None
                                 end];; read running)
               (set_allstmts a (set_curpc (curpc r + 1) r)).
Proof.
  intros Hr Hs Hc Hsound.
  edestruct (step_runs r st (do__NEXT lexpr)) as (a & _ & _ & Hstep);
    [exact Hr|exact Hs| | | |].
  - rewrite Hc. reflexivity.
  - reflexivity.
  - intros c Hrun. destruct (Hsound _ Hrun) as (g & r0 & r1 & Hg & Hd).
    rewrite Hc in Hg. cbn in Hg. injection Hg as <-.
    cbv [do__NEXT mret R_ret rret] in Hd. injection Hd as <- _. reflexivity.
  - exists a. exact Hstep.
Qed.

(** X19: a running NEXT statement executed when no loop is open makes
    [step] throw; so does one that names a variable other than that of
    the innermost open loop.  In both cases the variables and the open
    loops are as before and the program counter is back on the NEXT. *)
Theorem next_needs_its_for (r : Runtime) (st : CompiledStatement) (lexpr : option Expr) :
  running r = true ->
  getStatement r = Some st ->
  command (stmt st) = NEXT lexpr ->
  cacheSound st ->
  (forLoops r = [] ->
   exists r',
     step r = Halt ("I couldn't find a FOR for this NEXT."
                    +:+ " (line " +:+ getLabelForPC r (curpc r) +:+ ")") r'
     /\ curpc r' = curpc r /\ vars r' = vars r /\ forLoops r' = [])
  /\ (forall fl rest x a loc,
        forLoops r = fl :: rest ->
        lexpr = Some (Lookup x a loc) ->
        nonEmpty x = true -> x <> forname fl ->
        exists r',
          step r = Halt (("I executed NEXT " +:+ quoted x
                          +:+ ", but the last FOR was for " +:+ quoted (forname fl) +:+ ".")
                         +:+ " (line " +:+ getLabelForPC r (curpc r) +:+ ")") r'
          /\ curpc r' = curpc r /\ vars r' = vars r /\ forLoops r' = fl :: rest).
Proof.
  intros Hr Hs Hc Hsound.
  destruct (step_NEXT_code r st lexpr Hr Hs Hc Hsound) as (al & ->).
  split.
  - intros Hfl. unfold exec, execStmt, nextForLoop.
    unfold mbind, mret, R_bind, R_ret, rbind, rret, read.
    cbn [forLoops set_allstmts set_curpc]. rewrite Hfl.
    unfold runtimeError. cbn. replace (curpc r + 1 - 1) with (curpc r) by lia.
    eexists. split; [reflexivity|]. cbn. repeat split. exact Hfl.
  - intros fl rest x a loc Hfl -> Hx Hne. unfold exec, execStmt, nextForLoop, next.
    unfold mbind, mret, R_bind, R_ret, rbind, rret, read.
    cbn [forLoops set_allstmts set_curpc]. rewrite Hfl, Hx.
    destruct (String.eqb_spec (forname fl) x) as [Heq|_]; [congruence|]. cbn [negb andb].
    unfold runtimeError. cbn. replace (curpc r + 1 - 1) with (curpc r) by lia.
    eexists. split; [reflexivity|]. cbn. repeat split. exact Hfl.
Qed.

Lemma next_needs_its_for_witness :
  (exists r', step (booted strayNextProgram)
              = Halt "I couldn't find a FOR for this NEXT. (line 10)" r')
  /\ (exists r', step (stateAfter 1 crossedProgram)
                 = Halt ("I executed NEXT " +:+ quoted "J"
                         +:+ ", but the last FOR was for " +:+ quoted "I" +:+ ". (line 10)") r').
Proof.
  split.
  - edestruct (next_needs_its_for (booted strayNextProgram)) as [H _].
    + vm_compute. reflexivity.
    + vm_compute. reflexivity.
    + cbn. reflexivity.
    + intros c Hc. discriminate Hc.
    + destruct H as (r' & H1 & _); [vm_compute; reflexivity|]. exists r'. exact H1.
  - edestruct (next_needs_its_for (stateAfter 1 crossedProgram)) as [_ H].
    + vm_compute. reflexivity.
    + vm_compute. reflexivity.
    + cbn. reflexivity.
    + intros c Hc. discriminate Hc.
    + edestruct H as (r' & H1 & _).
      * vm_compute. reflexivity.
      * reflexivity.
      * reflexivity.
      * vm_compute. discriminate.
      * exists r'. exact H1.
Defined.

(** ** Files *)






(** ** DATA and the line table of [load] *)

Lemma Frame_keepsTables : Frame keepsTables.
Proof.
  split; unfold keepsTables; try (intros; cbn; auto; fail).
  intros a b c (H1 & H2 & H3 & H4) (H5 & H6 & H7 & H8). repeat split; congruence.
Qed.

(** The [forEach] over the DATA items of a line. *)
Lemma loadData_spec (ds : list Expr) : forall r us r',
  mapR (fun d =>
          functext ← expr2js d true true [];
          value ← eval functext;
          update (fun r => set_datums (datums r ++ [value])%list r)) ds r = Done us r' ->
  allstmts r' = allstmts r /\ pc2line r' = pc2line r /\ program r' = program r
  /\ exists vs, datums r' = (datums r ++ vs)%list /\ Forall2 dataValue ds vs.
Proof.
  induction ds as [|d ds IH]; intros r us r'; cbn [mapR].
  - unfold mret, R_ret, rret. intros [= <- <-]. repeat split. exists [].
    rewrite app_nil_r. split; [reflexivity|constructor].
  - unfold mbind, R_bind, rbind.
    pose proof (st_expr2js keepsTables Frame_keepsTables d true true [] r) as H1.
    destruct (expr2js d true true [] r) as [e r1| | |] eqn:He; try discriminate.
    pose proof (st_eval keepsTables Frame_keepsTables e r1) as H2.
    destruct (eval e r1) as [v r2| | |] eqn:Hv; try discriminate.
    unfold update at 1.
    match goal with
    | |- context [mapR ?g ds ?s] => destruct (mapR g ds s) as [us1 r3| | |] eqn:Hm; try discriminate
    end.
    unfold mret, R_ret, rret. intros [= <- <-]. apply IH in Hm.
    destruct H1 as (A1 & A2 & A3 & A4), H2 as (B1 & B2 & B3 & B4),
             Hm as (C1 & C2 & C3 & vs & C4 & C5).
    cbn in C1, C2, C3, C4.
    split; [congruence|]. split; [congruence|]. split; [congruence|].
    exists (v :: vs). split.
    + rewrite C4, B4, A4, <- app_assoc. reflexivity.
    + constructor; [|exact C5]. intros lit loc ->. cbn [expr2js] in He.
      unfold literal in He. destruct lit as [n|s|b|]; cbn [literalValue].
      * destruct (JS.isFinite n); [|discriminate He].
        injection He as <- <-. cbn [eval] in Hv. injection Hv as <- _. reflexivity.
      * injection He as <- <-. cbn [eval] in Hv. injection Hv as <- _. reflexivity.
      * discriminate He.
      * discriminate He.
Qed.

Lemma loadLine_tables ln idx r r' :
  loadLine ln idx r = Done tt r' ->
  allstmts r' = (allstmts r ++ lstmts ln)%list
  /\ pc2line r' = <[length (allstmts r) := idx]> (pc2line r)
  /\ program r' = program r
  /\ exists vs, datums r' = (datums r ++ vs)%list
                /\ Forall2 dataValue (concat (map dataOf (lstmts ln))) vs.
Proof.
  unfold loadLine. unfold mbind at 1 2, R_bind, rbind. unfold update at 1.
  match goal with
  | |- context [mapR ?g ?l ?s] => destruct (mapR g l s) as [us r1| | |] eqn:Hmap; try discriminate
  end.
  intros [= <-]. apply loadData_spec in Hmap.
  destruct Hmap as (H1 & H2 & H3 & vs & H4 & H5). rewrite H1, H2, H3, H4.
  destruct (llabel ln); cbn; (repeat split; []); exists vs; split; [reflexivity|exact H5|reflexivity|exact H5].
Qed.

Lemma loadLines_tables lns : forall idx r r',
  loadLines lns idx r = Done tt r' ->
  allstmts r' = (allstmts r ++ flatten lns)%list
  /\ pc2line r' = lineTable (length (allstmts r)) idx lns (pc2line r)
  /\ program r' = program r
  /\ exists vs, datums r' = (datums r ++ vs)%list /\ Forall2 dataValue (dataOfLines lns) vs.
Proof.
  induction lns as [|ln lns IH]; intros idx r r'; cbn [loadLines].
  - intros [= <-]. unfold flatten, dataOfLines. cbn. rewrite app_nil_r.
    repeat split. exists []. rewrite app_nil_r. split; [reflexivity|constructor].
  - unfold mbind, R_bind, rbind.
    destruct (loadLine ln idx r) as [[] r1| | |] eqn:H1; try discriminate.
    intros H2. apply loadLine_tables in H1. destruct H1 as (Ha & Hb & Hc & vs1 & Hd & He).
    apply IH in H2. destruct H2 as (Hf & Hg & Hh & vs2 & Hi & Hj).
    rewrite Hf, Hg, Hh, Hi, Ha, Hb, Hc, Hd. unfold flatten, dataOfLines.
    cbn [map concat lineTable]. rewrite length_app, <- !app_assoc. repeat split.
    exists (vs1 ++ vs2)%list. split; [reflexivity|]. apply Forall2_app; assumption.
Qed.

(** Literal DATA items are evaluated without touching anything but [datums]. *)
Lemma loadData_literals (ds : list Expr) :
  forallb isLiteral ds = true ->
  forall r, exists us r',
    mapR (fun d =>
            functext ← expr2js d true true [];
            value ← eval functext;
            update (fun r => set_datums (datums r ++ [value])%list r)) ds r = Done us r'
    /\ curpc r' = curpc r /\ pc2line r' = pc2line r /\ program r' = program r
    /\ allstmts r' = allstmts r.
Proof.
  induction ds as [|d ds IH]; intros Hall r; cbn [mapR].
  - exists [], r. repeat split.
  - cbn [forallb] in Hall. apply andb_prop in Hall. destruct Hall as [Hd Hds].
    destruct d as [v loc| | |]; try discriminate Hd. cbn [isLiteral] in Hd.
    assert (Hstep : exists v',
              (functext ← expr2js (Literal v loc) true true [];
               value ← eval functext;
               update (fun r => set_datums (datums r ++ [value])%list r)) r
              = Done tt (set_datums (datums r ++ [v'])%list r)).
    { cbn [expr2js]. unfold literal. destruct v as [n|s|b|]; try discriminate Hd.
      - cbn [parsedLiteral] in Hd. rewrite Hd. exists (VNum (jsonNumber n)). reflexivity.
      - exists (VStr s). reflexivity. }
    destruct Hstep as [v' Hstep].
    destruct (IH Hds (set_datums (datums r ++ [v'])%list r)) as (us & r' & Hm & H1 & H2 & H3 & H4).
    unfold mbind, R_bind, rbind in Hstep, Hm |- *. rewrite Hstep, Hm. exists (tt :: us), r'.
    split; [reflexivity|]. cbn in H1, H2, H3, H4. repeat split; assumption.
Qed.

(** The first DATA item that is a variable stops the loading. *)
Lemma loadData_variable (dpre dpost : list Expr) x a loc :
  forallb isLiteral dpre = true ->
  forall r, exists r',
    mapR (fun d =>
            functext ← expr2js d true true [];
            value ← eval functext;
            update (fun r => set_datums (datums r ++ [value])%list r))
         (dpre ++ Lookup x a loc :: dpost)%list r
    = runtimeError "I expected a constant value here" r'
    /\ curpc r' = curpc r /\ pc2line r' = pc2line r /\ program r' = program r.
Proof.
  induction dpre as [|d dpre IH]; intros Hall r; cbn [app mapR].
  - exists r. split; [|repeat split]. reflexivity.
  - cbn [forallb] in Hall. apply andb_prop in Hall. destruct Hall as [Hd Hds].
    destruct (loadData_literals [d] ltac:(cbn [forallb]; rewrite Hd; reflexivity) r)
      as (us & r1 & Hm & H1 & H2 & H3 & _).
    cbn [mapR] in Hm. unfold mbind, R_bind, rbind in Hm |- *.
    match type of Hm with
    | match ?m with _ => _ end = _ => destruct m as [u r2| | |] eqn:Hstep; try discriminate Hm
    end.
    cbn in Hm. injection Hm as _ <-.
    destruct (IH Hds r2) as (r' & Hm' & H4 & H5 & H6).
    unfold mbind, R_bind, rbind in Hm'. rewrite Hm'. exists r'.
    split; [reflexivity|]. repeat split; congruence.
Qed.

Lemma forallb_concat {A : Type} (g : A -> bool) (ls : list (list A)) :
  forallb g (concat ls) = forallb (forallb g) ls.
Proof.
  induction ls as [|l ls IH]; cbn [concat forallb]; [reflexivity|].
  rewrite forallb_app, IH. reflexivity.
Qed.

Lemma loadLines_literals (lns : list Line) :
  forallb isLiteral (dataOfLines lns) = true ->
  forall idx r, exists r', loadLines lns idx r = Done tt r'.
Proof.
  induction lns as [|ln lns IH]; intros Hall idx r; cbn [loadLines].
  - exists r. reflexivity.
  - unfold dataOfLines in Hall. cbn [map concat] in Hall. rewrite forallb_app in Hall.
    apply andb_prop in Hall. destruct Hall as [Hln Hrest].
    unfold mbind, R_bind, rbind. unfold loadLine. unfold mbind, R_bind, rbind.
    unfold update at 1.
    match goal with
    | |- context [mapR ?g ?l ?s] =>
        destruct (loadData_literals l Hln s) as (us & r1 & Hm & _)
    end.
    unfold mbind, R_bind, rbind in Hm. rewrite Hm. cbn [mret R_ret rret].
    destruct (IH Hrest (S idx) r1) as [r' Hr']. exists r'. exact Hr'.
Qed.

Lemma loadLines_app (pre post : list Line) : forall idx r,
  loadLines (pre ++ post) idx r
  = (loadLines pre idx;; loadLines post (idx + length pre)%nat) r.
Proof.
  induction pre as [|ln pre IH]; intros idx r; cbn [app loadLines length].
  - rewrite Nat.add_0_r. reflexivity.
  - unfold mbind, R_bind, rbind. destruct (loadLine ln idx r) as [[] r1| | |]; try reflexivity.
    rewrite IH. unfold mbind, R_bind, rbind.
    replace (S idx + length pre)%nat with (idx + S (length pre))%nat by lia. reflexivity.
Qed.

(** X21: when [load] returns, there is one datum for each item of the
    DATA statements of the program, in the order of the program, and
    the datum of a literal item is that literal.  An item that is a
    variable makes [load] throw, with the label of the line of the DATA
    statement in the message. *)
Theorem load_collects_data (pgm : Program) (r : Runtime) :
  (forall r',
     load pgm r = Done tt r' ->
     Forall2 dataValue (dataOfLines (rlines pgm)) (datums r'))
  /\ (forall pre ln post dpre x a loc dpost,
        rlines pgm = (pre ++ ln :: post)%list ->
        forallb isLiteral (dataOfLines pre) = true ->
        concat (map dataOf (lstmts ln)) = (dpre ++ Lookup x a loc :: dpost)%list ->
        forallb isLiteral dpre = true ->
        exists r',
          load pgm r = Halt ("I expected a constant value here"
                             +:+ " (line " +:+ labelText ln +:+ ")") r').
Proof.
  split.
  - intros r'. unfold load. unfold mbind, R_bind, rbind.
    match goal with
    | |- context [loadLines ?lns ?i ?s] =>
        destruct (loadLines lns i s) as [[] r1| | |] eqn:Hl; try discriminate
    end.
    unfold update. intros [= <-]. apply loadLines_tables in Hl.
    destruct Hl as (_ & _ & _ & vs & Hd & Hv). cbn in Hd. cbn. rewrite Hd. exact Hv.
  - intros pre ln post dpre x a loc dpost Hlines Hpre Hdata Hdpre.
    unfold load. unfold mbind at 1, R_bind, rbind. rewrite Hlines, loadLines_app.
    unfold mbind at 1, R_bind, rbind.
    match goal with
    | |- context [loadLines pre ?i ?s] =>
        destruct (loadLines_literals pre Hpre i s) as [r1 Hr1]; rewrite Hr1;
        apply loadLines_tables in Hr1; destruct Hr1 as (Ha & _ & Hp & _)
    end.
    cbn in Ha, Hp. cbn [loadLines]. unfold mbind at 1, R_bind, rbind.
    unfold loadLine. unfold mbind at 1 2, R_bind, rbind. unfold update at 1.
    rewrite Hdata.
    match goal with
    | |- context [mapR ?g ?l ?s] =>
        destruct (loadData_variable dpre dpost x a loc Hdpre s) as (r2 & Hm & H1 & H2 & H3)
    end.
    unfold mbind, R_bind, rbind in Hm |- *. rewrite Hm. unfold runtimeError. eexists. f_equal. f_equal. f_equal.
    unfold getLabelForPC, getLineForPC. cbn [curpc pc2line program set_curpc].
    rewrite H1, H2, H3.
    destruct (llabel ln) as [l|] eqn:Hlab; cbn; rewrite Hp.
    all: replace (Z.of_nat (length (allstmts r1)) + 1 - 1) with (Z.of_nat (length (allstmts r1))) by lia.
    all: destruct (Z.ltb_spec (Z.of_nat (length (allstmts r1))) 0) as [Hneg|_]; [lia|].
    all: rewrite Nat2Z.id.
    all: destruct (length (allstmts r1)); cbn [getLineDown]; rewrite lookup_insert_eq.
    all: rewrite Hlines, (list_lookup_middle pre post ln (length pre) eq_refl).
    all: unfold labelText; rewrite Hlab; reflexivity.
Qed.

Lemma load_collects_data_witness :
  exists r',
    load (programOf constantProgram) newRuntime
    = Halt ("I expected a constant value here" +:+ " (line " +:+ "10" +:+ ")") r'.
Proof.
  destruct (proj2 (load_collects_data (programOf constantProgram) newRuntime)
              [] (default {| llabel := None; lstmts := [] |}
                          (rlines (programOf constantProgram) !! 0%nat))
              (drop 1 (rlines (programOf constantProgram)))
              [Literal (VNum 1) (Some {| line := 1; start := 8; end_ := Some 9%nat |})]
              "X" None (Some {| line := 1; start := 10; end_ := Some 11%nat |}) [])
    as [r' Hr'].
  - vm_compute. reflexivity.
  - reflexivity.
  - vm_compute. reflexivity.
  - vm_compute. reflexivity.
  - exists r'. exact Hr'.
Defined.

(** ** The line of a statement *)

Lemma lineTable_below (lns : list Line) : forall n idx m j,
  (j < n)%nat -> lineTable n idx lns m !! j = m !! j.
Proof.
  induction lns as [|ln lns IH]; intros n idx m j Hj; cbn [lineTable]; [reflexivity|].
  rewrite IH by lia. apply lookup_insert_ne. lia.
Qed.

Lemma getLineDown_found (m : gmap nat nat) (n idx : nat) : forall k,
  m !! n = Some idx ->
  (forall j, (n < j <= n + k)%nat -> m !! j = None) ->
  getLineDown m (n + k) = Some idx.
Proof.
  induction k as [|k IH]; intros Hn Hgap.
  - rewrite Nat.add_0_r. destruct n; cbn [getLineDown]; rewrite Hn; reflexivity.
  - replace (n + S k)%nat with (S (n + k)) by lia. cbn [getLineDown].
    rewrite (Hgap (S (n + k))) by lia. apply IH; [exact Hn|].
    intros j Hj. apply Hgap. lia.
Qed.

(** The statements of a line are found in [pc2line] under its first one. *)
Lemma lineTable_line (pre : list Line) (ln : Line) (post : list Line) (k : nat) :
  (k < length (lstmts ln))%nat ->
  forall n idx m,
    (forall j, (n < j)%nat -> m !! j = None) ->
    getLineDown (lineTable n idx (pre ++ ln :: post) m) (n + length (flatten pre) + k)
    = Some (idx + length pre)%nat.
Proof.
  intros Hk. induction pre as [|p pre IH]; intros n idx m Hm.
  - cbn [app lineTable]. unfold flatten. cbn [map concat length].
    rewrite !Nat.add_0_r. apply getLineDown_found.
    + rewrite lineTable_below by lia. apply lookup_insert_eq.
    + intros j Hj. rewrite lineTable_below by lia.
      rewrite lookup_insert_ne by lia. apply Hm. lia.
  - cbn [app lineTable]. unfold flatten. cbn [map concat length]. rewrite length_app.
    fold (flatten pre).
    replace (n + (length (lstmts p) + length (flatten pre)) + k)%nat
      with (n + length (lstmts p) + length (flatten pre) + k)%nat by lia.
    rewrite IH.
    + f_equal. lia.
    + intros j Hj. rewrite lookup_insert_ne by lia. apply Hm. lia.
Qed.

(** X22: after [load], every statement of the program is traced back to
    its own line: for the statement number [k] of a line, [getLineForPC]
    gives the index of that line and [getLabelForPC], which the error
    messages show, gives its label. *)
Theorem statement_traced_to_its_line (pgm : Program) (r r' : Runtime)
    (pre : list Line) (ln : Line) (post : list Line) (k : nat) :
  load pgm r = Done tt r' ->
  rlines pgm = (pre ++ ln :: post)%list ->
  (k < length (lstmts ln))%nat ->
  allstmts r' !! (length (flatten pre) + k)%nat = lstmts ln !! k
  /\ getLineForPC r' (Z.of_nat (length (flatten pre) + k)) = Some (length pre)
  /\ getLabelForPC r' (Z.of_nat (length (flatten pre) + k)) = labelText ln.
Proof.
  intros Hload Hlines Hk. unfold load in Hload. unfold mbind, R_bind, rbind in Hload.
  match type of Hload with
  | context [loadLines ?lns ?i ?s] =>
      destruct (loadLines lns i s) as [[] r1| | |] eqn:Hl; try discriminate Hload
  end.
  unfold update in Hload. injection Hload as <-. apply loadLines_tables in Hl.
  destruct Hl as (Ha & Hb & Hc & _). cbn in Ha, Hb, Hc.
  assert (Hline : getLineForPC r1 (Z.of_nat (length (flatten pre) + k)) = Some (length pre)).
  { unfold getLineForPC.
    destruct (Z.ltb_spec (Z.of_nat (length (flatten pre) + k)) 0) as [Hneg|_]; [lia|].
    rewrite Nat2Z.id, Hb, Hlines.
    apply (lineTable_line pre ln post k Hk 0 0 ∅). intros j _. apply lookup_empty. }
  split; [|split].
  - cbn. rewrite Ha, Hlines. unfold flatten. rewrite map_app, concat_app. cbn [map concat].
    rewrite lookup_app_r by lia. fold (flatten pre).
    replace (length (flatten pre) + k - length (flatten pre))%nat with k by lia.
    apply lookup_app_l. exact Hk.
  - exact Hline.
  - unfold getLabelForPC. unfold getLineForPC in Hline |- *. cbn [pc2line set_dataptr set_curpc program].
    cbn [pc2line set_dataptr set_curpc program] in Hline. rewrite Hline.
    cbn. rewrite Hc, Hlines, (list_lookup_middle pre post ln (length pre) eq_refl).
    reflexivity.
Qed.

Lemma statement_traced_to_its_line_witness :
  exists r',
    load (programOf failingProgram) newRuntime = Done tt r'
    /\ getLabelForPC r' 3 = "20".
Proof.
  destruct (load (programOf failingProgram) newRuntime) as [[] r'| | |] eqn:H;
    try (vm_compute in H; discriminate H).
  exists r'. split; [reflexivity|].
  destruct (statement_traced_to_its_line (programOf failingProgram) newRuntime r'
              (take 1 (rlines (programOf failingProgram)))
              (default {| llabel := None; lstmts := [] |}
                       (rlines (programOf failingProgram) !! 1%nat))
              (drop 2 (rlines (programOf failingProgram))) 1 H)
    as (_ & _ & Hlab).
  - vm_compute. reflexivity.
  - vm_compute. lia.
  - exact Hlab.
Defined.

(** ** Whole numbers *)

(** A positive integer below [2^53] as a number. *)
Lemma floatOfZ_small (k : Z) :
  0 < k < 2 ^ 53 ->
  exists m e,
    Prim2SF (floatOfZ k) = S754_finite false m e
    /\ floatOfZ k = SF2Prim (S754_finite false m e)
    /\ JS.SF_of_int false k = S754_finite false m e
    /\ e <= 0 /\ Zpos m = k * 2 ^ (- e) /\ Zpos (digits2_pos m) = 53.
Proof.
  intros Hk. destruct (SF_of_int_small false k Hk) as (m & e & H1 & H2 & H3 & H4 & H5).
  exists m, e.
  assert (H : floatOfZ k = SF2Prim (S754_finite false m e)).
  { unfold floatOfZ. rewrite <- H1. destruct k; try lia. reflexivity. }
  rewrite H, Prim2SF_SF2Prim by exact H2. repeat split; assumption || reflexivity.
Qed.

Lemma ZofSF_whole (m : positive) (e k : Z) :
  e <= 0 -> Zpos m = k * 2 ^ (- e) -> ZofSF (S754_finite false m e) = k.
Proof.
  intros He Hm. unfold ZofSF. destruct (Z.leb_spec 0 e) as [H0|H0].
  - assert (e = 0) by lia. subst e. cbn in Hm. cbn. lia.
  - rewrite Z.shiftr_div_pow2 by lia. rewrite Hm. apply Z.div_mul.
    apply Z.pow_nonzero; lia.
Qed.

Lemma SFround_whole (m : positive) (e k : Z) :
  e <= 0 -> Zpos m = k * 2 ^ (- e) ->
  JS.SF_of_int false k = S754_finite false m e ->
  JS.SFround (S754_finite false m e) = S754_finite false m e.
Proof.
  intros He Hm Hk. unfold JS.SFround. destruct (Z.leb_spec 0 e) as [H0|H0]; [reflexivity|].
  rewrite Z.shiftr_div_pow2, Z.land_ones, Z.shiftl_1_l by lia.
  rewrite Hm, Z.div_mul, Z.mod_mul by (apply Z.pow_nonzero; lia).
  assert (Hh : 0 < 2 ^ (- e - 1)) by (apply Z.pow_pos_nonneg; lia).
  destruct (Z.leb_spec (2 ^ (- e - 1)) 0); [lia|]. exact Hk.
Qed.

(** [ROUND] returns a whole number below [2^53] as it is, and the
    number is not below 1. *)
Lemma ROUND_whole (k : Z) (r : Runtime) :
  0 < k < 2 ^ 53 ->
  ROUND (floatOfZ k) r = Done (floatOfZ k) r
  /\ ZofSF (Prim2SF (floatOfZ k)) = k
  /\ (floatOfZ k <? 1)%float = false.
Proof.
  intros Hk. destruct (floatOfZ_small k Hk) as (m & e & H1 & H2 & H3 & H4 & H5 & H6).
  assert (Hr : JS.Math_round (floatOfZ k) = floatOfZ k).
  { unfold JS.Math_round. rewrite H1, (SFround_whole m e k H4 H5 H3). symmetry. exact H2. }
  split; [|split].
  - unfold ROUND, checkNum. rewrite Hr.
    rewrite FloatAxioms.eqb_spec, isNaN_spec, H1. reflexivity.
  - rewrite H1. exact (ZofSF_whole m e k H4 H5).
  - rewrite FloatAxioms.ltb_spec, H1.
    change (Prim2SF 1) with (S754_finite false 4503599627370496 (-52)).
    unfold SFltb. cbn [SFcompare].
    pose proof (digits2_bounds m) as Hb. rewrite H6 in Hb.
    assert (He : -52 <= e).
    { destruct (Z_le_gt_dec (-52) e) as [|Hlt]; [assumption|exfalso].
      assert (2 ^ 53 <= 2 ^ (- e)) by (apply Z.pow_le_mono_r; lia). nia. }
    destruct (Z.compare_spec e (-52)) as [Heq|Hlt|Hgt]; [|lia|reflexivity].
    destruct (PosDef.Pos.compare_cont Eq m 4503599627370496) eqn:Hc; try reflexivity.
    exfalso. apply (proj1 (Pos.compare_lt_iff m 4503599627370496)) in Hc.
    assert (Hp : 2 ^ (53 - 1) = 4503599627370496) by reflexivity.
    rewrite Hp in Hb. destruct Hb as [Hb _]. apply Pos2Z.pos_lt_pos in Hc.
    exact (Z.lt_irrefl _ (Z.le_lt_trans _ _ _ Hb Hc)).
Qed.

Lemma length_repeatStr (c : ascii) (n : nat) :
  String.length (JS.repeatStr (String c EmptyString) n) = n.
Proof.
  induction n as [|n IH]; cbn [JS.repeatStr]; [reflexivity|].
  change (String.length (String c (JS.repeatStr (String c EmptyString) n)) = S n).
  cbn [String.length]. f_equal. exact IH.
Qed.

(** ** Print zones and ON ... GOTO *)

(** X23: printing the tab, which is what a comma in PRINT prints, pads
    the line with spaces up to the last column of the current zone of
    15 columns: at most 14 spaces, and none at all when the line is
    already there. *)
Theorem tab_pads_to_zone_end (r : Runtime) :
  0 <= column r < 2 ^ 52 ->
  exists n : nat,
    printExpr (VStr tabChar) r
    = Done tt (set_output (output r ++ [JS.repeatStr " " n])%list
                 (set_column (column r + Z.of_nat n) r))
    /\ (n <= 14)%nat
    /\ (column r + Z.of_nat n) mod 15 = 14
    /\ (column r mod 15 = 14 -> n = 0%nat).
Proof.
  intros Hc. set (k := (column r / 15 + 1) * 15).
  assert (Hq : 0 <= column r / 15 <= column r) by (split; [apply Z.div_pos; lia|apply Z.div_le_upper_bound; lia]).
  assert (Hm : 0 <= column r mod 15 < 15) by (apply Z.mod_pos_bound; lia).
  assert (Hd : column r = 15 * (column r / 15) + column r mod 15) by (apply Z.div_mod; lia).
  assert (Hk : 0 < k < 2 ^ 53) by (unfold k; lia).
  destruct (ROUND_whole k r Hk) as (H1 & H2 & H3).
  exists (Z.to_nat (k - 1 - column r)).
  assert (Hs : 0 <= k - 1 - column r <= 14) by (unfold k; lia).
  split; [|split; [lia|split]].
  - unfold printExpr. unfold mbind at 1, R_bind, rbind.
    assert (Hv : valueToString (VStr tabChar) r
                 = Done (JS.repeatStr " " (Z.to_nat (k - 1 - column r))) r).
    { unfold valueToString.
      change (String.eqb tabChar newlineChar) with false.
      change (String.eqb tabChar tabChar) with true. cbn iota.
      unfold mbind at 1, R_bind, rbind. unfold read at 1. fold k.
      unfold TAB. rewrite H3. unfold mbind at 1, R_bind, rbind. rewrite H1.
      unfold mbind at 1, R_bind, rbind. unfold read at 1. rewrite H2.
      destruct (Z.leb_spec (k - 1 - column r) 0) as [H0|H0].
      - replace (k - 1 - column r) with 0 by lia. reflexivity.
      - unfold maxStringLength.
        destruct (Z.ltb_spec (2 ^ 29) (k - 1 - column r)) as [Hbig|_]; [lia|]. reflexivity. }
    rewrite Hv. unfold mbind, R_bind, rbind, update, print.
    rewrite length_repeatStr. reflexivity.
  - rewrite Z2Nat.id by lia. replace (column r + (k - 1 - column r)) with (k - 1) by lia.
    unfold k. replace ((column r / 15 + 1) * 15 - 1) with (14 + (column r / 15) * 15) by lia.
    rewrite Z.mod_add by lia. reflexivity.
  - intros H14. unfold k. lia.
Qed.

Lemma tab_pads_to_zone_end_witness :
  exists n : nat,
    printExpr (VStr tabChar) (set_column 3 newRuntime)
    = Done tt (set_output [JS.repeatStr " " n] (set_column (3 + Z.of_nat n) newRuntime))
    /\ (3 + Z.of_nat n) mod 15 = 14.
Proof.
  destruct (tab_pads_to_zone_end (set_column 3 newRuntime)) as (n & H1 & _ & H2 & _).
  - cbn. lia.
  - exists n. split; [exact H1|exact H2].
Defined.

Lemma mapR_labels (names : list string) (r : Runtime) :
  mapR eval (map (fun l => JLit (VStr l)) names) r = Done (map VStr names) r.
Proof.
  induction names as [|l names IH]; cbn [map mapR]; [reflexivity|].
  unfold mbind, R_bind, rbind in IH |- *. cbn [eval]. unfold mret, R_ret, rret in IH |- *.
  rewrite IH. reflexivity.
Qed.

(** X24: ON ... GOTO with a whole number [k] goes to the [k]-th label of
    its list, counting from 1, when that label is in the label table;
    with 0 or a number above the length of the list it throws, naming
    the range, and does not fall through to the next statement. *)
Theorem on_goto_selects (r : Runtime) (e : JSExpr) (k : Z) (names : list string) :
  eval e r = Done (VNum (floatOfZ k)) r ->
  0 <= k < 2 ^ 53 ->
  (forall l target,
     1 <= k -> names !! Z.to_nat (k - 1) = Some l ->
     label2pc r !! l = Some target -> 0 <= target ->
     exec [JOnGotoLabel e (map (fun l => JLit (VStr l)) names)] r
     = Done tt (set_curpc target r))
  /\ (k = 0 \/ Z.of_nat (length names) < k ->
      exec [JOnGotoLabel e (map (fun l => JLit (VStr l)) names)] r
      = runtimeError ("I needed a number between 1 and "
                      +:+ JS.decZ (Z.of_nat (length names))
                      +:+ ", but I got " +:+ JS.Number_toString (floatOfZ k) +:+ ".") r).
Proof.
  intros He Hk.
  assert (Hround : ROUND (floatOfZ k) r = Done (floatOfZ k) r
                   /\ ZofSF (Prim2SF (floatOfZ k)) = k).
  { destruct (Z.eq_dec k 0) as [->|Hn].
    - split; reflexivity.
    - destruct (ROUND_whole k r ltac:(lia)) as (H1 & H2 & _). split; assumption. }
  destruct Hround as [H1 H2].
  assert (Hexec : exec [JOnGotoLabel e (map (fun l => JLit (VStr l)) names)] r
                  = (onGotoLabel (VNum (floatOfZ k)) (map VStr names);; mret tt) r).
  { cbn [exec execStmt]. unfold mbind, R_bind, rbind. rewrite He.
    pose proof (mapR_labels names r) as Hl. unfold mbind, R_bind, rbind in Hl.
    rewrite Hl. reflexivity. }
  rewrite Hexec. unfold onGotoLabel. cbn [ToNumber].
  unfold mbind, R_bind, rbind. rewrite H1, H2, length_map. split.
  - intros l target H1k Hl Hlab Ht.
    assert (Hlen : (Z.to_nat (k - 1) < length names)%nat) by (apply lookup_lt_Some in Hl; exact Hl).
    destruct (Z.ltb_spec k 1) as [|_]; [lia|].
    destruct (Z.ltb_spec (Z.of_nat (length names)) k) as [|_]; [lia|]. cbn [orb].
    rewrite list_lookup_fmap, Hl. cbn [fmap option_fmap option_map default from_option id].
    unfold gotoLabel. unfold mbind, R_bind, rbind, read. cbn [ToString]. rewrite Hlab.
    destruct (Z.leb_spec 0 target) as [_|]; [|lia]. reflexivity.
  - intros Hout.
    assert (Hb : (k <? 1) || (Z.of_nat (length names) <? k) = true).
    { destruct Hout as [->|Hout]; [reflexivity|].
      apply orb_true_intro. right. apply Z.ltb_lt. exact Hout. }
    rewrite Hb. reflexivity.
Qed.

Lemma on_goto_selects_witness :
  exec [JOnGotoLabel (JLit (VNum (floatOfZ 2))) (map (fun l => JLit (VStr l)) ["10"; "20"])]
       (booted jumpProgram)
  = Done tt (set_curpc 1 (booted jumpProgram)).
Proof.
  apply (proj1 (on_goto_selects (booted jumpProgram) (JLit (VNum (floatOfZ 2))) 2
                  ["10"; "20"] eq_refl ltac:(lia)) "20" 1).
  - lia.
  - reflexivity.
  - vm_compute. reflexivity.
  - lia.
Defined.

(** ** The lexer *)



















